(** * dkpro-cassis: the CAS document model and its JSON wire format

    A shallow embedding of [cassis/cas.py] (identifier allocators, Sofas,
    views with their position-ordered type index, the [Cas] document handle
    and its queries) and of [cassis/json.py] (the JSON deserializer and
    serializer), followed by the properties of the specification.

    Python objects are mutable and shared: a [Cas] handle holds references
    to its two dictionaries, its two allocators and its current view, and
    [get_view] hands out a second handle on the same objects.  The embedding
    therefore keeps every object in an explicit store ([heap]), addresses
    objects by their position in it, and threads the store through every
    operation in a small state-and-exception monad. *)

From Stdlib Require Import ZArith List Ascii String Bool Lia Sorted.
From stdpp Require Import base list.
Import ListNotations.
Local Open Scope string_scope.
Local Open Scope list_scope.
Local Open Scope Z_scope.
Set Warnings "-register-all".

(** ** Python values, exceptions, dictionaries *)

(** An object reference: the position of the object in its part of the store. *)
Definition addr := nat.

(** The exceptions the modelled code raises.  [BadAddress] is the model's own:
    it stands for following a reference that the store does not hold, which
    no handle built by the constructors below ever does. *)
Inductive exn :=
| ValueError | KeyError | TypeError | AttributeError | TypeNotFoundError
| BadAddress.

Inductive result (A : Type) :=
| Ok (a : A)
| Raise (e : exn).
Arguments Ok {A} a.
Arguments Raise {A} e.

(** The two kinds of object a feature or the deserializer's identifier table
    can refer to. *)
Inductive obj :=
| OFs (a : addr)      (* a FeatureStructure *)
| OSofa (a : addr).   (* a Sofa *)

(** Python values: what [json.loads] produces ([None], booleans, ints,
    strings, lists, dicts with their keys in document order; floats are left
    out), byte strings, and references to objects.  A byte string is
    represented by its canonical base64 text, so that [b64decode] and
    [b64encode] are the change of constructor between [VStr] and [VBytes];
    text that is not canonical base64 is outside the model. *)
Inductive value :=
| VNone
| VBool (b : bool)
| VInt (z : Z)
| VStr (s : string)
| VList (l : list value)
| VDict (d : list (string * value))
| VBytes (s : string)
| VObj (o : obj).

(** [sys.maxsize] of a 64-bit CPython. *)
Definition maxsize : Z := 2 ^ 63 - 1.

(** A Python [dict] with string keys: association list in insertion order,
    keys pairwise distinct. *)
Definition dict (V : Type) := list (string * V).

Section Dict.
Context {V : Type}.

(** [d.get(k)] *)
Fixpoint dict_get (k : string) (d : dict V) : option V :=
  match d with
  | [] => None
  | (k', v) :: d' => if String.eqb k k' then Some v else dict_get k d'
  end.

(** [k in d] *)
Definition dict_contains (k : string) (d : dict V) : bool :=
  match dict_get k d with Some _ => true | None => false end.

(** [d[k] = v]: replaces the value in place when [k] is present, appends
    the item otherwise. *)
Fixpoint dict_set (k : string) (v : V) (d : dict V) : dict V :=
  match d with
  | [] => [(k, v)]
  | (k', v') :: d' =>
      if String.eqb k k' then (k, v) :: d' else (k', v') :: dict_set k v d'
  end.

(** [d.pop(k)] as far as the dictionary is concerned ([k] is present at
    every call site). *)
Fixpoint dict_pop (k : string) (d : dict V) : dict V :=
  match d with
  | [] => []
  | (k', v') :: d' =>
      if String.eqb k k' then d' else (k', v') :: dict_pop k d'
  end.

(** [d.values()] *)
Definition dict_values (d : dict V) : list V := map snd d.

(** [d.keys()] *)
Definition dict_keys (d : dict V) : list string := map fst d.
End Dict.

(** [x in l] for a list of strings. *)
Definition str_in (x : string) (l : list string) : bool :=
  existsb (String.eqb x) l.

(** A Python [set] of strings built from a sequence: the model enumerates
    it in order of first occurrence.  Python leaves the iteration order
    unspecified; the theorems below are stated for the enumeration the model
    fixes and use nothing of it but that it lists every element once. *)
Fixpoint py_set (l : list string) : list string :=
  match l with
  | [] => []
  | x :: l' => x :: List.filter (fun y => negb (String.eqb y x)) (py_set l')
  end.

(** ** Sort keys and [sortedcontainers.SortedKeyList] *)

(** A sort key is a Python tuple of two ints, compared lexicographically. *)
Definition key := (Z * Z)%type.

Definition key_ltb (a b : key) : bool :=
  (fst a <? fst b) || ((fst a =? fst b) && (snd a <? snd b)).

Definition key_leb (a b : key) : bool :=
  (fst a <? fst b) || ((fst a =? fst b) && (snd a <=? snd b)).

Definition key_eqb (a b : key) : bool :=
  (fst a =? fst b) && (snd a =? snd b).

Module SortedKeyList.
(** The list keeps each value next to the key computed for it when it was
    added (the library's parallel [_lists] and [_keys]); values are
    references to feature structures. *)
Definition t := list (key * addr).

(** [bisect_key_left(k)]: the insertion point before any entry whose key
    equals [k]; in a list sorted by key, which is what [add] maintains, that
    is the number of leading entries with a key below [k]. *)
Fixpoint bisect_key_left (k : key) (l : t) : nat :=
  match l with
  | [] => 0%nat
  | (k', _) :: l' => if key_ltb k' k then S (bisect_key_left k l') else 0%nat
  end.

(** [bisect_key_right(k)]: the insertion point after any entry whose key
    equals [k]. *)
Fixpoint bisect_key_right (k : key) (l : t) : nat :=
  match l with
  | [] => 0%nat
  | (k', _) :: l' => if key_leb k' k then S (bisect_key_right k l') else 0%nat
  end.

(** [add(value)], with [k] the key of [value]: the library inserts at
    [bisect_right] of the key. *)
Definition add (k : key) (v : addr) (l : t) : t :=
  let i := bisect_key_right k l in
  take i l ++ (k, v) :: drop i l.

(** [l[i:j]] for indices within [0 .. len(l)]. *)
Definition slice (i j : nat) (l : t) : t := take (j - i) (drop i l).

Definition values (l : t) : list addr := map snd l.
Definition keys (l : t) : list key := map fst l.
End SortedKeyList.

(** ** The classes of [cas.py] *)

Module IdGenerator.
Record t := mk { _next_id : Z }.

Definition __init__ (initial_id : Z) : t := mk initial_id.

(** [generate_id]: the identifier issued and the allocator afterwards. *)
Definition generate_id (self : t) : Z * t :=
  let result := _next_id self in
  (result, mk (_next_id self + 1)).
End IdGenerator.

Module Sofa.
(** The attrs validators run in the constructor only; the payload fields
    are assigned without a check by the setters of [Cas], hence [value].
    [sofaArray] is the array reference of spec section 3, which [json.py]
    reads and writes; this revision of [cas.py] does not declare it yet. *)
Record t := mk {
  sofaNum : Z;
  xmiID : Z;
  sofaID : string;
  sofaString : value;
  mimeType : value;
  sofaURI : value;
  sofaArray : value
}.

Definition set_xmiID (x : Z) (s : t) : t :=
  mk (sofaNum s) x (sofaID s) (sofaString s) (mimeType s) (sofaURI s) (sofaArray s).
Definition set_sofaString (v : value) (s : t) : t :=
  mk (sofaNum s) (xmiID s) (sofaID s) v (mimeType s) (sofaURI s) (sofaArray s).
Definition set_mimeType (v : value) (s : t) : t :=
  mk (sofaNum s) (xmiID s) (sofaID s) (sofaString s) v (sofaURI s) (sofaArray s).
Definition set_sofaURI (v : value) (s : t) : t :=
  mk (sofaNum s) (xmiID s) (sofaID s) (sofaString s) (mimeType s) v (sofaArray s).
Definition set_sofaArray (v : value) (s : t) : t :=
  mk (sofaNum s) (xmiID s) (sofaID s) (sofaString s) (mimeType s) (sofaURI s) v.
End Sofa.

Module FeatureStructure.
(** An instance of a class generated by the type system.  [begin] and
    [end_] are the two reserved offsets: [Some b] says that the name is in
    the instance's [__slots__] and holds the int [b], [None] that the class
    has no such slot.  [features] holds the other slots by name (among
    them [sofa] on annotation types). *)
Record t := mk {
  xmiID : option Z;
  type : string;
  begin : option Z;
  end_ : option Z;
  features : dict value
}.

Definition set_xmiID (x : option Z) (a : t) : t :=
  mk x (type a) (begin a) (end_ a) (features a).
Definition set_feature (n : string) (v : value) (a : t) : t :=
  mk (xmiID a) (type a) (begin a) (end_ a) (dict_set n v (features a)).

(** [hasattr(a, n)] for a feature name other than the reserved ones. *)
Definition hasattr (a : t) (n : string) : bool := dict_contains n (features a).
End FeatureStructure.

Module View.
(** [_indices] is a [defaultdict] of sorted lists by type name.  A bucket
    that was never written reads as the empty list; that reading it also
    stores the empty list is not modelled, since nothing in the code looks
    at the index's key set. *)
Record t := mk {
  sofa : addr;
  _indices : dict SortedKeyList.t
}.

(** [self.type_index[name]] *)
Definition type_index (self : t) (name : string) : SortedKeyList.t :=
  match dict_get name (_indices self) with
  | Some l => l
  | None => []
  end.
End View.

(** [_sort_func]: the [(begin, end)] tuple when both names are slots of the
    structure, [(sys.maxsize, sys.maxsize)] otherwise. *)
Definition _sort_func (a : FeatureStructure.t) : key :=
  match FeatureStructure.begin a, FeatureStructure.end_ a with
  | Some b, Some e => (b, e)
  | _, _ => (maxsize, maxsize)
  end.

(** ** The type system (external to the two modules) *)

(** Modelled from the spec: the TypeSystemView of spec section 2, whose
    module [cassis/typesystem.py] is consumed, not built, by the code under
    study.  A type is looked up by name and reports the names of its child
    types and its ordered feature list; the two predicates classify range
    types. *)
Module TypeSystem.
Record Feature := mkFeature {
  name : string;
  rangeTypeName : string;
  _has_reserved_name : bool
}.

Record Type_ := mkType {
  type_name : string;
  supertypeName : string;
  children : list string;
  all_features : list Feature
}.

Record t := mk {
  types : list Type_;
  is_primitive : string -> bool;
  is_collection : string -> Feature -> bool
}.

(** [get_type(name)]: [None] stands for [TypeNotFoundError]. *)
Definition get_type (ts : t) (n : string) : option Type_ :=
  find (fun ty => String.eqb (type_name ty) n) (types ts).
End TypeSystem.

(** ** The store *)

Record heap := mkHeap {
  generators : list IdGenerator.t;
  sofas : list Sofa.t;
  views : list View.t;
  structures : list FeatureStructure.t;
  view_dicts : list (dict addr);    (* the dict objects bound to [Cas._views] *)
  sofa_dicts : list (dict addr)     (* the dict objects bound to [Cas._sofas] *)
}.

Definition empty_heap : heap := mkHeap [] [] [] [] [] [].

(** One component of the store: how to read it and how to replace it. *)
Record part (T : Type) := mkPart {
  sel : heap -> list T;
  upd : list T -> heap -> heap
}.
Arguments sel {T} p h.
Arguments upd {T} p l h.

Definition generators_ : part IdGenerator.t :=
  mkPart _ generators
    (fun l h => mkHeap l (sofas h) (views h) (structures h) (view_dicts h) (sofa_dicts h)).
Definition sofas_ : part Sofa.t :=
  mkPart _ sofas
    (fun l h => mkHeap (generators h) l (views h) (structures h) (view_dicts h) (sofa_dicts h)).
Definition views_ : part View.t :=
  mkPart _ views
    (fun l h => mkHeap (generators h) (sofas h) l (structures h) (view_dicts h) (sofa_dicts h)).
Definition structures_ : part FeatureStructure.t :=
  mkPart _ structures
    (fun l h => mkHeap (generators h) (sofas h) (views h) l (view_dicts h) (sofa_dicts h)).
Definition view_dicts_ : part (dict addr) :=
  mkPart _ view_dicts
    (fun l h => mkHeap (generators h) (sofas h) (views h) (structures h) l (sofa_dicts h)).
Definition sofa_dicts_ : part (dict addr) :=
  mkPart _ sofa_dicts
    (fun l h => mkHeap (generators h) (sofas h) (views h) (structures h) (view_dicts h) l).

(** Computations on the store that return a value or raise; an exception
    leaves the store as it was when it was raised. *)
Definition M (A : Type) : Type := heap -> result A * heap.

Definition ret {A} (a : A) : M A := fun h => (Ok a, h).
Definition raise {A} (e : exn) : M A := fun h => (Raise e, h).
Definition bind {A B} (m : M A) (f : A -> M B) : M B :=
  fun h =>
    match m h with
    | (Ok a, h') => f a h'
    | (Raise e, h') => (Raise e, h')
    end.

Notation "'let!' x ':=' m 'in' k" := (bind m (fun x => k))
  (at level 10, x name, m at level 100, k at level 200).
Notation "'run!' m 'in' k" := (bind m (fun _ => k))
  (at level 10, m at level 100, k at level 200).

(** Allocation of a new object, attribute read, attribute write. *)
Definition new {T} (p : part T) (x : T) : M addr :=
  fun h => (Ok (length (sel p h)), upd p (sel p h ++ [x]) h).

Definition get {T} (p : part T) (a : addr) : M T :=
  fun h =>
    match sel p h !! a with
    | Some x => (Ok x, h)
    | None => (Raise BadAddress, h)
    end.

Definition put {T} (p : part T) (a : addr) (x : T) : M unit :=
  fun h =>
    match sel p h !! a with
    | Some _ => (Ok tt, upd p (<[a:=x]> (sel p h)) h)
    | None => (Raise BadAddress, h)
    end.

Definition modify {T} (p : part T) (a : addr) (f : T -> T) : M unit :=
  let! x := get p a in put p a (f x).

(** [for x in l: body(x)] *)
Fixpoint for_each {A} (l : list A) (body : A -> M unit) : M unit :=
  match l with
  | [] => ret tt
  | x :: l' => run! body x in for_each l' body
  end.

(** [View.add_annotation_to_index]:
    [self._indices[annotation.type].add(annotation)]. *)
Definition add_annotation_to_index (self : addr) (annotation : addr) : M unit :=
  let! a := get structures_ annotation in
  let! v := get views_ self in
  let bucket := View.type_index v (FeatureStructure.type a) in
  put views_ self
    (View.mk (View.sofa v)
       (dict_set (FeatureStructure.type a)
          (SortedKeyList.add (_sort_func a) annotation bucket)
          (View._indices v))).

(** [View.get_all_annotations]: the buckets one after the other, each in
    index order. *)
Definition get_all_annotations (v : View.t) : list addr :=
  flat_map SortedKeyList.values (dict_values (View._indices v)).

(** A Python generator run to its end: the values it yields, then the
    exception that ends the iteration, if any.  The queries below are
    generator functions; nothing of their body runs before the first value
    is asked for, so every exception of the body shows up here. *)
Definition gen (A : Type) : Type := (list A * option exn)%type.

(** [for a in l: if test(a): yield a], where the test may raise. *)
Fixpoint yield_if {A} (test : A -> result bool) (l : list A) : gen A :=
  match l with
  | [] => ([], None)
  | a :: l' =>
      match test a with
      | Raise e => ([], Some e)
      | Ok b =>
          let (ys, o) := yield_if test l' in
          (if b then a :: ys else ys, o)
      end
  end.

(** [l[b:e]]: Python's rules for the two indices of a slice.  A negative
    index counts from the end; either index is then clamped to the sequence;
    the slice is empty when the first index is not below the second. *)
Definition slice_index (len i : Z) : nat :=
  Z.to_nat (if i <? 0 then Z.max (i + len) 0 else Z.min i len).

Definition py_slice {A} (l : list A) (b e : Z) : list A :=
  let len := Z.of_nat (length l) in
  let start := slice_index len b in
  let stop := slice_index len e in
  take (stop - start) (drop start l).

(** The same on a string, taken as the sequence of its characters. *)
Definition str_slice (s : string) (b e : Z) : string :=
  string_of_list_ascii (py_slice (list_ascii_of_string s) b e).

(** [g.generate_id()] on the allocator object at address [g]: the method
    of [IdGenerator] run on the object, which is updated in place. *)
Definition call_generate_id (g : addr) : M Z :=
  let! gen := get generators_ g in
  let (result, gen') := IdGenerator.generate_id gen in
  run! put generators_ g gen' in
  ret result.

Module Cas.
(** A handle on a document.  All fields but the type system are
    references into the store, which is what lets [_copy] share them. *)
Record t := mk {
  _typesystem : TypeSystem.t;
  _sofas : addr;
  _views : addr;
  _xmi_id_generator : addr;
  _sofa_num_generator : addr;
  _current_view : addr
}.

Definition with_current_view (v : addr) (self : t) : t :=
  mk (_typesystem self) (_sofas self) (_views self)
     (_xmi_id_generator self) (_sofa_num_generator self) v.

Definition _get_next_xmi_id (self : t) : M Z :=
  call_generate_id (_xmi_id_generator self).

Definition _get_next_sofa_num (self : t) : M Z :=
  call_generate_id (_sofa_num_generator self).

Definition _add_view (self : t) (name : string) : M unit :=
  (* Create sofa *)
  let! xmi := _get_next_xmi_id self in
  let! num := _get_next_sofa_num self in
  let! sofa := new sofas_ (Sofa.mk num xmi name VNone VNone VNone VNone) in
  (* Create view *)
  let! view := new views_ (View.mk sofa []) in
  let! vs := get view_dicts_ (_views self) in
  run! put view_dicts_ (_views self) (dict_set name view vs) in
  let! ss := get sofa_dicts_ (_sofas self) in
  put sofa_dicts_ (_sofas self) (dict_set name sofa ss).

(** [Cas(typesystem)], for a type system that is given (the source puts
    [TypeSystem()] in the place of [None]; a type system object is true).
    [_current_view] is bound last; [_add_view] does not read it, and the
    handle passed to it carries a placeholder there. *)
Definition __init__ (typesystem : TypeSystem.t) : M t :=
  let! sofas := new sofa_dicts_ [] in
  let! views := new view_dicts_ [] in
  let! xmi_gen := new generators_ (IdGenerator.__init__ 1) in
  let! num_gen := new generators_ (IdGenerator.__init__ 1) in
  let self := mk typesystem sofas views xmi_gen num_gen 0%nat in
  (* Every CAS comes with an initial view called _InitialView *)
  run! _add_view self "_InitialView" in
  let! vs := get view_dicts_ views in
  match dict_get "_InitialView" vs with
  | Some v => ret (with_current_view v self)
  | None => raise KeyError
  end.

Definition _copy (self : t) : M t :=
  let! result := __init__ (_typesystem self) in
  ret (mk (_typesystem result) (_sofas self) (_views self)
          (_xmi_id_generator self) (_sofa_num_generator self)
          (_current_view self)).

Definition get_view (self : t) (name : string) : M t :=
  let! vs := get view_dicts_ (_views self) in
  match dict_get name vs with
  | Some v =>
      (* Make a shallow copy of this CAS and just change the current view. *)
      let! result := _copy self in
      ret (with_current_view v result)
  | None => raise KeyError
  end.

Definition create_view (self : t) (name : string) : M t :=
  let! vs := get view_dicts_ (_views self) in
  if dict_contains name vs then raise ValueError
  else
    run! _add_view self name in
    get_view self name.

(** The [views] and [sofas] properties. *)
Definition views (self : t) : M (list addr) :=
  let! vs := get view_dicts_ (_views self) in
  ret (dict_values vs).

Definition sofas (self : t) : M (list addr) :=
  let! ss := get sofa_dicts_ (_sofas self) in
  ret (dict_values ss).

Definition get_sofa (self : t) : M addr :=
  let! v := get views_ (_current_view self) in
  ret (View.sofa v).

Definition add_annotation (self : t) (annotation : addr) : M unit :=
  let! next_id := _get_next_xmi_id self in
  run! modify structures_ annotation (FeatureStructure.set_xmiID (Some next_id)) in
  let! a := get structures_ annotation in
  run! (if FeatureStructure.hasattr a "sofa" then
          let! s := get_sofa self in
          modify structures_ annotation
            (FeatureStructure.set_feature "sofa" (VObj (OSofa s)))
        else ret tt) in
  add_annotation_to_index (_current_view self) annotation.

(** The call [self.add_annotation(annotation, **keywords)].  The method is
    declared as [add_annotation(self, annotation)]: no further parameter, no
    [**kwargs].  Python binds the arguments of a call to the parameters
    before the body runs, and raises [TypeError] for a keyword that names no
    parameter or a parameter that already has its value; so every keyword
    given beside the structure ends the call there. *)
Definition call_add_annotation (self : t) (annotation : addr) (keywords : dict value)
    : M unit :=
  match keywords with
  | [] => add_annotation self annotation
  | _ :: _ => raise TypeError
  end.

Definition add_annotations (self : t) (annotations : list addr) : M unit :=
  for_each annotations (add_annotation self).

(** The setters of the [sofa_string], [sofa_mime] and [sofa_uri]
    properties. *)
Definition set_sofa_string (self : t) (v : value) : M unit :=
  let! s := get_sofa self in modify sofas_ s (Sofa.set_sofaString v).

Definition set_sofa_mime (self : t) (v : value) : M unit :=
  let! s := get_sofa self in modify sofas_ s (Sofa.set_mimeType v).

Definition set_sofa_uri (self : t) (v : value) : M unit :=
  let! s := get_sofa self in modify sofas_ s (Sofa.set_sofaURI v).

(** The names [_get_feature_structures] and
    [_get_feature_structures_in_range] visit: the children of the type,
    then the type itself, as a set. *)
Definition candidate_types (ty : TypeSystem.Type_) (type_name : string) : list string :=
  py_set (TypeSystem.children ty ++ [type_name]).

(** [_get_feature_structures]: the buckets of the type and of its child
    types in the current view, one after the other. *)
Definition _get_feature_structures (self : t) (type_name : string) (h : heap) : gen addr :=
  match TypeSystem.get_type (_typesystem self) type_name with
  | None => ([], Some TypeNotFoundError)
  | Some ty =>
      match sel views_ h !! _current_view self with
      | None => ([], Some BadAddress)
      | Some v =>
          (flat_map (fun name => SortedKeyList.values (View.type_index v name))
             (candidate_types ty type_name), None)
      end
  end.

(** The window [_get_feature_structures_in_range] cuts out of one bucket. *)
Definition window (begin end_ : Z) (annotations : SortedKeyList.t) : SortedKeyList.t :=
  let idx_begin :=
    Z.to_nat (Z.max (Z.of_nat (SortedKeyList.bisect_key_left (begin, end_) annotations) - 1) 0) in
  let idx_end :=
    Nat.min (SortedKeyList.bisect_key_right (end_, begin) annotations) (length annotations) in
  SortedKeyList.slice idx_begin idx_end annotations.

Definition _get_feature_structures_in_range
    (self : t) (type_name : string) (begin end_ : Z) (h : heap) : gen addr :=
  match TypeSystem.get_type (_typesystem self) type_name with
  | None => ([], Some TypeNotFoundError)
  | Some ty =>
      match sel views_ h !! _current_view self with
      | None => ([], Some BadAddress)
      | Some v =>
          (flat_map
             (fun name => SortedKeyList.values (window begin end_ (View.type_index v name)))
             (candidate_types ty type_name), None)
      end
  end.

(** [select]: every structure of the type or of a child type. *)
Definition select (self : t) (type_name : string) (h : heap) : gen addr :=
  _get_feature_structures self type_name h.

(** The test of [select_covered]:
    [annotation.begin >= c_begin and annotation.end <= c_end].  Reading an
    offset the structure does not have raises [AttributeError]; [and] does
    not evaluate its right operand when the left one is false. *)
Definition is_covered (h : heap) (c_begin c_end : Z) (annotation : addr) : result bool :=
  match sel structures_ h !! annotation with
  | None => Raise BadAddress
  | Some a =>
      match FeatureStructure.begin a with
      | None => Raise AttributeError
      | Some b =>
          if b >=? c_begin then
            match FeatureStructure.end_ a with
            | None => Raise AttributeError
            | Some e => Ok (e <=? c_end)
            end
          else Ok false
      end
  end.

(** The test of [select_covering]:
    [c_begin >= annotation.begin and c_end <= annotation.end]. *)
Definition is_covering (h : heap) (c_begin c_end : Z) (annotation : addr) : result bool :=
  match sel structures_ h !! annotation with
  | None => Raise BadAddress
  | Some a =>
      match FeatureStructure.begin a with
      | None => Raise AttributeError
      | Some b =>
          if c_begin >=? b then
            match FeatureStructure.end_ a with
            | None => Raise AttributeError
            | Some e => Ok (c_end <=? e)
            end
          else Ok false
      end
  end.

(** A filtering loop over another generator: the loop's own exception
    comes first, the source's exception once the source is used up. *)
Definition filter_gen (test : addr -> result bool) (source : gen addr) : gen addr :=
  let (ys, o) := yield_if test (fst source) in
  (ys, match o with Some e => Some e | None => snd source end).

Definition select_covered
    (self : t) (type_name : string) (covering_annotation : FeatureStructure.t)
    (h : heap) : gen addr :=
  match FeatureStructure.begin covering_annotation with
  | None => ([], Some AttributeError)
  | Some c_begin =>
      match FeatureStructure.end_ covering_annotation with
      | None => ([], Some AttributeError)
      | Some c_end =>
          filter_gen (is_covered h c_begin c_end)
            (_get_feature_structures_in_range self type_name c_begin c_end h)
      end
  end.

Definition select_covering
    (self : t) (type_name : string) (covered_annotation : FeatureStructure.t)
    (h : heap) : gen addr :=
  match FeatureStructure.begin covered_annotation with
  | None => ([], Some AttributeError)
  | Some c_begin =>
      match FeatureStructure.end_ covered_annotation with
      | None => ([], Some AttributeError)
      | Some c_end =>
          (* We iterate over all annotations and check whether the provided
             annotation is covered in the current annotation *)
          filter_gen (is_covering h c_begin c_end)
            (_get_feature_structures self type_name h)
      end
  end.

(** [select_all]: every structure of the current view. *)
Definition select_all (self : t) (h : heap) : gen addr :=
  match sel views_ h !! _current_view self with
  | None => ([], Some BadAddress)
  | Some v => (get_all_annotations v, None)
  end.

(** The getters of the [sofa_string], [sofa_mime] and [sofa_uri]
    properties: the field of the current view's Sofa. *)
Definition sofa_string (self : t) : M value :=
  let! s := get_sofa self in
  let! sofa := get sofas_ s in
  ret (Sofa.sofaString sofa).

Definition sofa_mime (self : t) : M value :=
  let! s := get_sofa self in
  let! sofa := get sofas_ s in
  ret (Sofa.mimeType sofa).

Definition sofa_uri (self : t) : M value :=
  let! s := get_sofa self in
  let! sofa := get sofas_ s in
  ret (Sofa.sofaURI sofa).

(** [get_covered_text]: [sofa.sofaString[annotation.begin : annotation.end]]
    (the decorator only emits a deprecation warning).  The operands are
    evaluated from left to right: the Sofa's text, the two offsets (an
    [AttributeError] when the annotation lacks one), then the subscript.
    [None] is not subscriptable; a string and a list are sliced; the other
    JSON values raise [TypeError] as well (a dict because a slice is not
    hashable).  A byte string, which nothing in the two modules stores in
    [sofaString], is outside the model. *)
Definition get_covered_text (self : t) (annotation : FeatureStructure.t) : M value :=
  let! s := get_sofa self in
  let! sofa := get sofas_ s in
  match FeatureStructure.begin annotation with
  | None => raise AttributeError
  | Some b =>
      match FeatureStructure.end_ annotation with
      | None => raise AttributeError
      | Some e =>
          match Sofa.sofaString sofa with
          | VStr text => ret (VStr (str_slice text b e))
          | VList l => ret (VList (py_slice l b e))
          | _ => raise TypeError
          end
      end
  end.
End Cas.


(** ** [cassis/json.py]

    [json.py] is written against a later revision of [Cas] than the
    [cas.py] above: it reads class constants and calls [create_view] with an
    identifier and a sofa number, [add_annotation] with [keep_id=True] and
    [_find_all_fs], none of which that file defines.  These members are
    modelled from the specification, each under a comment that says so; the
    functions of [json.py] itself are translated from the source. *)

Definition RESERVED_FIELD_PREFIX : string := "%".
Definition TYPE_FIELD : string := "%TYPE".
Definition TYPES_FIELD : string := "%TYPES".
Definition VIEWS_FIELD : string := "%VIEWS".
Definition VIEW_SOFA_FIELD : string := "%SOFA".
Definition VIEW_INDEX_FIELD : string := "%INDEX".
Definition FEATURE_STRUCTURES_FIELD : string := "%FEATURE_STRUCTURES".
Definition REF_FEATURE_PREFIX : string := "@".
Definition ID_FIELD : string := "%ID".
Definition ELEMENTS_FIELD : string := "%ELEMENTS".

(** Modelled from the spec: the constants of [Cas] that [json.py] reads, with
    the names UIMA gives to the Sofa type, to its features, to the default
    view (spec section 3) and to the array types. *)
Definition TYPE_NAME_SOFA : string := "uima.cas.Sofa".
Definition TYPE_NAME_BYTE_ARRAY : string := "uima.cas.ByteArray".
Definition TYPE_NAME_ARRAY_BASE : string := "uima.cas.ArrayBase".
Definition NAME_DEFAULT_SOFA : string := "_InitialView".
Definition FEATURE_BASE_NAME_SOFANUM : string := "sofaNum".
Definition FEATURE_BASE_NAME_SOFAID : string := "sofaID".
Definition FEATURE_BASE_NAME_SOFAMIME : string := "mimeType".
Definition FEATURE_BASE_NAME_SOFAARRAY : string := "sofaArray".
Definition FEATURE_BASE_NAME_SOFASTRING : string := "sofaString".
Definition FEATURE_BASE_NAME_SOFAURI : string := "sofaURI".

(** [s.startswith(p)] and [s[1:]]. *)
Definition startswith (p s : string) : bool := String.prefix p s.

Definition tail (s : string) : string :=
  match s with
  | String _ r => r
  | EmptyString => EmptyString
  end.

(** [s[:-1]] *)
Fixpoint drop_last (s : string) : string :=
  match s with
  | EmptyString => EmptyString
  | String c EmptyString => EmptyString
  | String c r => String c (drop_last r)
  end.

(** [d.get(k)] on a Python value: [AttributeError] unless [d] is a dict,
    [None] for a missing key. *)
Definition py_get (d : value) (k : string) : result value :=
  match d with
  | VDict items =>
      match dict_get k items with
      | Some v => Ok v
      | None => Ok VNone
      end
  | _ => Raise AttributeError
  end.

(** An int where Python expects one; a bool is an int there. *)
Definition as_int (v : value) : option Z :=
  match v with
  | VInt z => Some z
  | VBool b => Some (Z.b2z b)
  | _ => None
  end.

(** A dict with int keys: the [feature_structures] table from identifiers to
    the objects built for them. *)
Definition table := list (Z * obj).

Fixpoint table_get (k : Z) (t : table) : option obj :=
  match t with
  | [] => None
  | (k', o) :: t' => if k =? k' then Some o else table_get k t'
  end.

Fixpoint table_set (k : Z) (o : obj) (t : table) : table :=
  match t with
  | [] => [(k, o)]
  | (k', o') :: t' => if k =? k' then (k, o) :: t' else (k', o') :: table_set k o t'
  end.

(** [feature_structures.get(v)]: an int (or bool) is looked up; a list or a
    dict is unhashable and raises [TypeError], as does a [Sofa], whose class
    is an attrs class with value equality ([cas.py], line 31); anything else
    is a key the table does not have.  That includes a feature structure:
    its class hashes an instance by the identifier it carries, and no
    instance is equal to an int. *)
Definition table_lookup (t : table) (v : value) : result (option obj) :=
  match v with
  | VInt _ | VBool _ =>
      match as_int v with
      | Some z => Ok (table_get z t)
      | None => Ok None
      end
  | VList _ | VDict _ | VObj (OSofa _) => Raise TypeError
  | VNone | VStr _ | VBytes _ | VObj (OFs _) => Ok None
  end.

(** [feature_structures[v]] *)
Definition subscript (t : table) (v : value) : result obj :=
  match table_lookup t v with
  | Raise e => Raise e
  | Ok (Some o) => Ok o
  | Ok None => Raise KeyError
  end.

(** The value of an optional object. *)
Definition opt_obj (o : option obj) : value :=
  match o with
  | Some x => VObj x
  | None => VNone
  end.

(** [int(s)] for the string keys of the mapping form of the records
    section: an optional sign and decimal digits; [ValueError] ([None] here)
    otherwise.  Python also accepts surrounding blanks and underscores
    between digits, which identifiers written by a serializer do not have. *)
Fixpoint digits (s : string) (acc : Z) : option Z :=
  match s with
  | EmptyString => Some acc
  | String c r =>
      let n := Ascii.nat_of_ascii c in
      if ((48 <=? n)%nat && (n <=? 57)%nat)%bool
      then digits r (10 * acc + Z.of_nat (n - 48))
      else None
  end.

Definition py_int (s : string) : option Z :=
  match s with
  | EmptyString => None
  | String "-"%char (String c r) => option_map Z.opp (digits (String c r) 0)
  | String "+"%char (String c r) => digits (String c r) 0
  | _ => digits s 0
  end.

(** Lift a pure outcome into the store monad. *)
Definition lift {A} (r : result A) : M A :=
  match r with
  | Ok a => ret a
  | Raise e => raise e
  end.

(** *** The members of [Cas] that [json.py] expects *)

(** Modelled from the spec: [create_view] with the identifier and the sofa
    number the caller supplies (spec section 4.5, step 1: the Sofa record
    carries them); each is allocated as in [_add_view] when the caller gives
    [None].  The duplicate check is the one of [create_view]. *)
Definition create_view_with (self : Cas.t) (name : string)
    (xmiID sofaNum : option Z) : M Cas.t :=
  let! vs := get view_dicts_ (Cas._views self) in
  if dict_contains name vs then raise ValueError
  else
    let! xmi := match xmiID with
                | Some x => ret x
                | None => Cas._get_next_xmi_id self
                end in
    let! num := match sofaNum with
                | Some n => ret n
                | None => Cas._get_next_sofa_num self
                end in
    let! sofa := new sofas_ (Sofa.mk num xmi name VNone VNone VNone VNone) in
    let! view := new views_ (View.mk sofa []) in
    let! vs := get view_dicts_ (Cas._views self) in
    run! put view_dicts_ (Cas._views self) (dict_set name view vs) in
    let! ss := get sofa_dicts_ (Cas._sofas self) in
    run! put sofa_dicts_ (Cas._sofas self) (dict_set name sofa ss) in
    Cas.get_view self name.

(** Modelled from the spec: [add_annotation] in its keep-existing-identifier
    mode (spec section 4.3), which [_parse_view] asks for with
    [keep_id=True]: the structure keeps the identifier it carries; the Sofa
    is attached and the index extended as in [Cas.add_annotation]. *)
Definition add_annotation_keep_id (self : Cas.t) (annotation : addr) : M unit :=
  let! a := get structures_ annotation in
  run! (if FeatureStructure.hasattr a "sofa" then
          let! s := Cas.get_sofa self in
          modify structures_ annotation
            (FeatureStructure.set_feature "sofa" (VObj (OSofa s)))
        else ret tt) in
  add_annotation_to_index (Cas._current_view self) annotation.

(** Modelled from the spec: the setter of [sofa_array], which, like the
    other three setters, writes the field of the current view's Sofa. *)
Definition set_sofa_array (self : Cas.t) (v : value) : M unit :=
  let! s := Cas.get_sofa self in modify sofas_ s (Sofa.set_sofaArray v).

(** Modelled from the spec: whether the type declares a feature of that
    name (used by the factory [new_instance] below). *)
Definition declares (ty : TypeSystem.Type_) (n : string) : bool :=
  existsb (fun f => String.eqb (TypeSystem.name f) n) (TypeSystem.all_features ty).

(** Modelled from the spec: one of the two offsets of a new instance of the
    factory [new_instance]: the int given for it; no slot
    when the type does not declare the feature and none is given.  An offset
    that is given but is not an int, or declared but not given (and so left
    at [None]), is outside the data model (spec section 3: integer offsets)
    and is a [TypeError] here; Python raises it when the sort key is first
    compared. *)
Definition offset (ty : TypeSystem.Type_) (attributes : dict value) (n : string)
    : result (option Z) :=
  match dict_get n attributes with
  | Some (VInt z) => Ok (Some z)
  | Some _ => Raise TypeError
  | None => if declares ty n then Raise TypeError else Ok None
  end.

(** Modelled from the spec: the names that are not kept among the
    [features] of an instance (they are fields of their own). *)
Definition slot_names_skipped (n : string) : bool :=
  str_in n ["xmiID"; "type"; "begin"; "end"].

(** Modelled from the spec: the slots a new instance starts with, one per
    declared feature other than the identifier, the type and the offsets,
    each at [None]. *)
Definition default_slots (ty : TypeSystem.Type_) : dict value :=
  map (fun f => (TypeSystem.name f, VNone))
    (List.filter (fun f => negb (slot_names_skipped (TypeSystem.name f)))
       (TypeSystem.all_features ty)).

(** Modelled from the spec: the attributes given are then assigned to the
    slots, in the order of the mapping. *)
Fixpoint assign_slots (attributes : dict value) (slots : dict value) : dict value :=
  match attributes with
  | [] => slots
  | (n, v) :: rest =>
      assign_slots rest (if slot_names_skipped n then slots else dict_set n v slots)
  end.

(** Modelled from the spec: the call of [AnnotationType] on the keyword
    arguments [**attributes], that is the factory of
    spec section 9 that builds a record of the given type from a mapping of
    feature names to values (spec section 4.5: every field is assigned
    directly).  The keyword arguments are copied into the new instance: the
    instance does not hold the [attributes] dict. *)
Definition new_instance (ty : TypeSystem.Type_) (attributes : dict value)
    : result FeatureStructure.t :=
  match dict_get "xmiID" attributes with
  | Some id =>
      match as_int id with
      | Some x =>
          match offset ty attributes "begin", offset ty attributes "end" with
          | Ok b, Ok e =>
              Ok (FeatureStructure.mk (Some x) (TypeSystem.type_name ty) b e
                    (assign_slots attributes (default_slots ty)))
          | Raise err, _ => Raise err
          | _, Raise err => Raise err
          end
      | None => Raise TypeError
      end
  | None => Raise TypeError
  end.

(** [v == s] for a string [s]. *)
Definition is_str (v : value) (s : string) : bool :=
  match v with
  | VStr s' => String.eqb s' s
  | _ => false
  end.

(** [d[k]] on a Python value and a string key. *)
Definition py_subscript (d : value) (k : string) : result value :=
  match d with
  | VDict items =>
      match dict_get k items with
      | Some v => Ok v
      | None => Raise KeyError
      end
  | _ => Raise TypeError
  end.

(** The values a [for] loop draws from a Python value: the elements of a
    list, the keys of a dict, the characters of a string. *)
Fixpoint chars (s : string) : list value :=
  match s with
  | EmptyString => []
  | String c r => VStr (String c EmptyString) :: chars r
  end.

Definition py_iter (v : value) : result (list value) :=
  match v with
  | VList l => Ok l
  | VDict d => Ok (map (fun kv => VStr (fst kv)) d)
  | VStr s => Ok (chars s)
  | _ => Raise TypeError
  end.

Module CasJsonDeserializer.
(** A deferred fix-up.  [fix_up] is a closure over the variables
    [attributes], [feature_name], [value] and [feature_structures] of the
    call of [_resolve_references] that defines it.  Python closures hold
    variables, not values: every [fix_up] of one call shares that call's
    [feature_name] and [value], and reads them when it runs, after the
    loop has ended.  A fix-up is therefore given by the [attributes] dict
    it writes to and by what the two variables held when the loop ended. *)
Record fix_up := mkFixUp {
  fix_attributes : addr;
  fix_feature_name : string;
  fix_value : value
}.

(** The deserializer's three fields, followed by the two things of a run
    of [deserialize] that outlive the calls they are passed to: the
    [feature_structures] table and the [attributes] dicts, one per parsed
    record, which the fix-ups keep alive. *)
Record t := mk {
  _max_xmi_id : Z;
  _max_sofa_num : Z;
  _post_processors : list fix_up;
  feature_structures : table;
  attribute_dicts : list (dict value)
}.

Definition __init__ : t := mk 0 0 [] [] [].

Definition with_table (tb : table) (self : t) : t :=
  mk (_max_xmi_id self) (_max_sofa_num self) (_post_processors self) tb
     (attribute_dicts self).

(** [_get_or_create_view].  A view name that is not a string, or an
    identifier or sofa number that is neither [None] nor an int, fails the
    validators of the Sofa constructor; the model raises the [TypeError]
    also where the default view's Sofa is assigned its identifier without
    a check. *)
Definition _get_or_create_view (cas : Cas.t) (view_name fs_id sofa_num : value)
    : M Cas.t :=
  match view_name with
  | VStr name =>
      if String.eqb name NAME_DEFAULT_SOFA then
        let! view := Cas.get_view cas NAME_DEFAULT_SOFA in
        (* We need to make sure that the sofa gets the real xmi, see #155 *)
        run! (match fs_id with
              | VNone => ret tt
              | _ =>
                  match as_int fs_id with
                  | Some id =>
                      let! s := Cas.get_sofa view in
                      modify sofas_ s (Sofa.set_xmiID id)
                  | None => raise TypeError
                  end
              end) in
        ret view
      else
        match fs_id, sofa_num with
        | VNone, VNone => create_view_with cas name None None
        | VNone, _ =>
            match as_int sofa_num with
            | Some n => create_view_with cas name None (Some n)
            | None => raise TypeError
            end
        | _, VNone =>
            match as_int fs_id with
            | Some x => create_view_with cas name (Some x) None
            | None => raise TypeError
            end
        | _, _ =>
            match as_int fs_id, as_int sofa_num with
            | Some x, Some n => create_view_with cas name (Some x) (Some n)
            | _, _ => raise TypeError
            end
        end
  | _ => raise TypeError
  end.

Definition _parse_view (self : t) (cas : Cas.t) (view_name : string)
    (json_view : value) : M unit :=
  let! view := _get_or_create_view cas (VStr view_name) VNone VNone in
  let! index := lift (py_subscript json_view VIEW_INDEX_FIELD) in
  let! members := lift (py_iter index) in
  for_each members
    (fun member_id =>
       let! fs := lift (subscript (feature_structures self) member_id) in
       match fs with
       | OFs a => add_annotation_keep_id view a
       | OSofa _ => raise AttributeError   (* a Sofa has no [type] *)
       end).

Definition _parse_sofa (self : t) (cas : Cas.t) (fs_id : value) (json_fs : value)
    : M addr :=
  let! name := lift (py_get json_fs FEATURE_BASE_NAME_SOFAID) in
  let! num := lift (py_get json_fs FEATURE_BASE_NAME_SOFANUM) in
  let! view := _get_or_create_view cas name fs_id num in
  let! text := lift (py_get json_fs FEATURE_BASE_NAME_SOFASTRING) in
  run! Cas.set_sofa_string view text in
  let! mime := lift (py_get json_fs FEATURE_BASE_NAME_SOFAMIME) in
  run! Cas.set_sofa_mime view mime in
  let! uri := lift (py_get json_fs FEATURE_BASE_NAME_SOFAURI) in
  run! Cas.set_sofa_uri view uri in
  let! array_id :=
    lift (py_get json_fs (REF_FEATURE_PREFIX ++ FEATURE_BASE_NAME_SOFAARRAY)%string) in
  let! array := lift (table_lookup (feature_structures self) array_id) in
  run! set_sofa_array view (opt_obj array) in
  Cas.get_sofa view.

(** The variables of one call of [_resolve_references]: the dict, the two
    variables the fix-ups close over, and how many fix-ups the call has
    appended so far. *)
Record frame := mkFrame {
  attributes : dict value;
  feature_name : option string;
  value_ : option value;
  appended : nat
}.

(** The loop of [_resolve_references] over the items the dict had when the
    loop started. *)
Fixpoint resolve_loop (items : list (string * value)) (tb : table) (fr : frame)
    : result frame :=
  match items with
  | [] => Ok fr
  | (key, value) :: rest =>
      if startswith REF_FEATURE_PREFIX key then
        let attrs := dict_pop key (attributes fr) in
        let name := tail key in
        match table_lookup tb value with
        | Raise e => Raise e
        | Ok (Some target_fs) =>
            (* Resolve id-ref now (an object is true) *)
            resolve_loop rest tb
              (mkFrame (dict_set name (VObj target_fs) attrs) (Some name)
                 (Some value) (appended fr))
        | Ok None =>
            (* Resolve id-ref at the end of processing *)
            resolve_loop rest tb
              (mkFrame attrs (Some name) (Some value) (S (appended fr)))
        end
      else
        resolve_loop rest tb
          (mkFrame (attributes fr) (feature_name fr) (Some value) (appended fr))
  end.

(** [_resolve_references] on the dict that will be stored at [dict_addr]:
    the dict afterwards and the fix-ups appended. *)
Definition _resolve_references (self : t) (dict_addr : addr) (attrs : dict value)
    : result (dict value * list fix_up) :=
  match resolve_loop attrs (feature_structures self) (mkFrame attrs None None 0%nat) with
  | Raise e => Raise e
  | Ok fr =>
      match feature_name fr, value_ fr with
      | Some name, Some v =>
          Ok (attributes fr, repeat (mkFixUp dict_addr name v) (appended fr))
      | _, _ => Ok (attributes fr, [])
      end
  end.

Definition _strip_reserved_json_keys (attrs : dict value) : dict value :=
  List.filter (fun kv => negb (startswith RESERVED_FIELD_PREFIX (fst kv))) attrs.

(** The loop of [_strip_reserved_json_keys] as the source writes it, over
    the keys the dict had when the loop started:
    [if key.startswith(RESERVED_FIELD_PREFIX): attributes.pop(key)]. *)
Fixpoint strip_loop (keys : list string) (attributes : dict value) : dict value :=
  match keys with
  | [] => attributes
  | key :: rest =>
      strip_loop rest
        (if startswith RESERVED_FIELD_PREFIX key then dict_pop key attributes
         else attributes)
  end.

(** [attributes[new] = attributes.pop(old)] when [old] is a key. *)
Definition rename_key (old new : string) (attrs : dict value) : dict value :=
  match dict_get old attrs with
  | Some v => dict_set new v (dict_pop old attrs)
  | None => attrs
  end.

Definition _parse_feature_structure (self : t) (typesystem : TypeSystem.t)
    (fs_id : value) (json_fs : dict value) : M (addr * t) :=
  match dict_get TYPE_FIELD json_fs with
  | Some (VStr type_name) =>
      match TypeSystem.get_type typesystem type_name with
      | None => raise TypeNotFoundError
      | Some AnnotationType =>
          let attrs := json_fs in
          (* Map the JSON FS ID to xmiID *)
          let attrs := dict_set "xmiID" fs_id attrs in
          (* Remap features that use a reserved Python name *)
          let attrs := rename_key "self" "self_" attrs in
          let attrs := rename_key "type" "type_" attrs in
          let! attrs :=
            (if String.eqb (TypeSystem.type_name AnnotationType) TYPE_NAME_BYTE_ARRAY then
               match dict_get ELEMENTS_FIELD attrs with
               | Some (VStr s) => ret (dict_set "elements" (VBytes s) attrs)
               | _ => raise TypeError
               end
             else ret attrs) in
          let dict_addr := length (attribute_dicts self) in
          let! resolved := lift (_resolve_references self dict_addr attrs) in
          let attrs := _strip_reserved_json_keys (fst resolved) in
          let! max_id :=
            (match dict_get "xmiID" attrs with
             | Some id =>
                 match as_int id with
                 | Some x => ret (Z.max x (_max_xmi_id self))
                 | None => raise TypeError
                 end
             | None => raise KeyError
             end) in
          let! fs := lift (new_instance AnnotationType attrs) in
          let! a := new structures_ fs in
          ret (a, mk max_id (_max_sofa_num self)
                   (_post_processors self ++ snd resolved)
                   (feature_structures self)
                   (attribute_dicts self ++ [attrs]))
      end
  | _ => raise TypeNotFoundError   (* not a string: no type of that name *)
  end.

(** The body of the two loops over the records: a Sofa record goes to
    [_parse_sofa], any other to [_parse_feature_structure], and the object
    built is entered in the table under its identifier. *)
Definition parse_record (self : t) (cas : Cas.t) (typesystem : TypeSystem.t)
    (fs_id : value) (json_fs : value) : M t :=
  match json_fs with
  | VDict items =>
      if (match dict_get TYPE_FIELD items with
          | Some ty => is_str ty TYPE_NAME_SOFA
          | None => false
          end) then
        let! s := _parse_sofa self cas fs_id json_fs in
        let! sofa := get sofas_ s in
        ret (with_table (table_set (Sofa.xmiID sofa) (OSofa s) (feature_structures self)) self)
      else
        let! parsed := _parse_feature_structure self typesystem fs_id items in
        let! fs := get structures_ (fst parsed) in
        match FeatureStructure.xmiID fs with
        | Some x =>
            ret (with_table
                   (table_set x (OFs (fst parsed)) (feature_structures (snd parsed)))
                   (snd parsed))
        | None => raise TypeError
        end
  | _ => raise AttributeError
  end.

(** [for json_fs in json_feature_structures], sequence form: the
    identifier is the record's [%ID]. *)
Fixpoint parse_list (self : t) (cas : Cas.t) (typesystem : TypeSystem.t)
    (records : list value) : M t :=
  match records with
  | [] => ret self
  | json_fs :: rest =>
      let! fs_id := lift (py_get json_fs ID_FIELD) in
      let! self := parse_record self cas typesystem fs_id json_fs in
      parse_list self cas typesystem rest
  end.

(** [for fs_id, json_fs in json_feature_structures.items()], mapping form:
    the identifier is [int(fs_id)]. *)
Fixpoint parse_items (self : t) (cas : Cas.t) (typesystem : TypeSystem.t)
    (records : list (string * value)) : M t :=
  match records with
  | [] => ret self
  | (fs_id, json_fs) :: rest =>
      run! lift (py_get json_fs TYPE_FIELD) in
      match py_int fs_id with
      | None => raise ValueError
      | Some id =>
          let! self := parse_record self cas typesystem (VInt id) json_fs in
          parse_items self cas typesystem rest
      end
  end.

(** One call of a fix-up:
    [attributes[feature_name] = feature_structures.get(value)]. *)
Definition run_fix_up (self : t) (f : fix_up) : result t :=
  match table_lookup (feature_structures self) (fix_value f) with
  | Raise e => Raise e
  | Ok target =>
      match attribute_dicts self !! fix_attributes f with
      | Some attrs =>
          Ok (mk (_max_xmi_id self) (_max_sofa_num self) (_post_processors self)
                (feature_structures self)
                (<[fix_attributes f :=
                     dict_set (fix_feature_name f) (opt_obj target) attrs]>
                   (attribute_dicts self)))
      | None => Raise BadAddress
      end
  end.

Fixpoint run_post_processors (self : t) (fs : list fix_up) : result t :=
  match fs with
  | [] => Ok self
  | f :: rest =>
      match run_fix_up self f with
      | Raise e => Raise e
      | Ok self' => run_post_processors self' rest
      end
  end.

Fixpoint parse_views (self : t) (cas : Cas.t) (json_views : list (string * value))
    : M unit :=
  match json_views with
  | [] => ret tt
  | (view_name, json_view) :: rest =>
      run! _parse_view self cas view_name json_view in
      parse_views self cas rest
  end.

(** [deserialize], from the value [json.loads] returns for the source.
    Besides the document handle, the model returns the deserializer as the
    run leaves it, which holds the identifier table. *)
Definition deserialize (data : value) (typesystem : TypeSystem.t) : M (Cas.t * t) :=
  let self := __init__ in
  run! lift (py_get data TYPES_FIELD) in  (* FIXME *)
  let! cas := Cas.__init__ typesystem in
  let! json_feature_structures := lift (py_get data FEATURE_STRUCTURES_FIELD) in
  let! self :=
    (match json_feature_structures with
     | VList records => parse_list self cas typesystem records
     | VDict records => parse_items self cas typesystem records
     | _ => ret self
     end) in
  let! self := lift (run_post_processors self (_post_processors self)) in
  let! xmi_gen := new generators_ (IdGenerator.__init__ (_max_xmi_id self + 1)) in
  let! num_gen := new generators_ (IdGenerator.__init__ (_max_sofa_num self + 1)) in
  let cas :=
    Cas.mk (Cas._typesystem cas) (Cas._sofas cas) (Cas._views cas)
      xmi_gen num_gen (Cas._current_view cas) in
  (* At this point all views for which we have a sofa with a known ID and
     sofaNum have already been created as part of parsing the feature
     structures. *)
  let! json_views := lift (py_get data VIEWS_FIELD) in
  match json_views with
  | VDict views =>
      run! parse_views self cas views in
      ret (cas, self)
  | _ => raise AttributeError
  end.
End CasJsonDeserializer.

(** [load_cas_from_json], with the type system the caller passes (an empty
    one is built by the caller's default). *)
Definition load_cas_from_json (source : value) (typesystem : TypeSystem.t)
    : M (Cas.t * CasJsonDeserializer.t) :=
  CasJsonDeserializer.deserialize source typesystem.

(** [sorted] on ints: insertion sort, stable. *)
Fixpoint insert_sorted (x : Z) (l : list Z) : list Z :=
  match l with
  | [] => [x]
  | y :: l' => if x <? y then x :: y :: l' else y :: insert_sorted x l'
  end.

Definition sorted_ints (l : list Z) : list Z := fold_right insert_sorted [] l.

(** The same on structures by identifier, for
    [sorted(..., key=lambda a: a.xmiID)]. *)
Fixpoint insert_by_id (x : Z * addr) (l : list (Z * addr)) : list (Z * addr) :=
  match l with
  | [] => [x]
  | y :: l' => if fst x <? fst y then x :: y :: l' else y :: insert_by_id x l'
  end.

Definition sorted_by_id (l : list (Z * addr)) : list (Z * addr) :=
  fold_right insert_by_id [] l.

(** [[f x for x in l]] where [f] may raise. *)
Fixpoint map_result {A B} (f : A -> result B) (l : list A) : result (list B) :=
  match l with
  | [] => Ok []
  | x :: l' =>
      match f x with
      | Raise e => Raise e
      | Ok y =>
          match map_result f l' with
          | Raise e => Raise e
          | Ok ys => Ok (y :: ys)
          end
      end
  end.

(** [getattr(o, n)] on an object of the store.  For a Sofa the attributes
    are the fields of [cas.py] and, modelled from the spec, [sofaArray]
    (spec section 3) and [type], the Sofa type name (spec section 4.4: the
    Sofa is emitted as a feature-structure record). *)
Definition getattr (h : heap) (o : obj) (n : string) : result value :=
  match o with
  | OFs a =>
      match sel structures_ h !! a with
      | None => Raise BadAddress
      | Some fs =>
          if String.eqb n "xmiID" then
            Ok (match FeatureStructure.xmiID fs with Some x => VInt x | None => VNone end)
          else if String.eqb n "type" then Ok (VStr (FeatureStructure.type fs))
          else if String.eqb n "begin" then
            match FeatureStructure.begin fs with
            | Some b => Ok (VInt b)
            | None => Raise AttributeError
            end
          else if String.eqb n "end" then
            match FeatureStructure.end_ fs with
            | Some e => Ok (VInt e)
            | None => Raise AttributeError
            end
          else
            match dict_get n (FeatureStructure.features fs) with
            | Some v => Ok v
            | None => Raise AttributeError
            end
      end
  | OSofa a =>
      match sel sofas_ h !! a with
      | None => Raise BadAddress
      | Some s =>
          if String.eqb n "xmiID" then Ok (VInt (Sofa.xmiID s))
          else if String.eqb n "type" then Ok (VStr TYPE_NAME_SOFA)
          else if String.eqb n "sofaNum" then Ok (VInt (Sofa.sofaNum s))
          else if String.eqb n "sofaID" then Ok (VStr (Sofa.sofaID s))
          else if String.eqb n "sofaString" then Ok (Sofa.sofaString s)
          else if String.eqb n "mimeType" then Ok (Sofa.mimeType s)
          else if String.eqb n "sofaURI" then Ok (Sofa.sofaURI s)
          else if String.eqb n "sofaArray" then Ok (Sofa.sofaArray s)
          else Raise AttributeError
      end
  end.

(** [v.xmiID] for a feature value: only an object has the attribute. *)
Definition xmiID_of (h : heap) (v : value) : result value :=
  match v with
  | VObj o => getattr h o "xmiID"
  | _ => Raise AttributeError
  end.

(** The feature structures a value refers to. *)
Fixpoint refs_of_value (v : value) : list addr :=
  match v with
  | VObj (OFs a) => [a]
  | VList l =>
      (fix go (l : list value) : list addr :=
         match l with
         | [] => []
         | x :: r => refs_of_value x ++ go r
         end) l
  | _ => []
  end.

Definition refs_of (fs : FeatureStructure.t) : list addr :=
  flat_map (fun kv => refs_of_value (snd kv)) (FeatureStructure.features fs).

Definition nat_in (a : addr) (l : list addr) : bool := existsb (Nat.eqb a) l.

(** Modelled from the spec: the walk of [_find_all_fs] over the structures
    a document reaches, breadth first, each structure once.  [fuel] bounds
    the number of steps. *)
Fixpoint walk (fuel : nat) (h : heap) (openlist seen : list addr) : list addr :=
  match fuel with
  | O => seen
  | S n =>
      match openlist with
      | [] => seen
      | a :: rest =>
          if nat_in a seen then walk n h rest seen
          else
            match sel structures_ h !! a with
            | Some fs => walk n h (rest ++ refs_of fs) (seen ++ [a])
            | None => walk n h rest seen
            end
      end
  end.

(** Modelled from the spec: [_find_all_fs], the "all feature structures" set
    of spec section 4.4: the structures in the index of some view and the
    structures they refer to, directly or not.  The fuel given to the walk
    covers one step per indexed structure and one per reference held in the
    store. *)
Definition _find_all_fs (self : Cas.t) (h : heap) : result (list addr) :=
  match sel view_dicts_ h !! Cas._views self with
  | None => Raise BadAddress
  | Some vs =>
      match map_result
              (fun v => match sel views_ h !! v with
                        | Some view => Ok (get_all_annotations view)
                        | None => Raise BadAddress
                        end) (dict_values vs) with
      | Raise e => Raise e
      | Ok indexed =>
          let openlist := concat indexed in
          let fuel :=
            (length openlist +
             list_sum (map (fun fs => length (refs_of fs)) (sel structures_ h)) + 1)%nat in
          Ok (walk fuel h openlist [])
      end
  end.

Module CasJsonSerializer.
Definition _COMMON_FIELD_NAMES : list string := ["xmiID"; "type"].

(** The loop of [_serialize_feature_structure] over the declared features
    of the type [t] of [fs]. *)
Fixpoint serialize_features (h : heap) (ts : TypeSystem.t) (t : TypeSystem.Type_)
    (fs : obj) (fs_type : string) (features : list TypeSystem.Feature)
    (json_fs : dict value) : result (dict value) :=
  match features with
  | [] => Ok json_fs
  | feature :: rest =>
      if str_in (TypeSystem.name feature) _COMMON_FIELD_NAMES then
        serialize_features h ts t fs fs_type rest json_fs
      else
        (* Strip the underscore we added for reserved names *)
        let feature_name :=
          if TypeSystem._has_reserved_name feature
          then drop_last (TypeSystem.name feature)
          else TypeSystem.name feature in
        match getattr h fs (TypeSystem.name feature) with
        | Raise e => Raise e
        | Ok VNone =>
            (* Skip over 'None' features *)
            serialize_features h ts t fs fs_type rest json_fs
        | Ok value =>
            if String.eqb (TypeSystem.type_name t) TYPE_NAME_BYTE_ARRAY
               && String.eqb feature_name "elements" then
              match value with
              | VBytes s =>
                  serialize_features h ts t fs fs_type rest
                    (dict_set ELEMENTS_FIELD (VStr s) json_fs)
              | _ => Raise TypeError
              end
            else if String.eqb (TypeSystem.supertypeName t) TYPE_NAME_ARRAY_BASE
                    && String.eqb feature_name "elements" then
              serialize_features h ts t fs fs_type rest
                (dict_set ELEMENTS_FIELD value json_fs)
            else if TypeSystem.is_primitive ts (TypeSystem.rangeTypeName feature) then
              serialize_features h ts t fs fs_type rest
                (dict_set feature_name value json_fs)
            else if TypeSystem.is_collection ts fs_type feature then
              match xmiID_of h value with
              | Raise e => Raise e
              | Ok id =>
                  serialize_features h ts t fs fs_type rest
                    (dict_set (REF_FEATURE_PREFIX ++ feature_name)%string id json_fs)
              end
            else
              (* We need to encode non-primitive features as a reference *)
              match xmiID_of h value with
              | Raise e => Raise e
              | Ok id =>
                  serialize_features h ts t fs fs_type rest
                    (dict_set (REF_FEATURE_PREFIX ++ feature_name)%string id json_fs)
              end
        end
  end.

Definition _serialize_feature_structure (h : heap) (cas : Cas.t) (fs : obj)
    : result (dict value) :=
  match getattr h fs "xmiID", getattr h fs "type" with
  | Ok id, Ok (VStr fs_type) =>
      let json_fs := [(ID_FIELD, id); (TYPE_FIELD, VStr fs_type)] in
      let ts := Cas._typesystem cas in
      match TypeSystem.get_type ts fs_type with
      | None => Raise TypeNotFoundError
      | Some t =>
          serialize_features h ts t fs fs_type (TypeSystem.all_features t) json_fs
      end
  | Raise e, _ => Raise e
  | _, Raise e => Raise e
  | _, _ => Raise TypeNotFoundError
  end.

(** The identifiers of the structures at the given addresses, for
    [sorted]: comparing [None] with an identifier raises [TypeError] (the
    model raises it for a lone [None] as well). *)
Definition identifiers (h : heap) (l : list addr) : result (list Z) :=
  map_result
    (fun a => match sel structures_ h !! a with
              | Some fs =>
                  match FeatureStructure.xmiID fs with
                  | Some x => Ok x
                  | None => Raise TypeError
                  end
              | None => Raise BadAddress
              end) l.

Definition _serialize_view (h : heap) (view : View.t) : result value :=
  match sel sofas_ h !! View.sofa view with
  | None => Raise BadAddress
  | Some sofa =>
      match identifiers h (get_all_annotations view) with
      | Raise e => Raise e
      | Ok ids =>
          Ok (VDict [(VIEW_SOFA_FIELD, VInt (Sofa.xmiID sofa));
                     (VIEW_INDEX_FIELD, VList (map VInt (sorted_ints ids)))])
      end
  end.

(** The first loop of [serialize], over [cas.views]. *)
Fixpoint serialize_views (h : heap) (cas : Cas.t) (vs : list addr)
    (views : dict value) (feature_structures : list value)
    : result (dict value * list value) :=
  match vs with
  | [] => Ok (views, feature_structures)
  | v :: rest =>
      match sel views_ h !! v with
      | None => Raise BadAddress
      | Some view =>
          match sel sofas_ h !! View.sofa view with
          | None => Raise BadAddress
          | Some sofa =>
              match _serialize_view h view with
              | Raise e => Raise e
              | Ok json_view =>
                  let views := dict_set (Sofa.sofaID sofa) json_view views in
                  match
                    (match Sofa.sofaArray sofa with
                     | VObj array =>
                         match _serialize_feature_structure h cas array with
                         | Raise e => Raise e
                         | Ok json_array => Ok (feature_structures ++ [VDict json_array])
                         end
                     | _ => Ok feature_structures
                     end) with
                  | Raise e => Raise e
                  | Ok feature_structures =>
                      match _serialize_feature_structure h cas (OSofa (View.sofa view)) with
                      | Raise e => Raise e
                      | Ok json_sofa =>
                          serialize_views h cas rest views
                            (feature_structures ++ [VDict json_sofa])
                      end
                  end
              end
          end
      end
  end.

(** [serialize]: the value handed to [json.dump]. *)
Definition serialize (cas : Cas.t) (h : heap) : result value :=
  match sel view_dicts_ h !! Cas._views cas with
  | None => Raise BadAddress
  | Some vs =>
      match serialize_views h cas (dict_values vs) [] [] with
      | Raise e => Raise e
      | Ok (views, feature_structures) =>
          (* Find all fs, even the ones that are not directly added to a sofa *)
          match _find_all_fs cas h with
          | Raise e => Raise e
          | Ok all_fs =>
              match identifiers h all_fs with
              | Raise e => Raise e
              | Ok ids =>
                  match map_result
                          (fun ia => _serialize_feature_structure h cas (OFs (snd ia)))
                          (sorted_by_id (combine ids all_fs)) with
                  | Raise e => Raise e
                  | Ok records =>
                      Ok (VDict [(TYPES_FIELD, VDict []);
                                 (VIEWS_FIELD, VDict views);
                                 (FEATURE_STRUCTURES_FIELD,
                                  VList (feature_structures ++ map VDict records))])
                  end
              end
          end
      end
  end.
End CasJsonSerializer.

(** ** Vocabulary of the statements *)

(** Key order as a proposition. *)
Definition key_le (a b : key) : Prop := key_leb a b = true.

(** Whether the structure at [a] exposes both offsets. *)
Definition positional (structs : list FeatureStructure.t) (a : addr) : bool :=
  match structs !! a with
  | Some fs =>
      match FeatureStructure.begin fs, FeatureStructure.end_ fs with
      | Some _, Some _ => true
      | _, _ => false
      end
  | None => false
  end.

(** Whether the structure at [a] has type [T] and sort key [q]. *)
Definition is_entry (structs : list FeatureStructure.t) (T : string) (q : key)
    (a : addr) : bool :=
  match structs !! a with
  | Some fs => String.eqb (FeatureStructure.type fs) T && key_eqb (_sort_func fs) q
  | None => false
  end.

(** The entries of a bucket that carry the key [q], in bucket order. *)
Definition with_key (q : key) (l : SortedKeyList.t) : SortedKeyList.t :=
  List.filter (fun e => key_eqb (fst e) q) l.

(** "Every non-positional structure sorts after all positional ones". *)
Definition nonpositional_last (structs : list FeatureStructure.t)
    (bucket : SortedKeyList.t) : Prop :=
  forall (i j : nat) ei ej,
    bucket !! i = Some ei -> bucket !! j = Some ej ->
    positional structs (snd ei) = false ->
    positional structs (snd ej) = true ->
    (j < i)%nat.

(** The same, for the positional structures whose key is below the sentinel
    [(sys.maxsize, sys.maxsize)]. *)
Definition nonpositional_last_below_sentinel (structs : list FeatureStructure.t)
    (bucket : SortedKeyList.t) : Prop :=
  forall (i j : nat) ei ej,
    bucket !! i = Some ei -> bucket !! j = Some ej ->
    positional structs (snd ei) = false ->
    positional structs (snd ej) = true ->
    key_ltb (fst ej) (maxsize, maxsize) = true ->
    (j < i)%nat.

(** A store for the ordering examples: one empty view and four structures
    of type [T], two of them with the same span. *)
Definition order_heap : heap :=
  mkHeap [] [] [View.mk 0%nat []]
    [ FeatureStructure.mk None "T" (Some 4) (Some 9) [];
      FeatureStructure.mk None "T" None None [];
      FeatureStructure.mk None "T" (Some 4) (Some 9) [];
      FeatureStructure.mk None "T" (Some 0) (Some 2) [] ]
    [] [].

(** A store whose second structure starts beyond [sys.maxsize]. *)
Definition sentinel_heap : heap :=
  mkHeap [] [] [View.mk 0%nat []]
    [ FeatureStructure.mk None "T" None None [];
      FeatureStructure.mk None "T" (Some (2 ^ 63)) (Some (2 ^ 63)) [] ]
    [] [].

(** Span containment, read off the store: the structure at [a] lies within
    [[c_begin, c_end]], respectively contains it. *)
Definition covered (structs : list FeatureStructure.t) (c_begin c_end : Z)
    (a : addr) : bool :=
  match structs !! a with
  | Some fs =>
      match FeatureStructure.begin fs, FeatureStructure.end_ fs with
      | Some b, Some e => (c_begin <=? b) && (e <=? c_end)
      | _, _ => false
      end
  | None => false
  end.

Definition covering (structs : list FeatureStructure.t) (c_begin c_end : Z)
    (a : addr) : bool :=
  match structs !! a with
  | Some fs =>
      match FeatureStructure.begin fs, FeatureStructure.end_ fs with
      | Some b, Some e => (b <=? c_begin) && (c_end <=? e)
      | _, _ => false
      end
  | None => false
  end.

(** An annotation as the type system builds it before it is added: no
    identifier yet, both offsets, an empty [sofa] slot. *)
Definition annotation (ty : string) (b e : Z) : FeatureStructure.t :=
  FeatureStructure.mk None ty (Some b) (Some e) [("sofa", VNone)].

(** A structure without offsets. *)
Definition plain (ty : string) : FeatureStructure.t :=
  FeatureStructure.mk None ty None None [].

(** A small type system: [Top] with the children [Span] and [Meta]. *)
Definition span_ts : TypeSystem.t :=
  TypeSystem.mk
    [ TypeSystem.mkType "Top" "" ["Span"; "Meta"] [];
      TypeSystem.mkType "Span" "Top" [] [];
      TypeSystem.mkType "Meta" "Top" [] [];
      TypeSystem.mkType "Anchor" "Top" [] [] ]
    (fun _ => true) (fun _ _ => false).

(** A document with the spans [[0,1)] and [[0,2)]. *)
Definition prefix_doc : M Cas.t :=
  let! cas := Cas.__init__ span_ts in
  let! a := new structures_ (annotation "Span" 0 1) in
  let! b := new structures_ (annotation "Span" 0 2) in
  run! Cas.add_annotations cas [a; b] in
  ret cas.

(** The document of the containment example of spec section 8:
    A = [0,10) of type [Anchor], B = [2,5) and C = [2,11) of type [Span]. *)
Definition abc_doc : M Cas.t :=
  let! cas := Cas.__init__ span_ts in
  let! a := new structures_ (annotation "Anchor" 0 10) in
  let! b := new structures_ (annotation "Span" 2 5) in
  let! c := new structures_ (annotation "Span" 2 11) in
  run! Cas.add_annotations cas [a; b; c] in
  ret cas.

(** The same three spans with B as the anchor's type: A and C are [Span]s. *)
Definition acb_doc : M Cas.t :=
  let! cas := Cas.__init__ span_ts in
  let! a := new structures_ (annotation "Span" 0 10) in
  let! b := new structures_ (annotation "Anchor" 2 5) in
  let! c := new structures_ (annotation "Span" 2 11) in
  run! Cas.add_annotations cas [a; b; c] in
  ret cas.

(** A document with a span and a structure without offsets. *)
Definition mixed_doc : M Cas.t :=
  let! cas := Cas.__init__ span_ts in
  let! a := new structures_ (annotation "Span" 0 10) in
  let! m := new structures_ (plain "Meta") in
  run! Cas.add_annotations cas [a; m] in
  ret cas.

(** The addresses of a handle all lead to objects of the store. *)
Definition valid_handle (h : heap) (self : Cas.t) : Prop :=
  is_Some (sel generators_ h !! Cas._xmi_id_generator self) /\
  is_Some (sel generators_ h !! Cas._sofa_num_generator self) /\
  is_Some (sel view_dicts_ h !! Cas._views self) /\
  is_Some (sel sofa_dicts_ h !! Cas._sofas self) /\
  is_Some (sel views_ h !! Cas._current_view self).

(** [name in self._views] *)
Definition registered (h : heap) (self : Cas.t) (name : string) : bool :=
  match sel view_dicts_ h !! Cas._views self with
  | Some vs => dict_contains name vs
  | None => false
  end.

(** A fresh document with a second view [X], and a handle on it. *)
Definition two_view_doc : M Cas.t :=
  let! cas := Cas.__init__ span_ts in
  run! Cas.create_view cas "X" in
  ret cas.

Definition two_view_heap : heap := Eval vm_compute in snd (two_view_doc empty_heap).

Definition two_view_cas : Cas.t :=
  Cas.mk span_ts 0%nat 0%nat 0%nat 1%nat 0%nat.

(** Two handles on the same document: same type system, same two
    dictionaries, same two allocators.  Only the current view may differ. *)
Definition same_document (c d : Cas.t) : Prop :=
  Cas._typesystem c = Cas._typesystem d /\
  Cas._views c = Cas._views d /\
  Cas._sofas c = Cas._sofas d /\
  Cas._xmi_id_generator c = Cas._xmi_id_generator d /\
  Cas._sofa_num_generator c = Cas._sofa_num_generator d.

(** [h'] holds every object of [h], unchanged, and possibly new ones. *)
Definition extends (h h' : heap) : Prop :=
  sel generators_ h `prefix_of` sel generators_ h' /\
  sel sofas_ h `prefix_of` sel sofas_ h' /\
  sel views_ h `prefix_of` sel views_ h' /\
  sel structures_ h `prefix_of` sel structures_ h' /\
  sel view_dicts_ h `prefix_of` sel view_dicts_ h' /\
  sel sofa_dicts_ h `prefix_of` sel sofa_dicts_ h'.

(** The current view of [c] is registered under [n]. *)
Definition current_view_name (g : heap) (c : Cas.t) (n : string) : Prop :=
  exists vs : dict addr,
    sel view_dicts_ g !! Cas._views c = Some vs /\
    dict_get n vs = Some (Cas._current_view c).

(** What is done through the handle [c] is observed through the handle [d]:
    an identifier or a sofa number consumed through [c] is not issued again
    through [d]; a view created through [c] is found through [d]; a structure
    added through [c] is in the view that [d] finds under the name of [c]'s
    current view. *)
Definition observes (c d : Cas.t) : Prop :=
  (forall g i g',
     Cas._get_next_xmi_id c g = (Ok i, g') ->
     exists g'', Cas._get_next_xmi_id d g' = (Ok (i + 1), g'')) /\
  (forall g i g',
     Cas._get_next_sofa_num c g = (Ok i, g') ->
     exists g'', Cas._get_next_sofa_num d g' = (Ok (i + 1), g'')) /\
  (forall g n c' g',
     Cas.create_view c n g = (Ok c', g') ->
     exists d' g'', Cas.get_view d n g' = (Ok d', g'') /\
       Cas._current_view d' = Cas._current_view c') /\
  (forall g n a g',
     current_view_name g c n ->
     Cas.add_annotation c a g = (Ok tt, g') ->
     exists d' g'', Cas.get_view d n g' = (Ok d', g'') /\
       In a (fst (Cas.select_all d' g''))).

(** ** Documents and wire inputs of the JSON examples *)

(** A type system with the Sofa type and a type [Node] that has a reference
    feature [next], a string feature [label] and a string-array feature
    named [type], which the implementation keeps as [type_]. *)
Definition json_ts : TypeSystem.t :=
  TypeSystem.mk
    [ TypeSystem.mkType "uima.cas.Sofa" "uima.cas.TOP" []
        [ TypeSystem.mkFeature "sofaNum" "uima.cas.Integer" false;
          TypeSystem.mkFeature "sofaID" "uima.cas.String" false;
          TypeSystem.mkFeature "mimeType" "uima.cas.String" false;
          TypeSystem.mkFeature "sofaArray" "uima.cas.TOP" false;
          TypeSystem.mkFeature "sofaString" "uima.cas.String" false;
          TypeSystem.mkFeature "sofaURI" "uima.cas.String" false ];
      TypeSystem.mkType "Node" "uima.cas.TOP" []
        [ TypeSystem.mkFeature "next" "Node" false;
          TypeSystem.mkFeature "label" "uima.cas.String" false;
          TypeSystem.mkFeature "type_" "uima.cas.StringArray" true ] ]
    (fun range =>
       str_in range ["uima.cas.Integer"; "uima.cas.String"; "uima.cas.StringArray"])
    (fun _ _ => false).

Definition node (label : string) (next : value) : FeatureStructure.t :=
  FeatureStructure.mk None "Node" None None
    [("next", next); ("label", VStr label); ("type_", VNone)].

(** A document with two nodes, the first of which refers to the second. *)
Definition linked_doc : M Cas.t :=
  let! cas := Cas.__init__ json_ts in
  let! b := new structures_ (node "b" VNone) in
  let! a := new structures_ (node "a" (VObj (OFs b))) in
  run! Cas.add_annotations cas [a; b] in
  ret cas.

(** The structure of the current view that carries the identifier [id]. *)
Definition structure_by_id (h : heap) (cas : Cas.t) (id : Z)
    : option FeatureStructure.t :=
  match
    List.filter
      (fun fs => match FeatureStructure.xmiID fs with
                 | Some x => x =? id
                 | None => false
                 end)
      (omap (fun a => sel structures_ h !! a) (fst (Cas.select_all cas h)))
  with
  | fs :: _ => Some fs
  | [] => None
  end.

(** The identifier of the structure that the feature [n] of [fs] refers to. *)
Definition reference (h : heap) (fs : FeatureStructure.t) (n : string) : option Z :=
  match dict_get n (FeatureStructure.features fs) with
  | Some (VObj (OFs a)) =>
      match sel structures_ h !! a with
      | Some target => FeatureStructure.xmiID target
      | None => None
      end
  | _ => None
  end.

Definition sofa_record (id num : Z) (name : string) : value :=
  VDict [("%ID", VInt id); ("%TYPE", VStr "uima.cas.Sofa");
         ("sofaNum", VInt num); ("sofaID", VStr name)].

Definition wire (views : list (string * value)) (records : list value) : value :=
  VDict [("%TYPES", VDict []); ("%VIEWS", VDict views);
         ("%FEATURE_STRUCTURES", VList records)].

Definition view_summary (sofa : Z) (index : list Z) : value :=
  VDict [("%SOFA", VInt sofa); ("%INDEX", VList (map VInt index))].


(** The same two records in the other order: a backward reference. *)
Definition backward_wire : value :=
  wire [("_InitialView", view_summary 1 [2; 3])]
    [ sofa_record 1 1 "_InitialView";
      VDict [("%ID", VInt 3); ("%TYPE", VStr "Node")];
      VDict [("%ID", VInt 2); ("%TYPE", VStr "Node"); ("@next", VInt 3)] ].

(** A stream whose Sofa record carries the identifier 7 and the sofa
    number 1, and whose only other record carries the identifier 3. *)
Definition sofa_wire : value :=
  wire [("_InitialView", view_summary 7 [3])]
    [ sofa_record 7 1 "_InitialView";
      VDict [("%ID", VInt 3); ("%TYPE", VStr "Node")] ].

(** A stream whose record 2 refers to an identifier no record has. *)
Definition dangling_wire : value :=
  wire [("_InitialView", view_summary 1 [2])]
    [ sofa_record 1 1 "_InitialView";
      VDict [("%ID", VInt 2); ("%TYPE", VStr "Node"); ("@next", VInt 99)] ].



(** A structure that arrives with the identifier 42, in a fresh document. *)
Definition carried_doc : M (Cas.t * addr) :=
  let! cas := Cas.__init__ span_ts in
  let! a := new structures_
              (FeatureStructure.mk (Some 42) "Span" (Some 0) (Some 4) [("sofa", VNone)]) in
  ret (cas, a).

(** A document with a second view, over the type system of the JSON
    examples. *)
Definition two_sofa_doc : M Cas.t :=
  let! cas := Cas.__init__ json_ts in
  run! Cas.create_view cas "X" in
  ret cas.

(** ** Auxiliary notions of the proofs *)

(** The sortedness of the stored keys, in the form used for induction. *)
Definition sorted (l : SortedKeyList.t) : Prop :=
  StronglySorted key_le (SortedKeyList.keys l).

(** The state of one bucket after the structures of [hist] were added, in
    that order, to a view that started empty. *)
Definition bucket_inv (structs : list FeatureStructure.t) (hist : list addr)
    (T : string) (bucket : SortedKeyList.t) : Prop :=
  sorted bucket /\
  Forall (fun e => exists fs, structs !! snd e = Some fs /\
                     FeatureStructure.type fs = T /\ _sort_func fs = fst e) bucket /\
  forall q, SortedKeyList.values (with_key q bucket) =
            List.filter (is_entry structs T q) hist.

Definition index_inv (h : heap) (v : addr) (hist : list addr) : Prop :=
  exists view, sel views_ h !! v = Some view /\
    forall T, bucket_inv (sel structures_ h) hist T (View.type_index view T).

(** The store and the handle [Cas(typesystem)] produces from the store [h]:
    a dictionary of views and one of sofas, two allocators, the Sofa and the
    view of [_InitialView], all new. *)
Definition init_heap (h : heap) : heap :=
  mkHeap (generators h ++ [IdGenerator.mk 2; IdGenerator.mk 2])
         (sofas h ++ [Sofa.mk 1 1 "_InitialView" VNone VNone VNone VNone])
         (views h ++ [View.mk (length (sofas h)) []])
         (structures h)
         (view_dicts h ++ [[("_InitialView", length (views h))]])
         (sofa_dicts h ++ [[("_InitialView", length (sofas h))]]).

Definition init_handle (ts : TypeSystem.t) (h : heap) : Cas.t :=
  Cas.mk ts (length (sofa_dicts h)) (length (view_dicts h))
    (length (generators h)) (S (length (generators h))) (length (views h)).


(** A handle on the view [X] of [two_view_heap] adds a span; the original
    handle then looks the view up and lists it. *)
Definition alias_run : M (addr * gen addr) :=
  let! x := Cas.get_view two_view_cas "X" in
  let! a := new structures_ (annotation "Span" 3 8) in
  run! Cas.add_annotation x a in
  let! again := Cas.get_view two_view_cas "X" in
  fun h => (Ok (a, Cas.select_all again h), h).

(** ** Vocabulary of the further properties *)

(** [n] successive calls of [generate_id] on the allocator object at [g]. *)
Fixpoint draw (g : addr) (n : nat) : M (list Z) :=
  match n with
  | O => ret []
  | S n' =>
      let! i := call_generate_id g in
      let! rest := draw g n' in
      ret (i :: rest)
  end.

(** The store a successful [add_annotation] of the structure at [a] leaves:
    [gen], [fs] and [view] are the identifier allocator, the structure and
    the current view as the call finds them. *)
Definition added (self : Cas.t) (a : addr) (gen : IdGenerator.t)
    (fs : FeatureStructure.t) (view : View.t) (h : heap) : heap :=
  let fs1 := FeatureStructure.set_xmiID (Some (IdGenerator._next_id gen)) fs in
  let fs2 :=
    if FeatureStructure.hasattr fs1 "sofa"
    then FeatureStructure.set_feature "sofa" (VObj (OSofa (View.sofa view))) fs1
    else fs1 in
  mkHeap
    (<[Cas._xmi_id_generator self := IdGenerator.mk (IdGenerator._next_id gen + 1)]>
       (generators h))
    (sofas h)
    (<[Cas._current_view self :=
         View.mk (View.sofa view)
           (dict_set (FeatureStructure.type fs2)
              (SortedKeyList.add (_sort_func fs2) a
                 (View.type_index view (FeatureStructure.type fs2)))
              (View._indices view))]> (views h))
    (<[a := fs2]> (structures h))
    (view_dicts h) (sofa_dicts h).

(** A document over [span_ts] with the views [_InitialView] and [X], and
    three structures that are not added yet: two spans and a structure
    without offsets. *)
Definition staged_doc : M Cas.t :=
  let! cas := Cas.__init__ span_ts in
  run! Cas.create_view cas "X" in
  run! new structures_ (annotation "Span" 0 4) in
  run! new structures_ (annotation "Span" 5 9) in
  run! new structures_ (plain "Meta") in
  ret cas.

Definition staged_heap : heap := Eval vm_compute in snd (staged_doc empty_heap).

Definition staged_cas : Cas.t := Cas.mk span_ts 0%nat 0%nat 0%nat 1%nat 0%nat.

(** The handle on the view [X] of that document. *)
Definition staged_x : Cas.t := Cas.with_current_view 1%nat staged_cas.

(** The store and the handle of [abc_doc]. *)
Definition abc_heap : heap := Eval vm_compute in snd (abc_doc empty_heap).

Definition abc_cas : Cas.t := Cas.mk span_ts 0%nat 0%nat 0%nat 1%nat 0%nat.

(** The three payload fields of a Sofa, with the setter and the getter
    property of [Cas] for each. *)
Inductive payload := SofaString | SofaMime | SofaUri.

Definition set_payload (p : payload) : Cas.t -> value -> M unit :=
  match p with
  | SofaString => Cas.set_sofa_string
  | SofaMime => Cas.set_sofa_mime
  | SofaUri => Cas.set_sofa_uri
  end.

Definition get_payload (p : payload) : Cas.t -> M value :=
  match p with
  | SofaString => Cas.sofa_string
  | SofaMime => Cas.sofa_mime
  | SofaUri => Cas.sofa_uri
  end.

(** The document of [staged_heap] after the text of its initial view was
    set. *)
Definition text_heap : heap :=
  Eval vm_compute in snd (Cas.set_sofa_string staged_cas (VStr "Hello world") staged_heap).

(** Whether a value can be a dictionary key: a list, a dict and a [Sofa]
    (an instance of an attrs class with value equality) cannot; a number, a
    string, [None] and a feature structure can. *)
Definition hashable (v : value) : bool :=
  match v with
  | VList _ | VDict _ | VObj (OSofa _) => false
  | _ => true
  end.

(** Whether a value is a feature structure. *)
Definition is_structure (v : value) : bool :=
  match v with
  | VObj (OFs _) => true
  | _ => false
  end.

(** Whether an item of a record is a reference ([@name]) whose target is
    not in the identifier table. *)
Definition deferred (tb : table) (kv : string * value) : bool :=
  startswith REF_FEATURE_PREFIX (fst kv) &&
  match table_lookup tb (snd kv) with
  | Ok None => true
  | _ => false
  end.

(** The attributes of a record with two references and a label, and a
    deserializer whose table holds the identifier 3. *)
Definition two_ref_attributes : dict value :=
  [("%ID", VInt 2); ("%TYPE", VStr "Node"); ("@next", VInt 3); ("@prev", VInt 9);
   ("label", VStr "a")].

Definition seen_three : CasJsonDeserializer.t :=
  CasJsonDeserializer.mk 3 0 [] [(3, OFs 0%nat)] [].




(** A record of the records section: a mapping whose first two items are
    [%ID] and [%TYPE]. *)
Definition is_record (r : value) : Prop :=
  exists id ty rest, r = VDict ((ID_FIELD, id) :: (TYPE_FIELD, ty) :: rest).

(** A view summary of the views section: a Sofa identifier and a list of
    member identifiers. *)
Definition is_view_summary (r : value) : Prop :=
  exists sofa members,
    r = VDict [(VIEW_SOFA_FIELD, VInt sofa); (VIEW_INDEX_FIELD, VList (map VInt members))].

(** The store and the handle of [linked_doc]. *)
Definition linked_heap : heap := Eval vm_compute in snd (linked_doc empty_heap).

Definition linked_cas : Cas.t := Cas.mk json_ts 0%nat 0%nat 0%nat 1%nat 0%nat.

(** ** Programs over a document *)

(** What a program does with a document: it builds structures, and it calls
    the methods of [Cas] that change the document, through the handle it
    holds. *)
Inductive operation :=
| NewStructure (fs : FeatureStructure.t)
| CreateView (name : string)
| GetView (name : string)
| AddAnnotation (a : addr)
| SetPayload (p : payload) (v : value).

(** One operation through the handle [c], and the handle the program holds
    afterwards: the one [create_view] or [get_view] returns, [c] otherwise. *)
Definition perform (c : Cas.t) (o : operation) : M Cas.t :=
  match o with
  | NewStructure fs => run! new structures_ fs in ret c
  | CreateView name => Cas.create_view c name
  | GetView name => Cas.get_view c name
  | AddAnnotation a => run! Cas.add_annotation c a in ret c
  | SetPayload p v => run! set_payload p c v in ret c
  end.

(** A program: operations one after the other.  An exception is caught: the
    program goes on with the handle it held, in the store as the exception
    left it. *)
Fixpoint script (c : Cas.t) (ops : list operation) (h : heap) : Cas.t * heap :=
  match ops with
  | [] => (c, h)
  | o :: rest =>
      match perform c o h with
      | (Ok c', h') => script c' rest h'
      | (Raise _, h') => script c rest h'
      end
  end.

(** The objects of a document that carry an identifier: the Sofas it
    registers and the structures in the index of a view it registers. *)
Definition member (h : heap) (c : Cas.t) (o : obj) : Prop :=
  match o with
  | OSofa s =>
      exists (ss : dict addr) name,
        sel sofa_dicts_ h !! Cas._sofas c = Some ss /\ In (name, s) ss
  | OFs a =>
      exists (vs : dict addr) name v view,
        sel view_dicts_ h !! Cas._views c = Some vs /\ In (name, v) vs /\
        sel views_ h !! v = Some view /\ In a (get_all_annotations view)
  end.

(** [o.xmiID] *)
Definition identifier (h : heap) (o : obj) : option Z :=
  match o with
  | OSofa s =>
      match sel sofas_ h !! s with
      | Some sofa => Some (Sofa.xmiID sofa)
      | None => None
      end
  | OFs a =>
      match sel structures_ h !! a with
      | Some fs => FeatureStructure.xmiID fs
      | None => None
      end
  end.

(** An entry of [_views] and the entry of [_sofas] at the same place: the
    same name, the view's Sofa, which carries the name, and a sofa number
    that the allocator [gn] has issued. *)
Definition paired (h : heap) (gn : IdGenerator.t) (kv ks : string * addr) : Prop :=
  fst kv = fst ks /\
  exists view sofa,
    sel views_ h !! snd kv = Some view /\ View.sofa view = snd ks /\
    sel sofas_ h !! snd ks = Some sofa /\ Sofa.sofaID sofa = fst kv /\
    Sofa.sofaNum sofa < IdGenerator._next_id gn.

(** The invariant of a document and a handle on it. *)
Definition document_ok (h : heap) (c : Cas.t) : Prop :=
  exists (gx gn : IdGenerator.t) (vs ss : dict addr),
    sel generators_ h !! Cas._xmi_id_generator c = Some gx /\
    sel generators_ h !! Cas._sofa_num_generator c = Some gn /\
    Cas._xmi_id_generator c <> Cas._sofa_num_generator c /\
    sel view_dicts_ h !! Cas._views c = Some vs /\
    sel sofa_dicts_ h !! Cas._sofas c = Some ss /\
    List.NoDup (dict_keys vs) /\
    (exists name, dict_get name vs = Some (Cas._current_view c)) /\
    Forall2 (paired h gn) vs ss /\
    (forall o, member h c o ->
       exists i, identifier h o = Some i /\ i < IdGenerator._next_id gx) /\
    (forall o1 o2 i, member h c o1 -> member h c o2 ->
       identifier h o1 = Some i -> identifier h o2 = Some i -> o1 = o2) /\
    (forall n1 s1 n2 s2 so1 so2,
       In (n1, s1) ss -> In (n2, s2) ss ->
       sel sofas_ h !! s1 = Some so1 -> sel sofas_ h !! s2 = Some so2 ->
       Sofa.sofaNum so1 = Sofa.sofaNum so2 -> s1 = s2).

(** A program that adds one span to two views, adds a structure that is not
    there, asks for views that exist and that do not, creates a view twice
    and sets a text. *)
Definition busy_script : list operation :=
  [NewStructure (annotation "Span" 0 4); AddAnnotation 0%nat; CreateView "X";
   AddAnnotation 0%nat; AddAnnotation 7%nat; CreateView "X"; GetView "Y";
   SetPayload SofaString (VStr "Hello"); GetView "_InitialView";
   NewStructure (plain "Meta"); AddAnnotation 1%nat; CreateView "Z"].
(** * Properties

    ** Keys and sorted lists *)

Lemma key_leb_refl (a : key) : key_leb a a = true.
Proof.
  unfold key_leb. rewrite Z.eqb_refl, Z.leb_refl. apply orb_true_r.
Qed.

Lemma key_leb_spec (a b : key) :
  key_leb a b = true <-> fst a < fst b \/ (fst a = fst b /\ snd a <= snd b).
Proof.
  unfold key_leb.
  rewrite orb_true_iff, andb_true_iff, Z.ltb_lt, Z.eqb_eq, Z.leb_le. tauto.
Qed.

Lemma key_ltb_spec (a b : key) :
  key_ltb a b = true <-> fst a < fst b \/ (fst a = fst b /\ snd a < snd b).
Proof.
  unfold key_ltb.
  rewrite orb_true_iff, andb_true_iff, !Z.ltb_lt, Z.eqb_eq. tauto.
Qed.

Lemma key_eqb_spec (a b : key) : key_eqb a b = true <-> a = b.
Proof.
  unfold key_eqb. rewrite andb_true_iff, !Z.eqb_eq.
  destruct a, b; simpl; split; [intros [-> ->]; reflexivity | intros [= -> ->]; auto].
Qed.

Lemma key_leb_false (a b : key) : key_leb a b = false -> key_ltb b a = true.
Proof.
  intros H. apply key_ltb_spec.
  destruct (key_leb a b) eqn:E; [discriminate|].
  assert (~ (fst a < fst b \/ (fst a = fst b /\ snd a <= snd b))) as N.
  { rewrite <- key_leb_spec. congruence. }
  lia.
Qed.

Lemma key_ltb_leb (a b : key) : key_ltb a b = true -> key_leb a b = true.
Proof. rewrite key_ltb_spec, key_leb_spec. lia. Qed.

Lemma key_ltb_not_leb (a b : key) : key_ltb a b = true -> key_leb b a = false.
Proof.
  rewrite key_ltb_spec. intros H.
  destruct (key_leb b a) eqn:E; [|reflexivity].
  apply key_leb_spec in E. lia.
Qed.

Lemma key_le_trans (a b c : key) : key_le a b -> key_le b c -> key_le a c.
Proof. unfold key_le. rewrite !key_leb_spec. lia. Qed.

Lemma key_lt_le_trans (a b c : key) :
  key_ltb a b = true -> key_le b c -> key_ltb a c = true.
Proof. unfold key_le. rewrite !key_ltb_spec, key_leb_spec. lia. Qed.

Section SortedKeyListFacts.
Import SortedKeyList.

(** [add] walks past every entry whose key is at most the new key. *)
Lemma add_cons k v k' v' (l : t) :
  add k v ((k', v') :: l) =
    if key_leb k' k then (k', v') :: add k v l else (k, v) :: (k', v') :: l.
Proof.
  unfold add. simpl. destruct (key_leb k' k); reflexivity.
Qed.

Lemma add_nil k v : add k v [] = [(k, v)].
Proof. reflexivity. Qed.

Lemma Forall_add (P : key * addr -> Prop) k v (l : t) :
  Forall P (add k v l) <-> P (k, v) /\ Forall P l.
Proof.
  induction l as [|[k' v'] l IH].
  - rewrite add_nil. rewrite Forall_cons_iff. tauto.
  - rewrite add_cons. destruct (key_leb k' k).
    + rewrite !Forall_cons_iff, IH. tauto.
    + rewrite !Forall_cons_iff. tauto.
Qed.

Lemma sorted_cons e (l : t) :
  sorted (e :: l) <-> sorted l /\ Forall (fun e' => key_le (fst e) (fst e')) l.
Proof.
  unfold sorted, keys. simpl. split.
  - intros H. inversion H as [|? ? Hs Hf]; subst. split; [exact Hs|].
    rewrite Forall_map in Hf. exact Hf.
  - intros [Hs Hf]. constructor; [exact Hs|]. rewrite Forall_map. exact Hf.
Qed.

Lemma add_sorted k v (l : t) : sorted l -> sorted (add k v l).
Proof.
  induction l as [|[k' v'] l IH]; intros Hs.
  - rewrite add_nil. apply sorted_cons. split; [constructor | constructor].
  - rewrite add_cons. apply sorted_cons in Hs as [Hs Hf].
    destruct (key_leb k' k) eqn:E.
    + apply sorted_cons. split; [auto|].
      apply Forall_add. split; [exact E | exact Hf].
    + apply sorted_cons. split.
      * apply sorted_cons. split; assumption.
      * assert (key_le k k') as Hk.
        { apply key_ltb_leb, key_leb_false, E. }
        constructor; [exact Hk|].
        eapply List.Forall_impl; [|exact Hf]. simpl. intros e He.
        eapply key_le_trans; eassumption.
Qed.

Lemma with_key_above q (l : t) :
  Forall (fun e => key_ltb q (fst e) = true) l -> with_key q l = [].
Proof.
  induction 1 as [|e l He _ IH]; [reflexivity|].
  unfold with_key in *. simpl. rewrite IH.
  destruct (key_eqb (fst e) q) eqn:E; [|reflexivity].
  apply key_eqb_spec in E. rewrite E in He.
  apply key_ltb_not_leb in He. rewrite key_leb_refl in He. discriminate.
Qed.

(** Stability: the new entry comes after the entries that already carry
    its key, and no other key's entries are touched. *)
Lemma with_key_add q k v (l : t) :
  sorted l ->
  with_key q (add k v l) =
    if key_eqb k q then with_key q l ++ [(k, v)] else with_key q l.
Proof.
  induction l as [|[k' v'] l IH]; intros Hs.
  - rewrite add_nil. unfold with_key. simpl. destruct (key_eqb k q); reflexivity.
  - rewrite add_cons. apply sorted_cons in Hs as [Hs Hf].
    destruct (key_leb k' k) eqn:E.
    + unfold with_key in *. simpl. rewrite (IH Hs).
      destruct (key_eqb k' q), (key_eqb k q); reflexivity.
    + change (with_key q ((k, v) :: (k', v') :: l))
        with (if key_eqb k q then (k, v) :: with_key q ((k', v') :: l)
              else with_key q ((k', v') :: l)).
      destruct (key_eqb k q) eqn:Eq; [|reflexivity].
      apply key_eqb_spec in Eq. subst q.
      rewrite (with_key_above k ((k', v') :: l)); [reflexivity|].
      pose proof (key_leb_false _ _ E) as Hlt.
      constructor; [exact Hlt|].
      eapply List.Forall_impl; [|exact Hf]. simpl. intros e He.
      eapply key_lt_le_trans; eassumption.
Qed.

(** On a sorted list the two insertion points are what a binary search
    returns: the number of entries with a key below, respectively at most,
    the key searched. *)
Lemma none_below k k' (l : t) :
  key_ltb k' k = false ->
  Forall (fun e => key_le k' (fst e)) l ->
  List.filter (fun e => key_ltb (fst e) k) l = [].
Proof.
  intros E. induction 1 as [|e l He _ IH]; [reflexivity|]. simpl. rewrite IH.
  destruct (key_ltb (fst e) k) eqn:E'; [|reflexivity].
  assert (key_ltb k' k = true); [|congruence].
  unfold key_le in He. apply key_ltb_spec. apply key_ltb_spec in E'.
  apply key_leb_spec in He. lia.
Qed.

Lemma none_at_most k k' (l : t) :
  key_leb k' k = false ->
  Forall (fun e => key_le k' (fst e)) l ->
  List.filter (fun e => key_leb (fst e) k) l = [].
Proof.
  intros E. induction 1 as [|e l He _ IH]; [reflexivity|]. simpl. rewrite IH.
  destruct (key_leb (fst e) k) eqn:E'; [|reflexivity].
  assert (key_leb k' k = true); [|congruence].
  unfold key_le in He. apply key_leb_spec. apply key_leb_spec in E'.
  apply key_leb_spec in He. lia.
Qed.

Lemma bisect_key_left_count k (l : t) :
  sorted l ->
  bisect_key_left k l = length (List.filter (fun e => key_ltb (fst e) k) l).
Proof.
  induction l as [|[k' v'] l IH]; intros Hs; [reflexivity|].
  apply sorted_cons in Hs as [Hs Hf]. simpl.
  destruct (key_ltb k' k) eqn:E; simpl; [rewrite IH by exact Hs; reflexivity|].
  rewrite (none_below k k' l E Hf). reflexivity.
Qed.

Lemma bisect_key_right_count k (l : t) :
  sorted l ->
  bisect_key_right k l = length (List.filter (fun e => key_leb (fst e) k) l).
Proof.
  induction l as [|[k' v'] l IH]; intros Hs; [reflexivity|].
  apply sorted_cons in Hs as [Hs Hf]. simpl.
  destruct (key_leb k' k) eqn:E; simpl; [rewrite IH by exact Hs; reflexivity|].
  rewrite (none_at_most k k' l E Hf). reflexivity.
Qed.

(** Adjacent entries of a sorted list are in key order, and so are any two
    entries taken in list order. *)
Lemma sorted_lookup_le (l : t) (i j : nat) e1 e2 :
  sorted l -> (i < j)%nat -> l !! i = Some e1 -> l !! j = Some e2 ->
  key_le (fst e1) (fst e2).
Proof.
  revert i j. induction l as [|e l IH]; intros i j Hs Hij H1 H2.
  - destruct i; discriminate.
  - apply sorted_cons in Hs as [Hs Hf].
    destruct j as [|j]; [lia|]. simpl in H2.
    destruct i as [|i].
    + simpl in H1. injection H1 as <-.
      rewrite Forall_forall in Hf. apply Hf.
      eapply list_elem_of_lookup_2. exact H2.
    + simpl in H1. eapply (IH i j); eauto. lia.
Qed.
End SortedKeyListFacts.

(** ** Dictionaries *)

Lemma dict_get_set_eq {V} k (v : V) d : dict_get k (dict_set k v d) = Some v.
Proof.
  induction d as [|[k' v'] d IH]; simpl.
  - rewrite String.eqb_refl. reflexivity.
  - destruct (String.eqb k k') eqn:E; simpl.
    + rewrite String.eqb_refl. reflexivity.
    + rewrite E. exact IH.
Qed.

Lemma dict_get_set_ne {V} k k' (v : V) d :
  k <> k' -> dict_get k' (dict_set k v d) = dict_get k' d.
Proof.
  intros Hne. induction d as [|[k0 v0] d IH]; simpl.
  - destruct (String.eqb_spec k' k); [congruence | reflexivity].
  - destruct (String.eqb_spec k k0) as [->|Hk]; simpl.
    + destruct (String.eqb_spec k' k0); [congruence | reflexivity].
    + destruct (String.eqb_spec k' k0); [reflexivity | exact IH].
Qed.

(** ** The store *)

Lemma bind_ok {A B} (m : M A) (f : A -> M B) h a h' :
  m h = (Ok a, h') -> bind m f h = f a h'.
Proof. unfold bind. intros ->. reflexivity. Qed.

Lemma bind_raise {A B} (m : M A) (f : A -> M B) h e h' :
  m h = (Raise e, h') -> bind m f h = (Raise e, h').
Proof. unfold bind. intros ->. reflexivity. Qed.

Lemma get_ok {T} (p : part T) a x h :
  sel p h !! a = Some x -> get p a h = (Ok x, h).
Proof. unfold get. intros ->. reflexivity. Qed.

Lemma put_ok {T} (p : part T) a x y h :
  sel p h !! a = Some x -> put p a y h = (Ok tt, upd p (<[a:=y]> (sel p h)) h).
Proof. unfold put. intros ->. reflexivity. Qed.

Lemma modify_ok {T} (p : part T) a x f h :
  sel p h !! a = Some x ->
  modify p a f h = (Ok tt, upd p (<[a:=f x]> (sel p h)) h).
Proof.
  intros H. unfold modify. rewrite (bind_ok _ _ _ _ _ (get_ok _ _ _ _ H)).
  eapply put_ok. exact H.
Qed.

Lemma bind_get {T B} (p : part T) a x (f : T -> M B) h :
  sel p h !! a = Some x -> bind (get p a) f h = f x h.
Proof. intros H. apply bind_ok, get_ok, H. Qed.

Lemma bind_put {T B} (p : part T) a x y (f : unit -> M B) h :
  sel p h !! a = Some x ->
  bind (put p a y) f h = f tt (upd p (<[a:=y]> (sel p h)) h).
Proof. intros H. eapply bind_ok, put_ok, H. Qed.

Lemma bind_new {T B} (p : part T) x (f : addr -> M B) h :
  bind (new p x) f h = f (length (sel p h)) (upd p (sel p h ++ [x]) h).
Proof. reflexivity. Qed.

Lemma bind_ret {A B} (a : A) (f : A -> M B) h : bind (ret a) f h = f a h.
Proof. reflexivity. Qed.

Lemma bind_assoc {A B C} (m : M A) (f : A -> M B) (g : B -> M C) h :
  bind (bind m f) g h = bind m (fun x => bind (f x) g) h.
Proof. unfold bind. destruct (m h) as [[a|e] h']; reflexivity. Qed.

(** ** The index of a view *)

Lemma type_index_set (v : View.t) T b T' :
  View.type_index (View.mk (View.sofa v) (dict_set T b (View._indices v))) T' =
    if String.eqb T T' then b else View.type_index v T'.
Proof.
  unfold View.type_index. simpl.
  destruct (String.eqb_spec T T') as [->|Hne].
  - rewrite dict_get_set_eq. reflexivity.
  - rewrite dict_get_set_ne by exact Hne. reflexivity.
Qed.

(** What [add_annotation_to_index] does to the store. *)
Lemma add_annotation_to_index_ok h v a fs view :
  sel structures_ h !! a = Some fs ->
  sel views_ h !! v = Some view ->
  add_annotation_to_index v a h =
    (Ok tt,
     upd views_
       (<[v := View.mk (View.sofa view)
                 (dict_set (FeatureStructure.type fs)
                    (SortedKeyList.add (_sort_func fs) a
                       (View.type_index view (FeatureStructure.type fs)))
                    (View._indices view))]> (sel views_ h)) h).
Proof.
  intros Hs Hv. unfold add_annotation_to_index.
  rewrite (bind_ok _ _ _ _ _ (get_ok _ _ _ _ Hs)).
  rewrite (bind_ok _ _ _ _ _ (get_ok _ _ _ _ Hv)).
  eapply put_ok. exact Hv.
Qed.

Lemma index_inv_step h v hist a fs :
  index_inv h v hist ->
  sel structures_ h !! a = Some fs ->
  exists h', add_annotation_to_index v a h = (Ok tt, h') /\
    sel structures_ h' = sel structures_ h /\
    index_inv h' v (hist ++ [a]).
Proof.
  intros (view & Hv & Hinv) Hs.
  eexists. split; [eapply add_annotation_to_index_ok; eassumption|].
  split; [reflexivity|].
  eexists. split.
  { simpl. apply list_lookup_insert_eq. eapply lookup_lt_Some. exact Hv. }
  intros T. rewrite type_index_set. simpl.
  destruct (Hinv T) as (Hsorted & Hkeys & Hstable).
  destruct (String.eqb_spec (FeatureStructure.type fs) T) as [HT|HT].
  - subst T. split; [apply add_sorted; exact Hsorted|]. split.
    + apply Forall_add. split; [|exact Hkeys].
      exists fs. simpl. auto.
    + intros q. rewrite with_key_add by exact Hsorted.
      rewrite List.filter_app. simpl. unfold is_entry at 2.
      change (structures h) with (sel structures_ h). rewrite Hs.
      rewrite String.eqb_refl. simpl.
      destruct (key_eqb (_sort_func fs) q).
      * unfold SortedKeyList.values. rewrite map_app. simpl.
        f_equal. apply Hstable.
      * rewrite app_nil_r. apply Hstable.
  - split; [exact Hsorted|]. split; [exact Hkeys|].
    intros q. rewrite List.filter_app. simpl. unfold is_entry at 2.
    change (structures h) with (sel structures_ h). rewrite Hs.
    destruct (String.eqb_spec (FeatureStructure.type fs) T); [contradiction|].
    simpl. rewrite app_nil_r. apply Hstable.
Qed.

Lemma index_inv_steps ops : forall h v hist,
  index_inv h v hist ->
  Forall (fun a => is_Some (sel structures_ h !! a)) ops ->
  exists h', for_each ops (add_annotation_to_index v) h = (Ok tt, h') /\
    sel structures_ h' = sel structures_ h /\
    index_inv h' v (hist ++ ops).
Proof.
  induction ops as [|a ops IH]; intros h v hist Hinv Hops.
  - exists h. rewrite app_nil_r. auto.
  - apply Forall_cons in Hops as [[fs Hs] Hops].
    destruct (index_inv_step _ _ _ _ _ Hinv Hs) as (h1 & Hrun & Hsame & Hinv1).
    destruct (IH h1 v (hist ++ [a]) Hinv1) as (h2 & Hrun2 & Hsame2 & Hinv2).
    { rewrite Hsame. exact Hops. }
    exists h2. split; [|split].
    + simpl. rewrite (bind_ok _ _ _ _ _ Hrun). exact Hrun2.
    + congruence.
    + rewrite <- app_assoc in Hinv2. exact Hinv2.
Qed.

(** C5 (as amended).  After any sequence of additions to a view that started
    empty, every bucket of its index holds each added structure of that type
    under the key [_sort_func] gives it; adjacent entries are in key order;
    every non-positional structure comes after all positional ones whose key
    is below the sentinel [(sys.maxsize, sys.maxsize)]; and the entries with
    equal keys appear in the order in which they were added. *)
Theorem index_bucket_order (h : heap) (v s : addr) (ops : list addr) :
  sel views_ h !! v = Some (View.mk s []) ->
  Forall (fun a => is_Some (sel structures_ h !! a)) ops ->
  exists h' view,
    for_each ops (add_annotation_to_index v) h = (Ok tt, h') /\
    sel structures_ h' = sel structures_ h /\
    sel views_ h' !! v = Some view /\
    forall T,
      let bucket := View.type_index view T in
      (forall i e, bucket !! i = Some e ->
         exists fs, sel structures_ h !! snd e = Some fs /\
           FeatureStructure.type fs = T /\ fst e = _sort_func fs) /\
      (forall i a b, bucket !! i = Some a -> bucket !! S i = Some b ->
         key_le (fst a) (fst b)) /\
      nonpositional_last_below_sentinel (sel structures_ h) bucket /\
      (forall q, SortedKeyList.values (with_key q bucket) =
                 List.filter (is_entry (sel structures_ h) T q) ops).
Proof.
  intros Hv Hops.
  assert (index_inv h v []) as Hinv.
  { exists (View.mk s []). split; [exact Hv|]. intros T.
    unfold View.type_index. simpl. repeat split.
    - constructor.
    - constructor. }
  destruct (index_inv_steps ops h v [] Hinv Hops) as (h' & Hrun & Hsame & Hinv').
  destruct Hinv' as (view & Hview & Hb).
  exists h', view. repeat (split; [assumption|]).
  intros T bucket. destruct (Hb T) as (Hsorted & Hkeys & Hstable).
  fold bucket in Hsorted, Hkeys, Hstable. rewrite Hsame in *.
  rewrite Forall_forall in Hkeys.
  assert (forall i e, bucket !! i = Some e ->
            exists fs, sel structures_ h !! snd e = Some fs /\
              FeatureStructure.type fs = T /\ fst e = _sort_func fs) as Hentry.
  { intros i e He. destruct (Hkeys e) as (fs & ? & ? & ?).
    - eapply list_elem_of_lookup_2. exact He.
    - exists fs. auto. }
  split; [exact Hentry|]. split; [|split].
  - intros i a b Ha Hb'. eapply (sorted_lookup_le bucket i (S i)); eauto.
  - intros i j ei ej Hi Hj Hni Hpj Hlt.
    destruct (Hentry i ei Hi) as (fi & Hfi & _ & Hki).
    unfold positional in Hni. rewrite Hfi in Hni.
    assert (fst ei = (maxsize, maxsize)) as Hsent.
    { rewrite Hki. unfold _sort_func.
      destruct (FeatureStructure.begin fi), (FeatureStructure.end_ fi);
        try reflexivity; discriminate. }
    destruct (Nat.lt_trichotomy j i) as [?|[->|Hij]]; [assumption| |].
    + assert (ei = ej) as -> by congruence.
      unfold positional in Hpj. rewrite Hfi in Hpj. congruence.
    + pose proof (sorted_lookup_le bucket i j ei ej Hsorted Hij Hi Hj) as Hle.
      rewrite Hsent in Hle. apply key_ltb_not_leb in Hlt.
      unfold key_le in Hle. congruence.
  - exact Hstable.
Qed.

(** The theorem at [order_heap]: four additions to its empty view. *)
Lemma index_bucket_order_witness :
  exists h' view,
    for_each [0; 1; 2; 3]%nat (add_annotation_to_index 0%nat) order_heap = (Ok tt, h') /\
    sel structures_ h' = sel structures_ order_heap /\
    sel views_ h' !! 0%nat = Some view /\
    forall T,
      let bucket := View.type_index view T in
      (forall i e, bucket !! i = Some e ->
         exists fs, sel structures_ order_heap !! snd e = Some fs /\
           FeatureStructure.type fs = T /\ fst e = _sort_func fs) /\
      (forall i a b, bucket !! i = Some a -> bucket !! S i = Some b ->
         key_le (fst a) (fst b)) /\
      nonpositional_last_below_sentinel (sel structures_ order_heap) bucket /\
      (forall q, SortedKeyList.values (with_key q bucket) =
                 List.filter (is_entry (sel structures_ order_heap) T q)
                   [0; 1; 2; 3]%nat).
Proof.
  apply (index_bucket_order order_heap 0%nat 0%nat [0; 1; 2; 3]%nat).
  - vm_compute. reflexivity.
  - repeat (apply Forall_cons; split; [eexists; reflexivity|]). apply Forall_nil. exact I.
Defined.

(** The bucket of [order_heap] after the four additions: the two structures
    with span [(4, 9)] are in the order of their addition, the non-positional
    one is last. *)
Example order_heap_bucket :
  exists h' view,
    for_each [0; 1; 2; 3]%nat (add_annotation_to_index 0%nat) order_heap = (Ok tt, h') /\
    sel views_ h' !! 0%nat = Some view /\
    View.type_index view "T" =
      [((0, 2), 3%nat); ((4, 9), 0%nat); ((4, 9), 2%nat); ((maxsize, maxsize), 1%nat)].
Proof. do 2 eexists. split; [vm_compute; reflexivity|]. split; vm_compute; reflexivity. Qed.

(** C5, counterexample.  A positional structure whose span starts beyond
    [sys.maxsize] is placed after a non-positional one: the sentinel is not
    maximal among Python ints. *)
Lemma sentinel_not_maximal :
  exists h' view,
    for_each [0; 1]%nat (add_annotation_to_index 0%nat) sentinel_heap = (Ok tt, h') /\
    sel views_ h' !! 0%nat = Some view /\
    ~ nonpositional_last (sel structures_ h') (View.type_index view "T").
Proof.
  do 2 eexists. split; [vm_compute; reflexivity|]. split; [vm_compute; reflexivity|].
  intros H.
  specialize (H 0%nat 1%nat _ _ eq_refl eq_refl eq_refl eq_refl). lia.
Qed.

(** ** Containment queries *)

(** C4, at a failing input.  In a document with the spans [[0,1)] and
    [[0,2)], [select_covered] with the anchor [[0,10)] yields the second span
    only: the first one is of the requested type, is in the current view and
    lies within the anchor, but its key [(0,1)] is more than one entry below
    the lower key [(0,10)] of the window. *)
Theorem select_covered_omits_covered :
  exists cas h,
    prefix_doc empty_heap = (Ok cas, h) /\
    Cas.select_covered cas "Span" (annotation "Anchor" 0 10) h = ([1%nat], None) /\
    fst (Cas.select cas "Span" h) = [0%nat; 1%nat] /\
    covered (sel structures_ h) 0 10 0%nat = true.
Proof.
  do 2 eexists. split; [vm_compute; reflexivity|].
  split; [vm_compute; reflexivity|].
  split; vm_compute; reflexivity.
Qed.

(** What [select_covered] yields is in a candidate bucket and lies within
    the anchor: the window only ever loses structures. *)
Lemma yield_if_sound {A} (test : A -> result bool) (l : list A) x :
  In x (fst (yield_if test l)) -> In x l /\ test x = Ok true.
Proof.
  induction l as [|a l IH]; simpl; [tauto|].
  destruct (test a) as [b|e] eqn:E; simpl; [|tauto].
  destruct (yield_if test l) as [ys o]. simpl in *.
  destruct b; simpl.
  - intros [<-|H]; [auto | destruct (IH H); auto].
  - intros H. destruct (IH H). auto.
Qed.

Lemma slice_subset (l : SortedKeyList.t) i j e :
  In e (SortedKeyList.slice i j l) -> In e l.
Proof.
  unfold SortedKeyList.slice. intros H.
  apply list_elem_of_In in H. apply list_elem_of_In.
  eapply (subseteq_drop i l). eapply (subseteq_take (j - i)). exact H.
Qed.

Lemma select_covered_sound (h : heap) (self : Cas.t) (type_name : string)
    (anchor : FeatureStructure.t) (c_begin c_end : Z) (a : addr) :
  FeatureStructure.begin anchor = Some c_begin ->
  FeatureStructure.end_ anchor = Some c_end ->
  In a (fst (Cas.select_covered self type_name anchor h)) ->
  In a (fst (Cas.select self type_name h)) /\
  covered (sel structures_ h) c_begin c_end a = true.
Proof.
  intros Hb He. unfold Cas.select_covered, Cas.filter_gen. rewrite Hb, He.
  destruct (yield_if _ _) as [ys o] eqn:Ey. simpl. intros Ha.
  assert (In a (fst (yield_if (Cas.is_covered h c_begin c_end)
            (fst (Cas._get_feature_structures_in_range self type_name c_begin c_end h)))))
    as Hy by (rewrite Ey; exact Ha).
  apply yield_if_sound in Hy as [Hin Htest]. split.
  - unfold Cas.select, Cas._get_feature_structures,
      Cas._get_feature_structures_in_range in *.
    destruct (TypeSystem.get_type _ _); [|destruct Hin].
    destruct (sel views_ h !! _); [|destruct Hin]. simpl in *.
    apply in_flat_map in Hin as (name & Hname & Hin).
    apply in_flat_map. exists name. split; [exact Hname|].
    unfold SortedKeyList.values in *. apply in_map_iff in Hin as (e & <- & He').
    apply in_map. eapply slice_subset. exact He'.
  - unfold Cas.is_covered in Htest. unfold covered. simpl in *.
    destruct (structures h !! a) as [fs|]; [|discriminate].
    destruct (FeatureStructure.begin fs) as [b|]; [|discriminate].
    rewrite Z.geb_leb in Htest.
    destruct (c_begin <=? b); [|discriminate].
    destruct (FeatureStructure.end_ fs) as [e|]; [|discriminate].
    injection Htest as Htest. simpl. exact Htest.
Qed.

(** The containment example of spec section 8, first half:
    [select_covered] over B and C with the anchor A yields B. *)
Example select_covered_abc :
  exists cas h,
    abc_doc empty_heap = (Ok cas, h) /\
    Cas.select_covered cas "Span" (annotation "Anchor" 0 10) h = ([1%nat], None).
Proof. do 2 eexists. split; [vm_compute; reflexivity|]. vm_compute. reflexivity. Qed.

(** A loop whose test never raises is a filter. *)
Lemma yield_if_filter {A} (test : A -> result bool) (f : A -> bool) (l : list A) :
  (forall a, In a l -> test a = Ok (f a)) ->
  yield_if test l = (List.filter f l, None).
Proof.
  induction l as [|a l IH]; intros H; [reflexivity|].
  simpl. rewrite (H a) by (left; reflexivity).
  rewrite IH by (intros; apply H; right; assumption).
  destruct (f a); reflexivity.
Qed.

Lemma filter_flat_map {A B} (f : B -> bool) (g : A -> list B) (l : list A) :
  List.filter f (flat_map g l) = flat_map (fun x => List.filter f (g x)) l.
Proof.
  induction l as [|x l IH]; [reflexivity|].
  simpl. rewrite List.filter_app, IH. reflexivity.
Qed.

Lemma is_covering_positional h c_begin c_end a :
  positional (sel structures_ h) a = true ->
  Cas.is_covering h c_begin c_end a = Ok (covering (sel structures_ h) c_begin c_end a).
Proof.
  unfold positional, Cas.is_covering, covering.
  destruct (sel structures_ h !! a) as [fs|]; [|discriminate].
  destruct (FeatureStructure.begin fs) as [b|]; [|discriminate].
  destruct (FeatureStructure.end_ fs) as [e|]; [|discriminate].
  intros _. rewrite Z.geb_leb. destruct (b <=? c_begin); reflexivity.
Qed.

(** C9 (as amended).  For a type name the type system knows, an anchor with
    both offsets and a current view whose candidate buckets (the type's and
    its child types') hold structures with both offsets only,
    [select_covering] raises nothing and yields exactly the structures of
    those buckets with [begin <= anchor.begin] and [end >= anchor.end],
    bucket after bucket, each in index order. *)
Theorem select_covering_exact (h : heap) (self : Cas.t) (type_name : string)
    (anchor : FeatureStructure.t) (ty : TypeSystem.Type_) (v : View.t)
    (c_begin c_end : Z) :
  TypeSystem.get_type (Cas._typesystem self) type_name = Some ty ->
  FeatureStructure.begin anchor = Some c_begin ->
  FeatureStructure.end_ anchor = Some c_end ->
  sel views_ h !! Cas._current_view self = Some v ->
  (forall name a,
     In name (Cas.candidate_types ty type_name) ->
     In a (SortedKeyList.values (View.type_index v name)) ->
     positional (sel structures_ h) a = true) ->
  Cas.select_covering self type_name anchor h =
    (flat_map
       (fun name =>
          List.filter (covering (sel structures_ h) c_begin c_end)
            (SortedKeyList.values (View.type_index v name)))
       (Cas.candidate_types ty type_name),
     None).
Proof.
  intros Hty Hb He Hv Hpos.
  unfold Cas.select_covering, Cas.filter_gen, Cas._get_feature_structures.
  rewrite Hb, He, Hty, Hv. simpl.
  rewrite (yield_if_filter _ (covering (sel structures_ h) c_begin c_end)).
  - rewrite filter_flat_map. reflexivity.
  - intros a Ha. apply is_covering_positional.
    apply in_flat_map in Ha as (name & Hname & Hin).
    eapply Hpos; eassumption.
Qed.

(** The containment example of spec section 8, second half, as an instance
    of the theorem: [select_covering] over A and C with the anchor B yields
    A and C. *)
Lemma select_covering_exact_witness :
  exists cas h ty v,
    acb_doc empty_heap = (Ok cas, h) /\
    TypeSystem.get_type (Cas._typesystem cas) "Span" = Some ty /\
    sel views_ h !! Cas._current_view cas = Some v /\
    Cas.select_covering cas "Span" (annotation "Anchor" 2 5) h =
      (flat_map
         (fun name =>
            List.filter (covering (sel structures_ h) 2 5)
              (SortedKeyList.values (View.type_index v name)))
         (Cas.candidate_types ty "Span"),
       None) /\
    fst (Cas.select_covering cas "Span" (annotation "Anchor" 2 5) h) = [0%nat; 2%nat].
Proof.
  do 4 eexists.
  split; [vm_compute; reflexivity|].
  split; [vm_compute; reflexivity|].
  split; [vm_compute; reflexivity|].
  split.
  - apply select_covering_exact.
    + vm_compute. reflexivity.
    + reflexivity.
    + reflexivity.
    + vm_compute. reflexivity.
    + intros name a Hn Ha. vm_compute in Hn. destruct Hn as [<-|[]].
      vm_compute in Ha. destruct Ha as [<-|[<-|[]]]; vm_compute; reflexivity.
  - vm_compute. reflexivity.
Defined.

(** C9, counterexample.  With a structure without offsets in a candidate
    bucket the query does not yield the covering structures and stop:
    [select_covering] for [Top], a type the type system knows, ends with
    [AttributeError], raised on reading [begin] of the [Meta] structure. *)
Lemma select_covering_raises :
  exists cas h,
    mixed_doc empty_heap = (Ok cas, h) /\
    TypeSystem.get_type (Cas._typesystem cas) "Top" <> None /\
    snd (Cas.select_covering cas "Top" (annotation "Anchor" 2 5) h)
      = Some AttributeError /\
    Cas.select_covering cas "Top" (annotation "Anchor" 2 5) h
      <> (List.filter (covering (sel structures_ h) 2 5)
            (fst (Cas.select cas "Top" h)), None).
Proof.
  do 2 eexists. split; [vm_compute; reflexivity|].
  split; [vm_compute; discriminate|].
  split; [vm_compute; reflexivity|]. vm_compute. discriminate.
Qed.

(** ** Views and handles *)

Lemma generate_id_ok g gen h :
  sel generators_ h !! g = Some gen ->
  call_generate_id g h =
    (Ok (IdGenerator._next_id gen),
     upd generators_ (<[g := IdGenerator.mk (IdGenerator._next_id gen + 1)]> (sel generators_ h)) h).
Proof.
  intros H. unfold call_generate_id. rewrite (bind_get _ _ _ _ _ H). simpl.
  rewrite (bind_put generators_ _ gen) by exact H. reflexivity.
Qed.

Lemma add_view_ok (self : Cas.t) name h gx gn dv ds :
  sel generators_ h !! Cas._xmi_id_generator self = Some gx ->
  <[Cas._xmi_id_generator self := IdGenerator.mk (IdGenerator._next_id gx + 1)]>
     (sel generators_ h) !! Cas._sofa_num_generator self = Some gn ->
  sel view_dicts_ h !! Cas._views self = Some dv ->
  sel sofa_dicts_ h !! Cas._sofas self = Some ds ->
  Cas._add_view self name h =
    (Ok tt,
     mkHeap
       (<[Cas._sofa_num_generator self := IdGenerator.mk (IdGenerator._next_id gn + 1)]>
          (<[Cas._xmi_id_generator self := IdGenerator.mk (IdGenerator._next_id gx + 1)]>
             (generators h)))
       (sofas h ++ [Sofa.mk (IdGenerator._next_id gn) (IdGenerator._next_id gx) name
                      VNone VNone VNone VNone])
       (views h ++ [View.mk (length (sofas h)) []])
       (structures h)
       (<[Cas._views self := dict_set name (length (views h)) dv]> (view_dicts h))
       (<[Cas._sofas self := dict_set name (length (sofas h)) ds]> (sofa_dicts h))).
Proof.
  intros Hx Hn Hv Hs. unfold Cas._add_view, Cas._get_next_xmi_id, Cas._get_next_sofa_num.
  rewrite (bind_ok _ _ _ _ _ (generate_id_ok _ _ _ Hx)).
  erewrite bind_ok; [|apply generate_id_ok; exact Hn].
  rewrite bind_new. rewrite bind_new.
  erewrite bind_get; [|exact Hv].
  erewrite bind_put; [|exact Hv].
  erewrite bind_get; [|exact Hs].
  erewrite put_ok; [|exact Hs]. reflexivity.
Qed.

Lemma lookup_snoc_at {A} (l : list A) x i : i = length l -> (l ++ [x]) !! i = Some x.
Proof. intros ->. apply list_lookup_middle. reflexivity. Qed.

Lemma insert_snoc_at {A} (l : list A) x y i : i = length l -> <[i := y]> (l ++ [x]) = l ++ [y].
Proof.
  intros ->. rewrite insert_app_r_alt by lia. rewrite Nat.sub_diag. reflexivity.
Qed.

Lemma init_ok ts h : Cas.__init__ ts h = (Ok (init_handle ts h), init_heap h).
Proof.
  destruct h as [G S V F VD SD].
  unfold Cas.__init__. rewrite !bind_new. simpl.
  erewrite bind_ok; cycle 1.
  { eapply add_view_ok; simpl.
    - rewrite lookup_app_l by (rewrite length_app; simpl; lia).
      apply lookup_snoc_at. reflexivity.
    - rewrite insert_app_l by (rewrite length_app; simpl; lia).
      apply lookup_snoc_at. rewrite length_insert. reflexivity.
    - apply lookup_snoc_at. reflexivity.
    - apply lookup_snoc_at. reflexivity. }
  simpl.
  erewrite bind_get; cycle 1.
  { simpl. apply list_lookup_insert_eq. rewrite length_app. simpl. lia. }
  simpl. unfold ret, init_handle, init_heap, Cas.with_current_view. simpl.
  rewrite (insert_snoc_at VD), (insert_snoc_at SD) by reflexivity.
  rewrite (insert_app_l _ _ (length G)) by (rewrite length_app; simpl; lia).
  rewrite (insert_snoc_at G) by reflexivity.
  rewrite insert_snoc_at by (rewrite !length_app; reflexivity).
  rewrite <- app_assoc. simpl.
  replace (length (G ++ [IdGenerator.__init__ 1])) with (Datatypes.S (length G))
    by (rewrite length_app; simpl; lia).
  reflexivity.
Qed.

Lemma copy_ok (self : Cas.t) h :
  Cas._copy self h = (Ok self, init_heap h).
Proof.
  unfold Cas._copy. rewrite (bind_ok _ _ _ _ _ (init_ok _ h)).
  destruct self. reflexivity.
Qed.

Lemma get_view_ok (self : Cas.t) name h vs v :
  sel view_dicts_ h !! Cas._views self = Some vs ->
  dict_get name vs = Some v ->
  Cas.get_view self name h = (Ok (Cas.with_current_view v self), init_heap h).
Proof.
  intros Hvs Hv. unfold Cas.get_view.
  rewrite (bind_get _ _ _ _ _ Hvs). rewrite Hv.
  rewrite (bind_ok _ _ _ _ _ (copy_ok _ h)). reflexivity.
Qed.

Lemma get_view_missing (self : Cas.t) name h vs :
  sel view_dicts_ h !! Cas._views self = Some vs ->
  dict_get name vs = None ->
  Cas.get_view self name h = (Raise KeyError, h).
Proof.
  intros Hvs Hv. unfold Cas.get_view.
  rewrite (bind_get _ _ _ _ _ Hvs). rewrite Hv. reflexivity.
Qed.


Lemma dict_contains_get {V} k (d : dict V) :
  dict_contains k d = true <-> is_Some (dict_get k d).
Proof.
  unfold dict_contains. destruct (dict_get k d); split; intros H;
    try reflexivity; try (eexists; reflexivity); try discriminate.
  destruct H; discriminate.
Qed.

Lemma dict_contains_false {V} k (d : dict V) :
  dict_contains k d = false <-> dict_get k d = None.
Proof.
  unfold dict_contains. destruct (dict_get k d); split; intros H;
    try reflexivity; discriminate.
Qed.

Lemma create_view_ok (self : Cas.t) name h (vs : dict addr) :
  valid_handle h self ->
  sel view_dicts_ h !! Cas._views self = Some vs ->
  dict_get name vs = None ->
  exists h1,
    Cas._add_view self name h = (Ok tt, h1) /\
    sel view_dicts_ h1 !! Cas._views self = Some (dict_set name (length (sel views_ h)) vs) /\
    Cas.create_view self name h =
      (Ok (Cas.with_current_view (length (sel views_ h)) self), init_heap h1).
Proof.
  intros ([gx Hx] & [gn0 Hn0] & _ & [ds Hs] & _) Hvs Hname.
  assert (is_Some
            (<[Cas._xmi_id_generator self := IdGenerator.mk (IdGenerator._next_id gx + 1)]>
               (sel generators_ h) !! Cas._sofa_num_generator self)) as [gn Hn].
  { apply lookup_lt_is_Some. rewrite length_insert.
    eapply lookup_lt_Some. exact Hn0. }
  pose proof (add_view_ok self name h gx gn vs ds Hx Hn Hvs Hs) as Hadd.
  eexists. split; [exact Hadd|].
  assert (forall (l : list (dict addr)) i x y, l !! i = Some x -> <[i:=y]> l !! i = Some y) as Hins.
  { intros l i x y Hl. apply list_lookup_insert_eq. eapply lookup_lt_Some. exact Hl. }
  split.
  - simpl. eapply Hins. exact Hvs.
  - unfold Cas.create_view. rewrite (bind_get _ _ _ _ _ Hvs).
    rewrite (proj2 (dict_contains_false name vs) Hname).
    rewrite (bind_ok _ _ _ _ _ Hadd).
    eapply get_view_ok.
    + simpl. eapply Hins. exact Hvs.
    + apply dict_get_set_eq.
Qed.

(** C8.  [create_view] raises [ValueError] exactly when the name is
    registered and [get_view] raises [KeyError] exactly when it is not; in
    both failure cases the store is the one the call started from (in the
    other case the call returns a handle). *)
Theorem view_errors (h : heap) (self : Cas.t) (name : string) :
  valid_handle h self ->
  (registered h self name = true ->
     Cas.create_view self name h = (Raise ValueError, h) /\
     exists c h', Cas.get_view self name h = (Ok c, h')) /\
  (registered h self name = false ->
     Cas.get_view self name h = (Raise KeyError, h) /\
     exists c h', Cas.create_view self name h = (Ok c, h')).
Proof.
  intros Hvalid. pose proof Hvalid as (_ & _ & [vs Hvs] & _).
  unfold registered. rewrite Hvs. split; intros Hreg.
  - split.
    + unfold Cas.create_view. rewrite (bind_get _ _ _ _ _ Hvs), Hreg. reflexivity.
    + apply dict_contains_get in Hreg as [v Hv].
      do 2 eexists. eapply get_view_ok; eassumption.
  - apply dict_contains_false in Hreg. split.
    + eapply get_view_missing; eassumption.
    + destruct (create_view_ok self name h vs Hvalid Hvs Hreg) as (h1 & _ & _ & Hc).
      do 2 eexists. exact Hc.
Qed.

(** The theorem at the document with the views [_InitialView] and [X]: the
    registered name [X] and the unregistered name [Y]. *)
Lemma view_errors_witness :
  (Cas.create_view two_view_cas "X" two_view_heap = (Raise ValueError, two_view_heap) /\
   exists c h', Cas.get_view two_view_cas "X" two_view_heap = (Ok c, h')) /\
  (Cas.get_view two_view_cas "Y" two_view_heap = (Raise KeyError, two_view_heap) /\
   exists c h', Cas.create_view two_view_cas "Y" two_view_heap = (Ok c, h')).
Proof.
  assert (valid_handle two_view_heap two_view_cas) as Hvalid.
  { repeat split; eexists; vm_compute; reflexivity. }
  split.
  - apply (proj1 (view_errors two_view_heap two_view_cas "X" Hvalid)).
    vm_compute. reflexivity.
  - apply (proj2 (view_errors two_view_heap two_view_cas "Y" Hvalid)).
    vm_compute. reflexivity.
Defined.

(** ** Aliasing of handles *)

Lemma bind_inv {A B} (m : M A) (f : A -> M B) h b h' :
  bind m f h = (Ok b, h') ->
  exists a h1, m h = (Ok a, h1) /\ f a h1 = (Ok b, h').
Proof.
  unfold bind. destruct (m h) as [[a|e] h1]; intros H; [|discriminate].
  exists a, h1. auto.
Qed.

Lemma ret_inv {A} (x a : A) h h' : ret x h = (Ok a, h') -> a = x /\ h' = h.
Proof. unfold ret. intros [= <- <-]. auto. Qed.

Lemma get_inv {T} (p : part T) a x h h' :
  get p a h = (Ok x, h') -> h' = h /\ sel p h !! a = Some x.
Proof.
  unfold get. destruct (sel p h !! a); intros [= <- <-]. auto.
Qed.

Lemma put_inv {T} (p : part T) a y u h h' :
  put p a y h = (Ok u, h') ->
  is_Some (sel p h !! a) /\ h' = upd p (<[a:=y]> (sel p h)) h.
Proof.
  unfold put. destruct (sel p h !! a) eqn:E; intros [= <- <-].
  split; [eexists; reflexivity | reflexivity].
Qed.

Lemma modify_inv {T} (p : part T) a f u h h' :
  modify p a f h = (Ok u, h') ->
  exists x, sel p h !! a = Some x /\ h' = upd p (<[a:=f x]> (sel p h)) h.
Proof.
  unfold modify. intros H. apply bind_inv in H as (x & h1 & Hg & Hp).
  apply get_inv in Hg as [-> Hx]. apply put_inv in Hp as [_ ->].
  exists x. auto.
Qed.

Lemma generate_id_inv g i h h' :
  call_generate_id g h = (Ok i, h') ->
  exists gen, sel generators_ h !! g = Some gen /\
    i = IdGenerator._next_id gen /\
    h' = upd generators_
           (<[g := IdGenerator.mk (IdGenerator._next_id gen + 1)]> (sel generators_ h)) h.
Proof.
  intros H. unfold call_generate_id in H.
  apply bind_inv in H as (gen & h1 & Hg & H).
  apply get_inv in Hg as [-> Hgen]. simpl in H.
  apply bind_inv in H as ([] & h2 & Hp & H).
  apply put_inv in Hp as [_ ->]. injection H as <- <-.
  exists gen. auto.
Qed.

(** A second draw from the same allocator sees the first. *)
Lemma generate_id_twice g i h h' :
  call_generate_id g h = (Ok i, h') ->
  exists h'', call_generate_id g h' = (Ok (i + 1), h'').
Proof.
  intros H. apply generate_id_inv in H as (gen & Hgen & -> & ->).
  eexists.
  apply (generate_id_ok g (IdGenerator.mk (IdGenerator._next_id gen + 1))).
  simpl. apply list_lookup_insert_eq. eapply lookup_lt_Some. exact Hgen.
Qed.

Lemma get_view_inv (c : Cas.t) n h c' h' :
  Cas.get_view c n h = (Ok c', h') ->
  exists (vs : dict addr) v,
    sel view_dicts_ h !! Cas._views c = Some vs /\ dict_get n vs = Some v /\
    c' = Cas.with_current_view v c /\ h' = init_heap h.
Proof.
  intros H. unfold Cas.get_view in H.
  apply bind_inv in H as (vs & h1 & Hg & H).
  apply get_inv in Hg as [-> Hvs].
  destruct (dict_get n vs) as [v|] eqn:Hv; [|discriminate].
  rewrite (bind_ok _ _ _ _ _ (copy_ok _ h)) in H. injection H as <- <-.
  exists vs, v. auto.
Qed.

Lemma create_view_inv (c : Cas.t) n h c' h' :
  Cas.create_view c n h = (Ok c', h') ->
  exists h1, Cas.get_view c n h1 = (Ok c', h').
Proof.
  intros H. unfold Cas.create_view in H.
  apply bind_inv in H as (vs & h1 & Hg & H).
  destruct (dict_contains n vs); [discriminate|].
  apply bind_inv in H as ([] & h2 & _ & H). exists h2. exact H.
Qed.

Lemma init_heap_extends h : extends h (init_heap h).
Proof.
  unfold extends, init_heap. simpl.
  repeat split; try apply prefix_app_r; reflexivity.
Qed.

Lemma dict_get_values {V} k (d : dict V) v : dict_get k d = Some v -> In v (dict_values d).
Proof.
  induction d as [|[k' v'] d IH]; simpl; [discriminate|].
  destruct (String.eqb k k'); [intros [= ->]; left; reflexivity | right; auto].
Qed.

Lemma add_contains k v (l : SortedKeyList.t) : In v (SortedKeyList.values (SortedKeyList.add k v l)).
Proof.
  unfold SortedKeyList.values, SortedKeyList.add.
  rewrite map_app, in_app_iff. right. left. reflexivity.
Qed.

(** What a successful [add_annotation] leaves behind: the dictionaries are
    untouched, and the current view holds the structure in its index. *)
Lemma add_annotation_inv (c : Cas.t) a h h' :
  Cas.add_annotation c a h = (Ok tt, h') ->
  sel view_dicts_ h' = sel view_dicts_ h /\
  exists view, sel views_ h' !! Cas._current_view c = Some view /\
    In a (get_all_annotations view).
Proof.
  intros H. unfold Cas.add_annotation in H.
  apply bind_inv in H as (i & h1 & H1 & H).
  apply generate_id_inv in H1 as (gen & _ & _ & ->).
  apply bind_inv in H as ([] & h2 & H2 & H).
  apply modify_inv in H2 as (fs0 & _ & ->).
  apply bind_inv in H as (fs1 & h3 & H3 & H).
  apply get_inv in H3 as [-> _].
  apply bind_inv in H as ([] & h4 & H4 & H).
  assert (sel view_dicts_ h4 = sel view_dicts_ h) as Hd.
  { destruct (FeatureStructure.hasattr fs1 "sofa").
    - apply bind_inv in H4 as (s & h5 & H5 & H4).
      unfold Cas.get_sofa in H5. apply bind_inv in H5 as (vw & h6 & H6 & H5).
      apply get_inv in H6 as [-> _]. injection H5 as <- <-.
      apply modify_inv in H4 as (fs2 & _ & ->). reflexivity.
    - injection H4 as <-. reflexivity. }
  unfold add_annotation_to_index in H.
  apply bind_inv in H as (fs & h5 & H5 & H). apply get_inv in H5 as [-> Hfs].
  apply bind_inv in H as (vw & h6 & H6 & H). apply get_inv in H6 as [-> Hvw].
  apply put_inv in H as [_ ->]. split; [exact Hd|].
  eexists. split.
  - simpl. apply list_lookup_insert_eq. eapply lookup_lt_Some. exact Hvw.
  - unfold get_all_annotations. simpl. apply in_flat_map.
    eexists. split.
    + eapply dict_get_values. apply dict_get_set_eq.
    + apply add_contains.
Qed.

Lemma same_document_observes (c d : Cas.t) : same_document c d -> observes c d.
Proof.
  intros (Hts & Hviews & Hsofas & Hx & Hn). repeat split.
  - intros g i g' H. unfold Cas._get_next_xmi_id in *. rewrite <- Hx.
    eapply generate_id_twice. exact H.
  - intros g i g' H. unfold Cas._get_next_sofa_num in *. rewrite <- Hn.
    eapply generate_id_twice. exact H.
  - intros g n c' g' H.
    apply create_view_inv in H as (h1 & H).
    apply get_view_inv in H as (vs & v & Hvs & Hv & -> & ->).
    do 2 eexists. split.
    + eapply get_view_ok; [|exact Hv].
      rewrite <- Hviews. simpl. apply lookup_app_l_Some. exact Hvs.
    + reflexivity.
  - intros g n a g' (vs & Hvs & Hcur) H.
    apply add_annotation_inv in H as (Hd & view & Hview & Ha).
    do 2 eexists. split.
    + eapply get_view_ok; [|exact Hcur].
      rewrite <- Hviews, Hd. exact Hvs.
    + unfold Cas.select_all. simpl.
      rewrite (lookup_app_l_Some _ _ _ _ Hview). exact Ha.
Qed.

(** C6.  For a registered name, [get_view] returns a handle on the same
    document (same type system, view mapping, sofa mapping and allocators as
    the original) whose current view is the view registered under that name;
    the call leaves every object of the store as it was; and what is done
    through either handle (consuming an identifier or a sofa number,
    creating a view, adding an annotation) is observed through the other. *)
Theorem get_view_aliases (h : heap) (self : Cas.t) (name : string)
    (vs : dict addr) (v : addr) :
  sel view_dicts_ h !! Cas._views self = Some vs ->
  dict_get name vs = Some v ->
  exists c h',
    Cas.get_view self name h = (Ok c, h') /\
    same_document self c /\
    Cas._current_view c = v /\
    current_view_name h' c name /\
    extends h h' /\
    observes c self /\
    observes self c.
Proof.
  intros Hvs Hv. exists (Cas.with_current_view v self), (init_heap h).
  assert (same_document self (Cas.with_current_view v self)) as Hsame.
  { repeat split. }
  split; [eapply get_view_ok; eassumption|].
  split; [exact Hsame|]. split; [reflexivity|].
  split.
  { exists vs. split; [|exact Hv]. simpl. apply lookup_app_l_Some. exact Hvs. }
  split; [apply init_heap_extends|].
  split; apply same_document_observes; [|exact Hsame].
  destruct Hsame as (? & ? & ? & ? & ?). repeat split; auto.
Qed.

(** The theorem at the same document and the name [X]. *)
Lemma get_view_aliases_witness :
  exists c h',
    Cas.get_view two_view_cas "X" two_view_heap = (Ok c, h') /\
    same_document two_view_cas c /\
    Cas._current_view c = 1%nat /\
    current_view_name h' c "X" /\
    extends two_view_heap h' /\
    observes c two_view_cas /\
    observes two_view_cas c.
Proof.
  apply (get_view_aliases two_view_heap two_view_cas "X"
           [("_InitialView", 0%nat); ("X", 1%nat)] 1%nat).
  - vm_compute. reflexivity.
  - vm_compute. reflexivity.
Defined.

(** The observation at work: a span added through the handle on [X] is
    listed through a handle obtained from the original document, and is not
    in the original's own current view. *)
Example aliasing_observed :
  exists a h,
    alias_run two_view_heap = (Ok (a, ([a], None)), h) /\
    Cas.select_all two_view_cas h = ([], None).
Proof.
  do 2 eexists. split; vm_compute; reflexivity.
Qed.

(** ** Adding an annotation *)

(** A call of [add_annotation] that gives a keyword raises [TypeError] and
    leaves the store as it is; without keyword it is the method itself. *)
Lemma call_add_annotation_keyword (c : Cas.t) (a : addr) k v (keywords : dict value) h :
  Cas.call_add_annotation c a ((k, v) :: keywords) h = (Raise TypeError, h).
Proof. reflexivity. Qed.

Lemma call_add_annotation_plain (c : Cas.t) (a : addr) h :
  Cas.call_add_annotation c a [] h = Cas.add_annotation c a h.
Proof. reflexivity. Qed.

(** C7, at a failing input: [add_annotation(fs, keep_id=True)], the call
    that [_parse_view] makes, for a structure that carries the identifier
    42 and has a [sofa] slot, on a fresh document.  The method has no such
    parameter: the call raises [TypeError] and the store is as before, so
    the structure still carries 42, but its [sofa] slot is still [None] and
    the current view lists nothing. *)
Theorem add_annotation_rejects_keep_id :
  exists cas a h before,
    carried_doc empty_heap = (Ok (cas, a), h) /\
    sel structures_ h !! a = Some before /\
    FeatureStructure.xmiID before = Some 42 /\
    dict_get "sofa" (FeatureStructure.features before) = Some VNone /\
    Cas.call_add_annotation cas a [("keep_id", VBool true)] h = (Raise TypeError, h) /\
    Cas.select_all cas h = ([], None).
Proof.
  do 4 eexists.
  split; [vm_compute; reflexivity|].
  split; [vm_compute; reflexivity|].
  split; [vm_compute; reflexivity|].
  split; [vm_compute; reflexivity|].
  split; [apply call_add_annotation_keyword | vm_compute; reflexivity].
Qed.

(** The same structure in the default mode: it arrives with the identifier
    42 and leaves with the one the allocator issues, 2. *)
Example add_annotation_overwrites_identifier :
  exists cas a h h' before after,
    carried_doc empty_heap = (Ok (cas, a), h) /\
    sel structures_ h !! a = Some before /\
    FeatureStructure.xmiID before = Some 42 /\
    Cas.add_annotation cas a h = (Ok tt, h') /\
    sel structures_ h' !! a = Some after /\
    FeatureStructure.xmiID after = Some 2.
Proof.
  do 6 eexists.
  split; [vm_compute; reflexivity|].
  split; [vm_compute; reflexivity|].
  split; [vm_compute; reflexivity|].
  split; [vm_compute; reflexivity|].
  split; vm_compute; reflexivity.
Qed.

(** Whatever identifier the structure carries, a successful [add_annotation]
    leaves it with the one the allocator issued. *)
Lemma add_annotation_issues_identifier (c : Cas.t) a h h' gen :
  sel generators_ h !! Cas._xmi_id_generator c = Some gen ->
  Cas.add_annotation c a h = (Ok tt, h') ->
  exists fs, sel structures_ h' !! a = Some fs /\
    FeatureStructure.xmiID fs = Some (IdGenerator._next_id gen).
Proof.
  intros Hgen H. unfold Cas.add_annotation in H.
  apply bind_inv in H as (i & h1 & H1 & H).
  apply generate_id_inv in H1 as (gen' & Hgen' & -> & ->).
  assert (gen' = gen) as -> by congruence.
  apply bind_inv in H as ([] & h2 & H2 & H).
  apply modify_inv in H2 as (fs0 & Hfs0 & ->).
  apply bind_inv in H as (fs1 & h3 & H3 & H).
  apply get_inv in H3 as [-> Hfs1].
  simpl in Hfs0, Hfs1.
  rewrite list_lookup_insert_eq in Hfs1 by (eapply lookup_lt_Some; exact Hfs0).
  injection Hfs1 as <-.
  apply bind_inv in H as ([] & h4 & H4 & H).
  assert (exists fs, sel structures_ h4 !! a = Some fs /\
            FeatureStructure.xmiID fs = Some (IdGenerator._next_id gen)) as (fs4 & Hfs4 & Hid).
  { destruct (FeatureStructure.hasattr _ "sofa").
    - apply bind_inv in H4 as (s & h5 & H5 & H4).
      unfold Cas.get_sofa in H5. apply bind_inv in H5 as (vw & h6 & H6 & H5).
      apply get_inv in H6 as [-> _]. injection H5 as <- <-.
      apply modify_inv in H4 as (fs2 & Hfs2 & ->).
      simpl in Hfs2.
      rewrite list_lookup_insert_eq in Hfs2 by (eapply lookup_lt_Some; exact Hfs0).
      injection Hfs2 as <-.
      eexists. split.
      + simpl. apply list_lookup_insert_eq. rewrite length_insert.
        eapply lookup_lt_Some. exact Hfs0.
      + reflexivity.
    - injection H4 as <-. eexists. split.
      + simpl. apply list_lookup_insert_eq. eapply lookup_lt_Some. exact Hfs0.
      + reflexivity. }
  unfold add_annotation_to_index in H.
  apply bind_inv in H as (fs & h5 & H5 & H). apply get_inv in H5 as [-> _].
  apply bind_inv in H as (vw & h6 & H6 & H). apply get_inv in H6 as [-> _].
  apply put_inv in H as [_ ->].
  exists fs4. split; [exact Hfs4 | exact Hid].
Qed.

(** Everything a successful [add_annotation] does to the store: the
    identifier allocator has issued one identifier, the structure carries
    it and, when it has a [sofa] slot, the Sofa of the current view; the
    current view holds the structure in the bucket of its type; the Sofas,
    the two dictionaries, the other allocators, structures and views are as
    before. *)
Lemma add_annotation_effect (c : Cas.t) a h h' :
  Cas.add_annotation c a h = (Ok tt, h') ->
  exists gen fs view,
    sel generators_ h !! Cas._xmi_id_generator c = Some gen /\
    sel structures_ h !! a = Some fs /\
    sel views_ h !! Cas._current_view c = Some view /\
    let fs1 := FeatureStructure.set_xmiID (Some (IdGenerator._next_id gen)) fs in
    let fs2 :=
      if FeatureStructure.hasattr fs1 "sofa"
      then FeatureStructure.set_feature "sofa" (VObj (OSofa (View.sofa view))) fs1
      else fs1 in
    h' = mkHeap
           (<[Cas._xmi_id_generator c := IdGenerator.mk (IdGenerator._next_id gen + 1)]>
              (generators h))
           (sofas h)
           (<[Cas._current_view c :=
                View.mk (View.sofa view)
                  (dict_set (FeatureStructure.type fs2)
                     (SortedKeyList.add (_sort_func fs2) a
                        (View.type_index view (FeatureStructure.type fs2)))
                     (View._indices view))]> (views h))
           (<[a := fs2]> (structures h))
           (view_dicts h) (sofa_dicts h).
Proof.
  intros H. unfold Cas.add_annotation in H.
  apply bind_inv in H as (i & h1 & H1 & H).
  apply generate_id_inv in H1 as (gen & Hgen & -> & ->).
  apply bind_inv in H as ([] & h2 & H2 & H).
  apply modify_inv in H2 as (fs & Hfs & ->).
  apply bind_inv in H as (fs1 & h3 & H3 & H).
  apply get_inv in H3 as [-> Hfs1].
  simpl in Hfs, Hfs1.
  rewrite list_lookup_insert_eq in Hfs1 by (eapply lookup_lt_Some; exact Hfs).
  injection Hfs1 as <-.
  apply bind_inv in H as ([] & h4 & H4 & H).
  unfold add_annotation_to_index in H.
  apply bind_inv in H as (fs2 & h5 & H5 & H). apply get_inv in H5 as [-> Hfs2].
  apply bind_inv in H as (view & h6 & H6 & H). apply get_inv in H6 as [-> Hview].
  apply put_inv in H as [_ ->].
  exists gen, fs. 
  destruct (FeatureStructure.hasattr _ "sofa") eqn:Ehas.
  - apply bind_inv in H4 as (s & h5 & H5 & H4).
    unfold Cas.get_sofa in H5. apply bind_inv in H5 as (vw & h6 & H6 & H5).
    apply get_inv in H6 as [-> Hvw]. apply ret_inv in H5 as [-> ->].
    apply modify_inv in H4 as (fs3 & Hfs3 & ->).
    simpl in Hfs3, Hfs2, Hview, Hvw.
    rewrite list_lookup_insert_eq in Hfs3 by (eapply lookup_lt_Some; exact Hfs).
    injection Hfs3 as <-.
    rewrite list_lookup_insert_eq in Hfs2
      by (rewrite length_insert; eapply lookup_lt_Some; exact Hfs).
    injection Hfs2 as <-.
    assert (vw = view) as -> by congruence.
    exists view. repeat split; try assumption.
    cbn zeta. rewrite Ehas. simpl. rewrite list_insert_insert_eq. reflexivity.
  - apply ret_inv in H4 as [_ ->]. simpl in Hfs2, Hview.
    rewrite list_lookup_insert_eq in Hfs2 by (eapply lookup_lt_Some; exact Hfs).
    injection Hfs2 as <-.
    exists view. repeat split; try assumption.
    cbn zeta. rewrite Ehas. reflexivity.
Qed.

(** ** The JSON wire format *)

Lemma lift_inv {A} (r : result A) a h h' :
  lift r h = (Ok a, h') -> r = Ok a /\ h' = h.
Proof.
  destruct r; simpl; unfold ret, raise; intros [= <- <-]; auto.
Qed.


(** *** The sofa-number maximum is never assigned *)








(** *** References that are not resolved when their record is parsed *)

Lemma dict_get_None {V} k (d : dict V) : dict_get k d = None <-> ~ In k (dict_keys d).
Proof.
  induction d as [|[k' v] d IH]; simpl; [tauto|].
  destruct (String.eqb_spec k k') as [->|Hne].
  - split; [discriminate | intros H; exfalso; apply H; left; reflexivity].
  - rewrite IH. split.
    + intros H [Heq|Hin]; [congruence | auto].
    + intros H Hin. apply H. right. exact Hin.
Qed.

Lemma dict_keys_pop {V} k (d : dict V) x : In x (dict_keys (dict_pop k d)) -> In x (dict_keys d).
Proof.
  induction d as [|[k' v] d IH]; simpl; [tauto|].
  destruct (String.eqb k k'); simpl; [auto|]. intros [H|H]; auto.
Qed.

Lemma dict_keys_set {V} k (v : V) (d : dict V) x :
  In x (dict_keys (dict_set k v d)) -> x = k \/ In x (dict_keys d).
Proof.
  induction d as [|[k' v'] d IH]; simpl.
  - intros [H|[]]. auto.
  - destruct (String.eqb k k'); simpl.
    + intros [H|H]; auto.
    + intros [H|H]; auto. destruct (IH H); auto.
Qed.

Lemma dict_keys_filter {V} (p : string * V -> bool) (d : dict V) x :
  In x (dict_keys (List.filter p d)) -> In x (dict_keys d).
Proof.
  unfold dict_keys. rewrite !in_map_iff. intros (kv & <- & Hin).
  apply List.filter_In in Hin as [Hin _]. eauto.
Qed.

Lemma dict_items_pop {V} k (d : dict V) kv : In kv (dict_pop k d) -> In kv d.
Proof.
  induction d as [|[k' v] d IH]; simpl; [tauto|].
  destruct (String.eqb k k'); simpl; [auto|]. intros [H|H]; auto.
Qed.

Lemma dict_items_set {V} k (v : V) (d : dict V) k0 v0 :
  In (k0, v0) (dict_set k v d) -> k0 = k \/ In (k0, v0) d.
Proof.
  induction d as [|[k' v'] d IH]; simpl.
  - intros [[= <- <-]|[]]. auto.
  - destruct (String.eqb k k'); simpl.
    + intros [[= <- <-]|H]; auto.
    + intros [H|H]; auto. destruct (IH H); auto.
Qed.

Lemma startswith_ref key :
  startswith REF_FEATURE_PREFIX key = true -> key = ("@" ++ tail key)%string.
Proof.
  intros H. destruct key as [|c key]; [discriminate H|].
  unfold startswith, REF_FEATURE_PREFIX in H. cbn [String.prefix] in H.
  destruct (Ascii.ascii_dec "@"%char c) as [<-|Hne]; [reflexivity | discriminate H].
Qed.

(** The loop never enters a name under which no reference resolves. *)
Lemma resolve_loop_absent tb f items : forall fr fr',
  (forall v, In (("@" ++ f)%string, v) items -> table_lookup tb v = Ok None) ->
  ~ In f (dict_keys (CasJsonDeserializer.attributes fr)) ->
  CasJsonDeserializer.resolve_loop items tb fr = Ok fr' ->
  ~ In f (dict_keys (CasJsonDeserializer.attributes fr')).
Proof.
  induction items as [|[key v] items IH]; intros fr fr' Hun Habs H; simpl in H.
  - injection H as <-. exact Habs.
  - assert (forall v0, In (("@" ++ f)%string, v0) items -> table_lookup tb v0 = Ok None)
      as Hun' by (intros v0 Hv0; apply Hun; right; exact Hv0).
    destruct (startswith REF_FEATURE_PREFIX key) eqn:Eref.
    + apply startswith_ref in Eref.
      assert (~ In f (dict_keys (dict_pop key (CasJsonDeserializer.attributes fr)))) as Hpop.
      { intros Hin. apply Habs. eapply dict_keys_pop. exact Hin. }
      destruct (table_lookup tb v) as [[target|]|] eqn:El; [| |discriminate].
      * eapply IH; [exact Hun'| |exact H]. simpl.
        intros Hin. apply dict_keys_set in Hin as [Heq|Hin]; [|auto].
        assert (table_lookup tb v = Ok None) as Hnone.
        { apply Hun. left. rewrite Eref, <- Heq. reflexivity. }
        congruence.
      * eapply IH; [exact Hun'| |exact H]. exact Hpop.
    + eapply IH; [exact Hun'| |exact H]. exact Habs.
Qed.

Lemma assign_slots_absent f attrs : forall slots,
  ~ In f (dict_keys attrs) ->
  dict_get f (assign_slots attrs slots) = dict_get f slots.
Proof.
  induction attrs as [|[n v] attrs IH]; intros slots Habs; simpl; [reflexivity|].
  simpl in Habs. rewrite IH by tauto.
  destruct (slot_names_skipped n); [reflexivity|].
  apply dict_get_set_ne. intros ->. tauto.
Qed.

Lemma default_slots_none ty f :
  dict_get f (default_slots ty) = None \/ dict_get f (default_slots ty) = Some VNone.
Proof.
  unfold default_slots.
  induction (List.filter _ (TypeSystem.all_features ty)) as [|x l IH]; simpl; [auto|].
  destruct (String.eqb f (TypeSystem.name x)); auto.
Qed.

(** X19.  For every record that [_parse_feature_structure] reads: a
    reference [@f] whose target is not in the table when the record is
    parsed (a forward reference, or a dangling one) is [None] or absent on
    the structure built for the record, when the record gives the feature no
    value under its own name [f] and [f] is none of the slot names the
    parser sets or renames ([xmiID], [self_], [type_], [elements]). *)
Lemma unresolved_reference_none self ts fs_id json_fs h a self' h' f :
  (forall v, In (("@" ++ f)%string, v) json_fs ->
     table_lookup (CasJsonDeserializer.feature_structures self) v = Ok None) ->
  ~ In f (dict_keys json_fs) ->
  ~ In f ["xmiID"; "self_"; "type_"; "elements"] ->
  CasJsonDeserializer._parse_feature_structure self ts fs_id json_fs h
    = (Ok (a, self'), h') ->
  exists fs, sel structures_ h' !! a = Some fs /\
    (dict_get f (FeatureStructure.features fs) = None \/
     dict_get f (FeatureStructure.features fs) = Some VNone).
Proof.
  intros Hun Habs Hres H.
  unfold CasJsonDeserializer._parse_feature_structure in H.
  destruct (dict_get TYPE_FIELD json_fs) as [[]|]; try discriminate.
  destruct (TypeSystem.get_type ts s) as [ty|]; [|discriminate].
  set (attrs0 := CasJsonDeserializer.rename_key "type" "type_"
                   (CasJsonDeserializer.rename_key "self" "self_"
                      (dict_set "xmiID" fs_id json_fs))) in H.
  assert (forall k v, In (k, v) attrs0 ->
            k = "xmiID" \/ k = "self_" \/ k = "type_" \/ In (k, v) json_fs) as Hitems0.
  { intros k v Hin. unfold attrs0, CasJsonDeserializer.rename_key in Hin.
    repeat match type of Hin with
           | In _ (match ?x with _ => _ end) => destruct x
           | In _ (dict_set _ _ _) => apply dict_items_set in Hin as [->|Hin]; [tauto|]
           | In _ (dict_pop _ _) => apply dict_items_pop in Hin
           end; tauto. }
  assert (~ In f (dict_keys attrs0)) as Habs0.
  { intros Hin. unfold dict_keys in Hin. apply in_map_iff in Hin as ([k v] & <- & Hin).
    simpl in Hin. cbn [fst] in Hres.
    destruct (Hitems0 _ _ Hin) as [->|[->|[->|Hj]]];
      try (exfalso; apply Hres; simpl; tauto).
    apply Habs. unfold dict_keys. apply in_map_iff. exists (k, v). auto. }
  apply bind_inv in H as (attrs1 & h1 & Hbytes & H).
  assert (h1 = h /\ ~ In f (dict_keys attrs1) /\
          forall k v, In (k, v) attrs1 -> k = "elements" \/ In (k, v) attrs0)
    as (-> & Habs1 & Hitems1).
  { destruct (String.eqb (TypeSystem.type_name ty) TYPE_NAME_BYTE_ARRAY).
    - destruct (dict_get ELEMENTS_FIELD attrs0) as [[]|]; try discriminate.
      apply ret_inv in Hbytes as [-> ->]. split; [reflexivity|]. split.
      + intros Hin. apply dict_keys_set in Hin as [->|Hin]; [|tauto].
        apply Hres. simpl. tauto.
      + intros k v Hin. apply dict_items_set in Hin. tauto.
    - apply ret_inv in Hbytes as [-> ->]. auto. }
  apply bind_inv in H as ([attrs2 fixups] & h2 & Hresolve & H).
  apply lift_inv in Hresolve as [Hresolve ->].
  assert (~ In f (dict_keys attrs2)) as Habs2.
  { unfold CasJsonDeserializer._resolve_references in Hresolve.
    destruct (CasJsonDeserializer.resolve_loop _ _ _) as [fr|] eqn:Eloop; [|discriminate].
    assert (CasJsonDeserializer.attributes fr = attrs2) as Hattrs.
    { destruct (CasJsonDeserializer.feature_name fr), (CasJsonDeserializer.value_ fr);
        injection Hresolve; auto. }
    rewrite <- Hattrs.
    eapply (resolve_loop_absent _ f attrs1
              (CasJsonDeserializer.mkFrame attrs1 None None 0%nat) fr);
      [|exact Habs1|exact Eloop].
    intros v Hin. apply Hun.
    destruct (Hitems1 _ _ Hin) as [Hk|Hin1]; [discriminate Hk|].
    destruct (Hitems0 _ _ Hin1) as [Hk|[Hk|[Hk|Hj]]]; try discriminate Hk. exact Hj. }
  simpl in H.
  apply bind_inv in H as (max_id & h3 & _ & H).
  apply bind_inv in H as (fs & h4 & Hnew & H).
  apply bind_inv in H as (a' & h5 & Halloc & H).
  apply ret_inv in H as [[= -> ->] ->].
  unfold new in Halloc. injection Halloc as <- <-.
  exists fs. split.
  - simpl. apply list_lookup_middle. reflexivity.
  - unfold new_instance in Hnew. apply lift_inv in Hnew as [Hnew _].
    destruct (dict_get "xmiID" _); [|discriminate].
    destruct (as_int _); [|discriminate].
    destruct (offset ty _ "begin"); [|discriminate].
    destruct (offset ty _ "end"); [|discriminate].
    injection Hnew as <-. simpl.
    rewrite assign_slots_absent.
    + apply default_slots_none.
    + intros Hin. apply Habs2. eapply dict_keys_filter. exact Hin.
Qed.

(** *** The claims on the wire format *)


(** A reference to a record that came earlier is resolved at once. *)
Example backward_reference_resolved :
  exists cas self h fs2,
    load_cas_from_json backward_wire json_ts empty_heap = (Ok (cas, self), h) /\
    structure_by_id h cas 2 = Some fs2 /\
    reference h fs2 "next" = Some 3.
Proof.
  do 4 eexists.
  split; [vm_compute; reflexivity|].
  split; vm_compute; reflexivity.
Qed.



(** When the record's last attribute is its identifier, the dangling
    reference is dropped without an error and the feature is [None]. *)
Example dangling_reference_dropped :
  exists cas self h fs2,
    load_cas_from_json dangling_wire json_ts empty_heap = (Ok (cas, self), h) /\
    structure_by_id h cas 2 = Some fs2 /\
    dict_get "next" (FeatureStructure.features fs2) = Some VNone.
Proof.
  do 4 eexists.
  split; [vm_compute; reflexivity|].
  split; vm_compute; reflexivity.
Qed.


(** A document with a second view does not come back at all: its Sofa
    record creates the view, and the view summary of the same name then asks
    [create_view] for it again. *)
Example round_trip_second_view :
  exists cas h data,
    two_sofa_doc empty_heap = (Ok cas, h) /\
    CasJsonSerializer.serialize cas h = Ok data /\
    fst (load_cas_from_json data json_ts empty_heap) = Raise ValueError.
Proof.
  do 3 eexists.
  split; [vm_compute; reflexivity|].
  split; vm_compute; reflexivity.
Qed.

(** * Further properties of the code

    ** Identifier allocators *)

Lemma upd_generators_id h : upd generators_ (sel generators_ h) h = h.
Proof. destruct h. reflexivity. Qed.

(** X1.  [n] successive calls of [generate_id] on one allocator issue the
    consecutive identifiers [next], [next + 1], ..., [next + n - 1] and leave
    the allocator at [next + n]; nothing else in the store changes, in
    particular no other allocator. *)
Theorem generate_id_consecutive (h : heap) (g : addr) (gen : IdGenerator.t) (n : nat) :
  sel generators_ h !! g = Some gen ->
  draw g n h =
    (Ok (map (fun k => IdGenerator._next_id gen + Z.of_nat k) (seq 0 n)),
     upd generators_
       (<[g := IdGenerator.mk (IdGenerator._next_id gen + Z.of_nat n)]> (sel generators_ h)) h).
Proof.
  revert h gen. induction n as [|n IH]; intros h gen Hg.
  - simpl. unfold ret. f_equal. rewrite Z.add_0_r.
    replace (IdGenerator.mk (IdGenerator._next_id gen)) with gen by (destruct gen; reflexivity).
    rewrite list_insert_id by exact Hg. symmetry. apply upd_generators_id.
  - cbn [draw]. rewrite (bind_ok _ _ _ _ _ (generate_id_ok _ _ _ Hg)).
    erewrite bind_ok; cycle 1.
    { apply IH. simpl. apply list_lookup_insert_eq. eapply lookup_lt_Some. exact Hg. }
    unfold ret. f_equal.
    + f_equal. cbn [seq map]. f_equal; [lia|].
      rewrite <- seq_shift, map_map. apply map_ext. intros k. simpl. lia.
    + simpl. rewrite list_insert_insert_eq. do 3 f_equal. lia.
Qed.

(** The theorem at the identifier allocator of [staged_heap], which has
    issued the identifiers 1 and 2: three calls issue 3, 4 and 5. *)
Lemma generate_id_consecutive_witness :
  draw 0%nat 3 staged_heap =
    (Ok (map (fun k => 3 + Z.of_nat k) (seq 0 3)),
     upd generators_ (<[0%nat := IdGenerator.mk (3 + Z.of_nat 3)]> (sel generators_ staged_heap))
       staged_heap).
Proof.
  apply (generate_id_consecutive staged_heap 0%nat (IdGenerator.mk 3) 3).
  vm_compute. reflexivity.
Defined.

(** ** A fresh document, and a new view *)

(** X2.  [Cas(typesystem)] leaves every object of the store as it was and
    returns a handle on a new document: its only view is registered as
    [_InitialView] and is the current one; the view is empty; its Sofa, the
    only one, carries the identifier 1, the sofa number 1, the name of the
    view and no text, MIME type or URI; the next identifier and the next
    sofa number to be issued are both 2. *)
Theorem init_fresh_document (ts : TypeSystem.t) (h : heap) :
  exists c h' s,
    Cas.__init__ ts h = (Ok c, h') /\
    extends h h' /\
    Cas._typesystem c = ts /\
    Cas.views c h' = (Ok [Cas._current_view c], h') /\
    current_view_name h' c "_InitialView" /\
    Cas.get_sofa c h' = (Ok s, h') /\
    Cas.sofas c h' = (Ok [s], h') /\
    sel sofas_ h' !! s = Some (Sofa.mk 1 1 "_InitialView" VNone VNone VNone VNone) /\
    Cas.select_all c h' = ([], None) /\
    fst (Cas._get_next_xmi_id c h') = Ok 2 /\
    fst (Cas._get_next_sofa_num c h') = Ok 2.
Proof.
  exists (init_handle ts h), (init_heap h), (length (sofas h)).
  split; [apply init_ok|]. split; [apply init_heap_extends|]. split; [reflexivity|].
  assert (sel view_dicts_ (init_heap h) !! Cas._views (init_handle ts h)
          = Some [("_InitialView", length (views h))]) as Hvd.
  { simpl. apply lookup_snoc_at. reflexivity. }
  assert (sel views_ (init_heap h) !! Cas._current_view (init_handle ts h)
          = Some (View.mk (length (sofas h)) [])) as Hv.
  { simpl. apply lookup_snoc_at. reflexivity. }
  split.
  { unfold Cas.views. rewrite (bind_get _ _ _ _ _ Hvd). reflexivity. }
  split.
  { eexists. split; [exact Hvd|]. reflexivity. }
  split.
  { unfold Cas.get_sofa. rewrite (bind_get _ _ _ _ _ Hv). reflexivity. }
  split.
  { unfold Cas.sofas.
    rewrite (bind_get sofa_dicts_ _ [("_InitialView", length (sofas h))]);
      [reflexivity|].
    simpl. apply lookup_snoc_at. reflexivity. }
  split.
  { simpl. apply lookup_snoc_at. reflexivity. }
  split.
  { unfold Cas.select_all. rewrite Hv. reflexivity. }
  split.
  - unfold Cas._get_next_xmi_id.
    rewrite (generate_id_ok _ (IdGenerator.mk 2)); [reflexivity|].
    simpl.
    replace (generators h ++ [IdGenerator.mk 2; IdGenerator.mk 2])
      with ((generators h ++ [IdGenerator.mk 2]) ++ [IdGenerator.mk 2])
      by (rewrite <- app_assoc; reflexivity).
    rewrite lookup_app_l by (rewrite length_app; simpl; lia).
    apply lookup_snoc_at. reflexivity.
  - unfold Cas._get_next_sofa_num.
    rewrite (generate_id_ok _ (IdGenerator.mk 2)); [reflexivity|].
    simpl.
    replace (generators h ++ [IdGenerator.mk 2; IdGenerator.mk 2])
      with ((generators h ++ [IdGenerator.mk 2]) ++ [IdGenerator.mk 2])
      by (rewrite <- app_assoc; reflexivity).
    apply lookup_snoc_at. rewrite length_app. simpl. lia.
Qed.

Lemma dict_set_absent {V} k (v : V) d : dict_get k d = None -> dict_set k v d = d ++ [(k, v)].
Proof.
  induction d as [|[k' v'] d IH]; simpl; [reflexivity|].
  destruct (String.eqb k k'); [discriminate|]. intros H. rewrite IH by exact H. reflexivity.
Qed.

(** X3.  [create_view] with a name that is not registered returns a handle
    on the same document whose current view is new and empty.  The view's
    Sofa is new as well: it carries the name, the next identifier and the
    next sofa number, one of each being consumed, and no payload.  The view
    and the Sofa come last in [views] and [sofas], after the ones that were
    there; a second [create_view] with the name raises [ValueError]. *)
Theorem create_view_registers (h : heap) (self : Cas.t) (name : string)
    (gx gn : IdGenerator.t) (vs ss : dict addr) :
  sel generators_ h !! Cas._xmi_id_generator self = Some gx ->
  sel generators_ h !! Cas._sofa_num_generator self = Some gn ->
  Cas._xmi_id_generator self <> Cas._sofa_num_generator self ->
  sel view_dicts_ h !! Cas._views self = Some vs ->
  sel sofa_dicts_ h !! Cas._sofas self = Some ss ->
  dict_get name vs = None ->
  dict_get name ss = None ->
  exists c h' s,
    Cas.create_view self name h = (Ok c, h') /\
    same_document self c /\
    Cas.views self h' = (Ok (dict_values vs ++ [Cas._current_view c]), h') /\
    Cas.sofas self h' = (Ok (dict_values ss ++ [s]), h') /\
    sel views_ h' !! Cas._current_view c = Some (View.mk s []) /\
    sel sofas_ h' !! s =
      Some (Sofa.mk (IdGenerator._next_id gn) (IdGenerator._next_id gx) name
              VNone VNone VNone VNone) /\
    fst (Cas._get_next_xmi_id self h') = Ok (IdGenerator._next_id gx + 1) /\
    fst (Cas._get_next_sofa_num self h') = Ok (IdGenerator._next_id gn + 1) /\
    Cas.create_view self name h' = (Raise ValueError, h').
Proof.
  intros Hx Hn Hne Hvs Hss Hname Hname'.
  assert (<[Cas._xmi_id_generator self := IdGenerator.mk (IdGenerator._next_id gx + 1)]>
            (sel generators_ h) !! Cas._sofa_num_generator self = Some gn) as Hn'.
  { rewrite list_lookup_insert_ne by exact Hne. exact Hn. }
  pose proof (add_view_ok self name h gx gn vs ss Hx Hn' Hvs Hss) as Hadd.
  set (h1 := mkHeap _ _ _ _ _ _) in Hadd.
  assert (sel view_dicts_ h1 !! Cas._views self = Some (dict_set name (length (views h)) vs))
    as Hvd1.
  { simpl. apply list_lookup_insert_eq. eapply lookup_lt_Some. exact Hvs. }
  exists (Cas.with_current_view (length (views h)) self), (init_heap h1), (length (sofas h)).
  assert (sel view_dicts_ (init_heap h1) !! Cas._views self
          = Some (dict_set name (length (views h)) vs)) as Hvd.
  { simpl. apply lookup_app_l_Some. exact Hvd1. }
  split.
  { unfold Cas.create_view. rewrite (bind_get _ _ _ _ _ Hvs).
    rewrite (proj2 (dict_contains_false name vs) Hname).
    rewrite (bind_ok _ _ _ _ _ Hadd).
    eapply get_view_ok; [exact Hvd1 | apply dict_get_set_eq]. }
  split; [repeat split|].
  split.
  { unfold Cas.views. rewrite (bind_get _ _ _ _ _ Hvd).
    rewrite dict_set_absent by exact Hname.
    unfold ret, dict_values. rewrite map_app. reflexivity. }
  split.
  { unfold Cas.sofas.
    rewrite (bind_get sofa_dicts_ _ (dict_set name (length (sofas h)) ss)).
    - rewrite dict_set_absent by exact Hname'.
      unfold ret, dict_values. rewrite map_app. reflexivity.
    - simpl. apply lookup_app_l_Some. apply list_lookup_insert_eq.
      eapply lookup_lt_Some. exact Hss. }
  split.
  { simpl. apply lookup_app_l_Some. apply lookup_snoc_at. reflexivity. }
  split.
  { simpl. apply lookup_app_l_Some. apply lookup_snoc_at. reflexivity. }
  split.
  { unfold Cas._get_next_xmi_id.
    rewrite (generate_id_ok _ (IdGenerator.mk (IdGenerator._next_id gx + 1))); [reflexivity|].
    simpl. apply lookup_app_l_Some.
    rewrite list_lookup_insert_ne by (intros E; apply Hne; symmetry; exact E).
    apply list_lookup_insert_eq. eapply lookup_lt_Some. exact Hx. }
  split.
  { unfold Cas._get_next_sofa_num.
    rewrite (generate_id_ok _ (IdGenerator.mk (IdGenerator._next_id gn + 1))); [reflexivity|].
    simpl. apply lookup_app_l_Some.
    apply list_lookup_insert_eq. rewrite length_insert. eapply lookup_lt_Some. exact Hn. }
  unfold Cas.create_view. rewrite (bind_get _ _ _ _ _ Hvd).
  unfold dict_contains. rewrite dict_get_set_eq. reflexivity.
Qed.

(** The theorem at the document of [staged_heap] and the name [Y]. *)
Lemma create_view_registers_witness :
  exists c h' s,
    Cas.create_view staged_cas "Y" staged_heap = (Ok c, h') /\
    same_document staged_cas c /\
    Cas.views staged_cas h'
      = (Ok (dict_values [("_InitialView", 0%nat); ("X", 1%nat)] ++ [Cas._current_view c]), h') /\
    Cas.sofas staged_cas h'
      = (Ok (dict_values [("_InitialView", 0%nat); ("X", 1%nat)] ++ [s]), h') /\
    sel views_ h' !! Cas._current_view c = Some (View.mk s []) /\
    sel sofas_ h' !! s =
      Some (Sofa.mk (IdGenerator._next_id (IdGenerator.mk 3))
              (IdGenerator._next_id (IdGenerator.mk 3)) "Y" VNone VNone VNone VNone) /\
    fst (Cas._get_next_xmi_id staged_cas h') = Ok (IdGenerator._next_id (IdGenerator.mk 3) + 1) /\
    fst (Cas._get_next_sofa_num staged_cas h') = Ok (IdGenerator._next_id (IdGenerator.mk 3) + 1) /\
    Cas.create_view staged_cas "Y" h' = (Raise ValueError, h').
Proof.
  apply (create_view_registers staged_heap staged_cas "Y" (IdGenerator.mk 3) (IdGenerator.mk 3)
           [("_InitialView", 0%nat); ("X", 1%nat)] [("_InitialView", 0%nat); ("X", 1%nat)]);
    try (vm_compute; reflexivity).
  vm_compute. discriminate.
Defined.

(** ** Adding annotations *)

Lemma add_annotation_ok (self : Cas.t) a h gen fs view :
  sel generators_ h !! Cas._xmi_id_generator self = Some gen ->
  sel structures_ h !! a = Some fs ->
  sel views_ h !! Cas._current_view self = Some view ->
  Cas.add_annotation self a h = (Ok tt, added self a gen fs view h).
Proof.
  intros Hg Hs Hv. unfold Cas.add_annotation, Cas._get_next_xmi_id.
  rewrite (bind_ok _ _ _ _ _ (generate_id_ok _ _ _ Hg)).
  erewrite bind_ok; cycle 1.
  { eapply modify_ok. simpl. exact Hs. }
  erewrite bind_get; cycle 1.
  { simpl. apply list_lookup_insert_eq. eapply lookup_lt_Some. exact Hs. }
  unfold added. cbn zeta.
  destruct (FeatureStructure.hasattr _ "sofa") eqn:Ehas.
  - erewrite bind_ok; cycle 1.
    { unfold Cas.get_sofa. erewrite bind_ok; cycle 1.
      { erewrite bind_get; [reflexivity|]. simpl. exact Hv. }
      eapply modify_ok. simpl. apply list_lookup_insert_eq.
      eapply lookup_lt_Some. exact Hs. }
    erewrite add_annotation_to_index_ok; cycle 1.
    { simpl. apply list_lookup_insert_eq. rewrite length_insert.
      eapply lookup_lt_Some. exact Hs. }
    { simpl. exact Hv. }
    simpl. rewrite list_insert_insert_eq. reflexivity.
  - rewrite bind_ret.
    erewrite add_annotation_to_index_ok; cycle 1.
    { simpl. apply list_lookup_insert_eq. eapply lookup_lt_Some. exact Hs. }
    { simpl. exact Hv. }
    reflexivity.
Qed.

Lemma add_annotation_added (self : Cas.t) a h h' :
  Cas.add_annotation self a h = (Ok tt, h') ->
  exists gen fs view,
    sel generators_ h !! Cas._xmi_id_generator self = Some gen /\
    sel structures_ h !! a = Some fs /\
    sel views_ h !! Cas._current_view self = Some view /\
    h' = added self a gen fs view h.
Proof.
  intros H. destruct (add_annotation_effect _ _ _ _ H) as (gen & fs & view & Hg & Hs & Hv & Hh).
  exists gen, fs, view. auto.
Qed.

Lemma values_add k a (l : SortedKeyList.t) :
  Permutation (SortedKeyList.values (SortedKeyList.add k a l)) (a :: SortedKeyList.values l).
Proof.
  unfold SortedKeyList.values, SortedKeyList.add.
  rewrite map_app. simpl. rewrite <- Permutation_middle.
  rewrite <- map_app, take_drop. reflexivity.
Qed.

Lemma all_annotations_set (T : string) k a (d : dict SortedKeyList.t) :
  Permutation
    (flat_map SortedKeyList.values
       (dict_values
          (dict_set T
             (SortedKeyList.add k a (match dict_get T d with Some l => l | None => [] end)) d)))
    (a :: flat_map SortedKeyList.values (dict_values d)).
Proof.
  induction d as [|[T' b] d IH]; simpl.
  - reflexivity.
  - destruct (String.eqb T T'); simpl.
    + rewrite values_add. reflexivity.
    + rewrite IH. rewrite <- Permutation_middle. reflexivity.
Qed.

Lemma get_all_annotations_added (view : View.t) T k a :
  Permutation
    (get_all_annotations
       (View.mk (View.sofa view)
          (dict_set T (SortedKeyList.add k a (View.type_index view T)) (View._indices view))))
    (a :: get_all_annotations view).
Proof. apply all_annotations_set. Qed.

Lemma added_id self a gen fs view h :
  sel structures_ h !! a = Some fs ->
  exists fs', sel structures_ (added self a gen fs view h) !! a = Some fs' /\
    FeatureStructure.xmiID fs' = Some (IdGenerator._next_id gen).
Proof.
  intros Hs. eexists. split.
  - simpl. apply list_lookup_insert_eq. eapply lookup_lt_Some. exact Hs.
  - destruct (FeatureStructure.hasattr _ _); reflexivity.
Qed.

Lemma add_annotations_run (self : Cas.t) (l : list addr) : forall h gen view,
  sel generators_ h !! Cas._xmi_id_generator self = Some gen ->
  sel views_ h !! Cas._current_view self = Some view ->
  List.NoDup l ->
  Forall (fun a => is_Some (sel structures_ h !! a)) l ->
  exists h' view',
    Cas.add_annotations self l h = (Ok tt, h') /\
    sel generators_ h' !! Cas._xmi_id_generator self
      = Some (IdGenerator.mk (IdGenerator._next_id gen + Z.of_nat (length l))) /\
    sel views_ h' !! Cas._current_view self = Some view' /\
    Permutation (get_all_annotations view') (l ++ get_all_annotations view) /\
    (forall b, ~ In b l -> sel structures_ h' !! b = sel structures_ h !! b) /\
    (forall k a, l !! k = Some a ->
       exists fs, sel structures_ h' !! a = Some fs /\
         FeatureStructure.xmiID fs = Some (IdGenerator._next_id gen + Z.of_nat k)).
Proof.
  induction l as [|a l IH]; intros h gen view Hg Hv Hnd Hl.
  - exists h, view. simpl. split; [reflexivity|].
    split; [rewrite Z.add_0_r; destruct gen; exact Hg|].
    split; [exact Hv|]. split; [reflexivity|]. split; [reflexivity|].
    intros k a Hk. destruct k; discriminate.
  - apply List.NoDup_cons_iff in Hnd as [Hnotin Hnd].
    apply Forall_cons in Hl as [[fs Hs] Hl].
    pose proof (add_annotation_ok self a h gen fs view Hg Hs Hv) as Hadd.
    set (h1 := added self a gen fs view h) in *.
    edestruct (IH h1 (IdGenerator.mk (IdGenerator._next_id gen + 1)))
      as (h' & view' & Hrun & Hg' & Hv' & Hperm & Hframe & Hids).
    + simpl. apply list_lookup_insert_eq. eapply lookup_lt_Some. exact Hg.
    + simpl. apply list_lookup_insert_eq. eapply lookup_lt_Some. exact Hv.
    + exact Hnd.
    + eapply List.Forall_impl; [|exact Hl]. simpl. intros b Hb.
      apply lookup_lt_is_Some. rewrite length_insert. apply lookup_lt_is_Some. exact Hb.
    + exists h', view'.
      split.
      { unfold Cas.add_annotations. cbn [for_each].
        rewrite (bind_ok _ _ _ _ _ Hadd). exact Hrun. }
      split.
      { rewrite Hg'. simpl. do 2 f_equal. lia. }
      split; [exact Hv'|].
      split.
      { rewrite Hperm. rewrite get_all_annotations_added. simpl.
        rewrite <- Permutation_middle. reflexivity. }
      split.
      { intros b Hb. rewrite Hframe by (intros Hin; apply Hb; right; exact Hin).
        simpl. apply list_lookup_insert_ne. intros ->. apply Hb. left. reflexivity. }
      intros k b Hk. destruct k as [|k]; simpl in Hk.
      * injection Hk as <-. rewrite Z.add_0_r.
        rewrite Hframe by exact Hnotin.
        apply added_id. exact Hs.
      * destruct (Hids k b Hk) as (fs' & Hfs' & Hid). exists fs'. split; [exact Hfs'|].
        rewrite Hid. simpl. f_equal. lia.
Qed.

(** X4.  [add_annotations] of distinct structures through a handle with a
    current view never raises.  The structures receive consecutive
    identifiers in the order of the list, starting with the next one of the
    allocator, which is left behind the last one issued; every structure of
    the list is in the current view afterwards, next to what the view held;
    and no structure outside the list is touched. *)
Theorem add_annotations_consecutive (h : heap) (self : Cas.t) (annotations : list addr)
    (gen : IdGenerator.t) :
  sel generators_ h !! Cas._xmi_id_generator self = Some gen ->
  is_Some (sel views_ h !! Cas._current_view self) ->
  List.NoDup annotations ->
  Forall (fun a => is_Some (sel structures_ h !! a)) annotations ->
  exists h',
    Cas.add_annotations self annotations h = (Ok tt, h') /\
    (forall k a, annotations !! k = Some a ->
       exists fs, sel structures_ h' !! a = Some fs /\
         FeatureStructure.xmiID fs = Some (IdGenerator._next_id gen + Z.of_nat k)) /\
    fst (Cas._get_next_xmi_id self h')
      = Ok (IdGenerator._next_id gen + Z.of_nat (length annotations)) /\
    Permutation (fst (Cas.select_all self h'))
      (annotations ++ fst (Cas.select_all self h)) /\
    (forall b, ~ In b annotations -> sel structures_ h' !! b = sel structures_ h !! b).
Proof.
  intros Hg [view Hv] Hnd Hl.
  destruct (add_annotations_run self annotations h gen view Hg Hv Hnd Hl)
    as (h' & view' & Hrun & Hg' & Hv' & Hperm & Hframe & Hids).
  exists h'. split; [exact Hrun|]. split; [exact Hids|].
  split.
  { unfold Cas._get_next_xmi_id. rewrite (generate_id_ok _ _ _ Hg'). reflexivity. }
  split; [|exact Hframe].
  unfold Cas.select_all. rewrite Hv, Hv'. exact Hperm.
Qed.

(** The theorem at [staged_heap]: its three structures are added. *)
Lemma add_annotations_consecutive_witness :
  exists h',
    Cas.add_annotations staged_cas [0; 1; 2]%nat staged_heap = (Ok tt, h') /\
    (forall k a, [0; 1; 2]%nat !! k = Some a ->
       exists fs, sel structures_ h' !! a = Some fs /\
         FeatureStructure.xmiID fs = Some (IdGenerator._next_id (IdGenerator.mk 3) + Z.of_nat k)) /\
    fst (Cas._get_next_xmi_id staged_cas h')
      = Ok (IdGenerator._next_id (IdGenerator.mk 3) + Z.of_nat (length [0; 1; 2]%nat)) /\
    Permutation (fst (Cas.select_all staged_cas h'))
      ([0; 1; 2]%nat ++ fst (Cas.select_all staged_cas staged_heap)) /\
    (forall b, ~ In b [0; 1; 2]%nat ->
       sel structures_ h' !! b = sel structures_ staged_heap !! b).
Proof.
  apply (add_annotations_consecutive staged_heap staged_cas [0; 1; 2]%nat (IdGenerator.mk 3)).
  - vm_compute. reflexivity.
  - eexists. vm_compute. reflexivity.
  - repeat constructor; simpl; intuition discriminate.
  - repeat (apply Forall_cons; split; [eexists; vm_compute; reflexivity|]). apply Forall_nil. exact I.
Defined.

(** X5.  A successful [add_annotation] adds one entry, the structure, to
    what [select_all] lists through the handle, and none to what it lists
    through a handle on another view; a structure with a [sofa] slot refers
    to the Sofa of the handle's current view afterwards. *)
Theorem add_annotation_visible (self other : Cas.t) (a : addr) (h h' : heap) :
  Cas.add_annotation self a h = (Ok tt, h') ->
  Permutation (fst (Cas.select_all self h')) (a :: fst (Cas.select_all self h)) /\
  snd (Cas.select_all self h') = None /\
  (Cas._current_view other <> Cas._current_view self ->
   Cas.select_all other h' = Cas.select_all other h) /\
  (forall fs, sel structures_ h !! a = Some fs ->
     FeatureStructure.hasattr fs "sofa" = true ->
     exists fs' s,
       sel structures_ h' !! a = Some fs' /\
       Cas.get_sofa self h' = (Ok s, h') /\
       dict_get "sofa" (FeatureStructure.features fs') = Some (VObj (OSofa s))).
Proof.
  intros H. apply add_annotation_added in H as (gen & fs & view & Hg & Hs & Hv & ->).
  assert (sel views_ (added self a gen fs view h) !! Cas._current_view self
          = Some (View.mk (View.sofa view)
                    (dict_set (FeatureStructure.type fs)
                       (SortedKeyList.add (_sort_func fs) a
                          (View.type_index view (FeatureStructure.type fs)))
                       (View._indices view)))) as Hv'.
  { unfold added. cbn zeta. simpl.
    rewrite list_lookup_insert_eq by (eapply lookup_lt_Some; exact Hv).
    destruct (FeatureStructure.hasattr _ _); reflexivity. }
  unfold Cas.select_all. rewrite Hv, Hv'. simpl.
  split; [apply get_all_annotations_added|]. split; [reflexivity|]. split.
  - intros Hne. unfold added. simpl.
    rewrite list_lookup_insert_ne by (intros E; apply Hne; symmetry; exact E).
    reflexivity.
  - intros fs0 Hs0 Hhas. simpl in Hs0, Hs. assert (fs0 = fs) as -> by congruence.
    unfold Cas.get_sofa. rewrite (bind_get _ _ _ _ _ Hv').
    do 2 eexists. split; [|split; [reflexivity|]].
    + unfold added. simpl. apply list_lookup_insert_eq. eapply lookup_lt_Some. exact Hs.
    + cbn zeta.
      change (FeatureStructure.hasattr
                (FeatureStructure.set_xmiID (Some (IdGenerator._next_id gen)) fs) "sofa")
        with (FeatureStructure.hasattr fs "sofa").
      rewrite Hhas. simpl. apply dict_get_set_eq.
Qed.

(** The theorem at [staged_heap]: the first span is added through the
    handle of the document, and [select_all] is asked through the handle on
    the view [X]. *)
Lemma add_annotation_visible_witness :
  exists h',
    Cas.add_annotation staged_cas 0%nat staged_heap = (Ok tt, h') /\
    Permutation (fst (Cas.select_all staged_cas h'))
      (0%nat :: fst (Cas.select_all staged_cas staged_heap)) /\
    snd (Cas.select_all staged_cas h') = None /\
    (Cas._current_view staged_x <> Cas._current_view staged_cas ->
     Cas.select_all staged_x h' = Cas.select_all staged_x staged_heap) /\
    (forall fs, sel structures_ staged_heap !! 0%nat = Some fs ->
       FeatureStructure.hasattr fs "sofa" = true ->
       exists fs' s,
         sel structures_ h' !! 0%nat = Some fs' /\
         Cas.get_sofa staged_cas h' = (Ok s, h') /\
         dict_get "sofa" (FeatureStructure.features fs') = Some (VObj (OSofa s))).
Proof.
  eexists. split; [vm_compute; reflexivity|].
  apply (add_annotation_visible staged_cas staged_x 0%nat staged_heap).
  vm_compute. reflexivity.
Defined.

(** ** [select] *)

Lemma py_set_In x (l : list string) : In x (py_set l) <-> In x l.
Proof.
  induction l as [|y l IH]; simpl; [tauto|].
  rewrite List.filter_In, IH. split.
  - intros [->|[H _]]; auto.
  - intros [->|H]; [auto|].
    destruct (String.eqb_spec x y) as [->|Hne]; [auto|]. right. split; [exact H|].
    reflexivity.
Qed.

Lemma py_set_NoDup (l : list string) : List.NoDup (py_set l).
Proof.
  induction l as [|y l IH]; simpl; [constructor|].
  constructor.
  - rewrite List.filter_In. intros [_ H]. rewrite String.eqb_refl in H. discriminate.
  - apply List.NoDup_filter. exact IH.
Qed.

Lemma flat_map_ext_in {A B} (f g : A -> list B) (l : list A) :
  (forall x, In x l -> f x = g x) -> flat_map f l = flat_map g l.
Proof.
  induction l as [|x l IH]; intros H; [reflexivity|].
  simpl. rewrite (H x) by (left; reflexivity).
  rewrite IH by (intros y Hy; apply H; right; exact Hy). reflexivity.
Qed.

Lemma flat_map_one_more (T : string) (a : addr) (f g : string -> list addr) (names : list string) :
  List.NoDup names -> In T names ->
  Permutation (g T) (a :: f T) ->
  (forall n, n <> T -> g n = f n) ->
  Permutation (flat_map g names) (a :: flat_map f names).
Proof.
  intros Hnd Hin HT Hother. induction names as [|n names IH]; [destruct Hin|].
  apply List.NoDup_cons_iff in Hnd as [Hn Hnd]. simpl.
  destruct (String.eqb_spec n T) as [->|Hne].
  - rewrite HT. simpl. apply Permutation_cons; [reflexivity|].
    apply Permutation_app_head.
    rewrite (flat_map_ext_in g f); [reflexivity|]. intros x Hx. apply Hother. intros ->. apply Hn.
    exact Hx.
  - destruct Hin as [Heq|Hin]; [contradiction|].
    rewrite (Hother n Hne). rewrite (IH Hnd Hin).
    rewrite <- Permutation_middle. reflexivity.
Qed.

(** X6.  After a successful [add_annotation] of a structure, [select] for a
    type the type system knows still raises nothing; it yields one entry
    more, the structure, when the structure's type is the type asked for or
    one of its child types, and what it yielded before otherwise. *)
Theorem select_after_add (self : Cas.t) (a : addr) (h h' : heap)
    (fs : FeatureStructure.t) (type_name : string) (ty : TypeSystem.Type_) :
  Cas.add_annotation self a h = (Ok tt, h') ->
  sel structures_ h !! a = Some fs ->
  TypeSystem.get_type (Cas._typesystem self) type_name = Some ty ->
  snd (Cas.select self type_name h') = None /\
  (In (FeatureStructure.type fs) (TypeSystem.children ty ++ [type_name]) ->
   Permutation (fst (Cas.select self type_name h'))
     (a :: fst (Cas.select self type_name h))) /\
  (~ In (FeatureStructure.type fs) (TypeSystem.children ty ++ [type_name]) ->
   Cas.select self type_name h' = Cas.select self type_name h).
Proof.
  intros H Hs0 Hty. apply add_annotation_added in H as (gen & fs1 & view & Hg & Hs & Hv & ->).
  assert (fs1 = fs) as -> by congruence.
  assert (sel views_ (added self a gen fs view h) !! Cas._current_view self
          = Some (View.mk (View.sofa view)
                    (dict_set (FeatureStructure.type fs)
                       (SortedKeyList.add (_sort_func fs) a
                          (View.type_index view (FeatureStructure.type fs)))
                       (View._indices view)))) as Hv'.
  { unfold added. cbn zeta. simpl.
    rewrite list_lookup_insert_eq by (eapply lookup_lt_Some; exact Hv).
    destruct (FeatureStructure.hasattr _ _); reflexivity. }
  unfold Cas.select, Cas._get_feature_structures. rewrite Hty, Hv, Hv'. simpl.
  split; [reflexivity|]. split.
  - intros Hin. apply flat_map_one_more with (T := FeatureStructure.type fs).
    + apply py_set_NoDup.
    + apply py_set_In. exact Hin.
    + rewrite type_index_set, String.eqb_refl. apply values_add.
    + intros n Hn. rewrite type_index_set.
      destruct (String.eqb_spec (FeatureStructure.type fs) n); [congruence | reflexivity].
  - intros Hnotin. f_equal. apply flat_map_ext_in. intros n Hn.
    rewrite type_index_set.
    destruct (String.eqb_spec (FeatureStructure.type fs) n) as [E|E]; [|reflexivity].
    exfalso. apply Hnotin. apply py_set_In. rewrite E. exact Hn.
Qed.

(** The theorem at [staged_heap]: the first span is added, and [select] is
    asked for [Top], the parent of its type. *)
Lemma select_after_add_witness :
  exists h',
    Cas.add_annotation staged_cas 0%nat staged_heap = (Ok tt, h') /\
    snd (Cas.select staged_cas "Top" h') = None /\
    (In (FeatureStructure.type (annotation "Span" 0 4)) (["Span"; "Meta"] ++ ["Top"]) ->
     Permutation (fst (Cas.select staged_cas "Top" h'))
       (0%nat :: fst (Cas.select staged_cas "Top" staged_heap))) /\
    (~ In (FeatureStructure.type (annotation "Span" 0 4)) (["Span"; "Meta"] ++ ["Top"]) ->
     Cas.select staged_cas "Top" h' = Cas.select staged_cas "Top" staged_heap).
Proof.
  eexists. split; [vm_compute; reflexivity|].
  apply (select_after_add staged_cas 0%nat staged_heap _ (annotation "Span" 0 4) "Top"
           (TypeSystem.mkType "Top" "" ["Span"; "Meta"] []));
    vm_compute; reflexivity.
Defined.

(** ** [select_covered] *)

Lemma yield_if_sublist {A} (test : A -> result bool) (f : A -> bool) (l : list A) :
  (forall a, test a = Ok true -> f a = true) ->
  sublist (fst (yield_if test l)) (List.filter f l).
Proof.
  intros Hf. induction l as [|a l IH]; simpl; [constructor|].
  destruct (test a) as [b|e] eqn:E; simpl; [|apply sublist_nil_l].
  destruct (yield_if test l) as [ys o]. simpl in *.
  destruct b.
  - rewrite (Hf a E). apply sublist_skip. exact IH.
  - destruct (f a); [apply sublist_cons|]; exact IH.
Qed.

Lemma map_sublist {A B} (f : A -> B) (l1 l2 : list A) :
  sublist l1 l2 -> sublist (map f l1) (map f l2).
Proof. induction 1; simpl; [constructor | apply sublist_skip | apply sublist_cons]; assumption. Qed.

Lemma filter_sublist {A} (f : A -> bool) (l1 l2 : list A) :
  sublist l1 l2 -> sublist (List.filter f l1) (List.filter f l2).
Proof.
  induction 1 as [|x l1 l2 _ IH|x l1 l2 _ IH]; simpl; [constructor| |].
  - destruct (f x); [apply sublist_skip|]; exact IH.
  - destruct (f x); [apply sublist_cons|]; exact IH.
Qed.

Lemma flat_map_sublist {A B} (f g : A -> list B) (l : list A) :
  (forall x, sublist (f x) (g x)) -> sublist (flat_map f l) (flat_map g l).
Proof.
  intros H. induction l as [|x l IH]; simpl; [constructor|].
  apply sublist_app; [apply H | exact IH].
Qed.

Lemma slice_sublist (l : SortedKeyList.t) i j : sublist (SortedKeyList.slice i j l) l.
Proof.
  unfold SortedKeyList.slice.
  etransitivity; [apply sublist_take | apply sublist_drop].
Qed.

Lemma is_covered_true h c_begin c_end a :
  Cas.is_covered h c_begin c_end a = Ok true -> covered (sel structures_ h) c_begin c_end a = true.
Proof.
  unfold Cas.is_covered, covered.
  destruct (sel structures_ h !! a) as [fs|]; [|discriminate].
  destruct (FeatureStructure.begin fs) as [b|]; [|discriminate].
  rewrite Z.geb_leb. destruct (c_begin <=? b); [|discriminate].
  destruct (FeatureStructure.end_ fs) as [e|]; [|discriminate].
  intros [= ->]. reflexivity.
Qed.

(** X7.  For an anchor with both offsets, what [select_covered] yields is a
    subsequence of what [select] yields for the type, in the same order, and
    every structure in it has both offsets and lies within the anchor
    ([begin >= anchor.begin] and [end <= anchor.end]): the query yields no
    structure that is not covered, none more often than [select] does and
    none out of index order. *)
Theorem select_covered_within (h : heap) (self : Cas.t) (type_name : string)
    (anchor : FeatureStructure.t) (c_begin c_end : Z) :
  FeatureStructure.begin anchor = Some c_begin ->
  FeatureStructure.end_ anchor = Some c_end ->
  sublist (fst (Cas.select_covered self type_name anchor h))
    (List.filter (covered (sel structures_ h) c_begin c_end)
       (fst (Cas.select self type_name h))).
Proof.
  intros Hb He. unfold Cas.select_covered, Cas.filter_gen. rewrite Hb, He.
  destruct (yield_if _ _) as [ys o] eqn:Ey. simpl.
  change ys with (fst (ys, o)). rewrite <- Ey.
  etransitivity.
  { apply (yield_if_sublist _ (covered (sel structures_ h) c_begin c_end)).
    intros a. apply is_covered_true. }
  apply filter_sublist.
  unfold Cas.select, Cas._get_feature_structures, Cas._get_feature_structures_in_range.
  destruct (TypeSystem.get_type _ _); [|constructor].
  destruct (sel views_ h !! _); [|constructor]. simpl.
  apply flat_map_sublist. intros name. apply map_sublist, slice_sublist.
Qed.

(** The theorem at the document of spec section 8 and the anchor [[0,10)]. *)
Lemma select_covered_within_witness :
  sublist (fst (Cas.select_covered abc_cas "Span" (annotation "Anchor" 0 10) abc_heap))
    (List.filter (covered (sel structures_ abc_heap) 0 10)
       (fst (Cas.select abc_cas "Span" abc_heap))).
Proof.
  apply (select_covered_within abc_heap abc_cas "Span" (annotation "Anchor" 0 10) 0 10);
    reflexivity.
Defined.

Lemma bisect_key_left_le q (l : SortedKeyList.t) p e :
  l !! p = Some e -> key_ltb (fst e) q = false ->
  (SortedKeyList.bisect_key_left q l <= p)%nat.
Proof.
  revert p. induction l as [|[k' v'] l IH]; intros p Hp Hq; [destruct p; discriminate|].
  simpl. destruct p as [|p]; simpl in Hp.
  - injection Hp as <-. simpl in Hq. rewrite Hq. lia.
  - destruct (key_ltb k' q); [|lia]. specialize (IH p Hp Hq). lia.
Qed.

Lemma bisect_key_right_gt q (l : SortedKeyList.t) p e :
  sorted l -> l !! p = Some e -> key_leb (fst e) q = true ->
  (p < SortedKeyList.bisect_key_right q l)%nat.
Proof.
  revert p. induction l as [|[k' v'] l IH]; intros p Hs Hp Hq; [destruct p; discriminate|].
  apply sorted_cons in Hs as [Hs Hf]. simpl. destruct p as [|p]; simpl in Hp.
  - injection Hp as <-. simpl in Hq. rewrite Hq. lia.
  - assert (key_leb k' q = true) as Hk.
    { rewrite Forall_forall in Hf.
      assert (key_le k' (fst e)) as Hle.
      { apply (Hf e). eapply list_elem_of_lookup_2. exact Hp. }
      eapply key_le_trans; [exact Hle | exact Hq]. }
    rewrite Hk. specialize (IH p Hs Hp Hq). lia.
Qed.

Lemma window_contains (l : SortedKeyList.t) p e (c_begin c_end : Z) :
  sorted l -> l !! p = Some e ->
  key_ltb (fst e) (c_begin, c_end) = false ->
  key_leb (fst e) (c_end, c_begin) = true ->
  In e (Cas.window c_begin c_end l).
Proof.
  intros Hs Hp Hlo Hhi. unfold Cas.window, SortedKeyList.slice.
  pose proof (bisect_key_left_le _ _ _ _ Hp Hlo) as Hl.
  pose proof (bisect_key_right_gt _ _ _ _ Hs Hp Hhi) as Hr.
  pose proof (lookup_lt_Some _ _ _ Hp) as Hlen.
  set (i := Z.to_nat _). set (j := Nat.min _ _).
  assert (i <= p)%nat as Hi by (unfold i; lia).
  assert (p < j)%nat as Hj by (unfold j; lia).
  apply list_elem_of_In. apply (list_elem_of_lookup_2 _ (p - i)%nat).
  rewrite lookup_take_lt by lia. rewrite lookup_drop.
  replace (i + (p - i))%nat with p by lia. exact Hp.
Qed.

Lemma is_covered_positional h c_begin c_end a :
  positional (sel structures_ h) a = true ->
  Cas.is_covered h c_begin c_end a = Ok (covered (sel structures_ h) c_begin c_end a).
Proof.
  unfold positional, Cas.is_covered, covered.
  destruct (sel structures_ h !! a) as [fs|]; [|discriminate].
  destruct (FeatureStructure.begin fs) as [b|]; [|discriminate].
  destruct (FeatureStructure.end_ fs) as [e|]; [|discriminate].
  intros _. rewrite Z.geb_leb. destruct (c_begin <=? b); reflexivity.
Qed.

(** X8.  Let the buckets [select_covered] draws from (the type's and its
    child types') be sorted by key and hold structures under the key of
    their two offsets, as [add_annotation] enters them.  Then, for a type
    the type system knows and an anchor with both offsets, the query raises
    nothing and yields every structure of those buckets that begins after
    the anchor's begin, begins before the anchor's end and ends at or before
    the anchor's end. *)
Theorem select_covered_inner (h : heap) (self : Cas.t) (type_name : string)
    (anchor : FeatureStructure.t) (ty : TypeSystem.Type_) (v : View.t)
    (c_begin c_end : Z) :
  TypeSystem.get_type (Cas._typesystem self) type_name = Some ty ->
  FeatureStructure.begin anchor = Some c_begin ->
  FeatureStructure.end_ anchor = Some c_end ->
  sel views_ h !! Cas._current_view self = Some v ->
  (forall name, In name (Cas.candidate_types ty type_name) ->
     sorted (View.type_index v name) /\
     Forall (fun e : key * addr =>
               exists fs, sel structures_ h !! snd e = Some fs /\
                 FeatureStructure.begin fs = Some (fst (fst e)) /\
                 FeatureStructure.end_ fs = Some (snd (fst e)))
       (View.type_index v name)) ->
  snd (Cas.select_covered self type_name anchor h) = None /\
  forall name a fs b e,
    In name (Cas.candidate_types ty type_name) ->
    In a (SortedKeyList.values (View.type_index v name)) ->
    sel structures_ h !! a = Some fs ->
    FeatureStructure.begin fs = Some b ->
    FeatureStructure.end_ fs = Some e ->
    c_begin < b -> b < c_end -> e <= c_end ->
    In a (fst (Cas.select_covered self type_name anchor h)).
Proof.
  intros Hty Hb He Hv Hbuckets.
  unfold Cas.select_covered, Cas.filter_gen, Cas._get_feature_structures_in_range.
  rewrite Hb, He, Hty, Hv. simpl.
  rewrite (yield_if_filter _ (covered (sel structures_ h) c_begin c_end)).
  - simpl. split; [reflexivity|].
    intros name a fs b e Hname Ha Hfs Hfb Hfe Hlo Hmid Hhi.
    destruct (Hbuckets name Hname) as [Hsorted Hkeys].
    apply List.filter_In. split.
    + apply in_flat_map. exists name. split; [exact Hname|].
      unfold SortedKeyList.values in *. apply in_map_iff in Ha as ([k a'] & Hsnd & Hin).
      simpl in Hsnd. subst a'. apply in_map_iff. exists (k, a). split; [reflexivity|].
      apply list_elem_of_In, list_elem_of_lookup in Hin as [p Hp].
      rewrite Forall_forall in Hkeys.
      destruct (Hkeys (k, a)) as (fs' & Hfs' & Hkb & Hke).
      { eapply list_elem_of_lookup_2. exact Hp. }
      simpl in Hfs', Hkb, Hke, Hfs.
      assert (fs' = fs) as -> by congruence.
      assert (k = (b, e)) as -> by (destruct k; simpl in *; congruence).
      eapply window_contains; [exact Hsorted | exact Hp | |].
      * simpl. unfold key_ltb. simpl.
        destruct (Z.ltb_spec b c_begin); [lia|].
        destruct (Z.eqb_spec b c_begin); [lia|]. reflexivity.
      * simpl. unfold key_leb. simpl.
        destruct (Z.ltb_spec b c_end); [reflexivity | lia].
    + unfold covered. simpl in Hfs. simpl. rewrite Hfs, Hfb, Hfe.
      apply andb_true_iff. split; [apply Z.leb_le; lia | apply Z.leb_le; lia].
  - intros a Ha. apply is_covered_positional.
    apply in_flat_map in Ha as (name & Hname & Hin).
    destruct (Hbuckets name Hname) as [_ Hkeys].
    unfold SortedKeyList.values in Hin. apply in_map_iff in Hin as (e & <- & Hin).
    apply slice_subset in Hin.
    rewrite Forall_forall in Hkeys.
    destruct (Hkeys e) as (fs & Hfs & Hkb & Hke); [apply list_elem_of_In; exact Hin|].
    unfold positional. rewrite Hfs, Hkb, Hke. reflexivity.
Qed.

(** The theorem at the document of spec section 8, the type [Span] and the
    anchor [[0,10)]. *)
Lemma select_covered_inner_witness :
  exists v,
    sel views_ abc_heap !! Cas._current_view abc_cas = Some v /\
    snd (Cas.select_covered abc_cas "Span" (annotation "Anchor" 0 10) abc_heap) = None /\
    forall name a fs b e,
      In name (Cas.candidate_types (TypeSystem.mkType "Span" "Top" [] []) "Span") ->
      In a (SortedKeyList.values (View.type_index v name)) ->
      sel structures_ abc_heap !! a = Some fs ->
      FeatureStructure.begin fs = Some b ->
      FeatureStructure.end_ fs = Some e ->
      0 < b -> b < 10 -> e <= 10 ->
      In a (fst (Cas.select_covered abc_cas "Span" (annotation "Anchor" 0 10) abc_heap)).
Proof.
  eexists. split; [vm_compute; reflexivity|].
  apply (select_covered_inner abc_heap abc_cas "Span" (annotation "Anchor" 0 10)
           (TypeSystem.mkType "Span" "Top" [] [])); try reflexivity.
  intros name Hname. vm_compute in Hname. destruct Hname as [<-|[]]. split.
  - vm_compute. repeat constructor.
  - repeat (apply Forall_cons; split; [eexists; vm_compute; repeat split|]).
    apply Forall_nil. exact I.
Defined.

(** ** The text of a view *)

Lemma string_of_list_ascii_app (l1 l2 : list ascii) :
  string_of_list_ascii (l1 ++ l2)
    = (string_of_list_ascii l1 ++ string_of_list_ascii l2)%string.
Proof. induction l1 as [|c l1 IH]; simpl; [reflexivity | rewrite IH; reflexivity]. Qed.

Lemma string_of_list_ascii_length (l : list ascii) :
  String.length (string_of_list_ascii l) = length l.
Proof. induction l as [|c l IH]; simpl; [reflexivity | rewrite IH; reflexivity]. Qed.

Lemma list_ascii_of_string_length (s : string) :
  length (list_ascii_of_string s) = String.length s.
Proof. induction s as [|c s IH]; simpl; [reflexivity | rewrite IH; reflexivity]. Qed.

Lemma slice_index_nonneg (len i : Z) :
  0 <= i -> 0 <= len -> slice_index len i = Z.to_nat (Z.min i len).
Proof.
  intros Hi Hlen. unfold slice_index. destruct (Z.ltb_spec i 0); [lia | reflexivity].
Qed.

Lemma py_slice_adjacent {A} (l : list A) (b m e : Z) :
  0 <= b -> b <= m -> m <= e ->
  py_slice l b m ++ py_slice l m e = py_slice l b e.
Proof.
  intros Hb Hm He. unfold py_slice.
  rewrite !slice_index_nonneg by lia.
  set (B := Z.to_nat (Z.min b _)). set (M := Z.to_nat (Z.min m _)).
  set (E := Z.to_nat (Z.min e _)).
  assert (B <= M)%nat by (unfold B, M; lia).
  assert (M <= E)%nat by (unfold M, E; lia).
  replace (drop M l) with (drop (M - B) (drop B l))
    by (rewrite drop_drop; f_equal; lia).
  rewrite take_take_drop. f_equal. lia.
Qed.

Lemma py_slice_length {A} (l : list A) (b e : Z) :
  0 <= b -> b <= e ->
  Z.of_nat (length (py_slice l b e))
    = Z.min e (Z.of_nat (length l)) - Z.min b (Z.of_nat (length l)).
Proof.
  intros Hb He. unfold py_slice. rewrite !slice_index_nonneg by lia.
  rewrite length_take, length_drop. lia.
Qed.

(** X9.  [get_covered_text] on a view whose Sofa holds a text: for offsets
    [0 <= b <= m <= e] the text covered by [[b, m)] followed by the text
    covered by [[m, e)] is the text covered by [[b, e)], also when the
    offsets reach beyond the end of the text; the text covered by [[b, m)]
    has [min(m, len) - min(b, len)] characters; the store is not changed;
    and a structure without offsets raises [AttributeError]. *)
Theorem get_covered_text_adjacent (h : heap) (self : Cas.t) (s : addr) (sofa : Sofa.t)
    (text ty : string) (b m e : Z) :
  Cas.get_sofa self h = (Ok s, h) ->
  sel sofas_ h !! s = Some sofa ->
  Sofa.sofaString sofa = VStr text ->
  0 <= b -> b <= m -> m <= e ->
  exists t1 t2,
    Cas.get_covered_text self (annotation ty b m) h = (Ok (VStr t1), h) /\
    Cas.get_covered_text self (annotation ty m e) h = (Ok (VStr t2), h) /\
    Cas.get_covered_text self (annotation ty b e) h = (Ok (VStr (t1 ++ t2)), h) /\
    Z.of_nat (String.length t1)
      = Z.min m (Z.of_nat (String.length text)) - Z.min b (Z.of_nat (String.length text)) /\
    Cas.get_covered_text self (plain ty) h = (Raise AttributeError, h).
Proof.
  intros Hsofa Hs Htext Hb Hm He.
  assert (forall x y, Cas.get_covered_text self (annotation ty x y) h
                      = (Ok (VStr (str_slice text x y)), h)) as Hget.
  { intros x y. unfold Cas.get_covered_text.
    rewrite (bind_ok _ _ _ _ _ Hsofa). rewrite (bind_get _ _ _ _ _ Hs).
    simpl. rewrite Htext. reflexivity. }
  exists (str_slice text b m), (str_slice text m e).
  rewrite !Hget. split; [reflexivity|]. split; [reflexivity|]. split; [|split].
  - unfold str_slice. rewrite <- string_of_list_ascii_app.
    rewrite py_slice_adjacent by lia. reflexivity.
  - unfold str_slice. rewrite string_of_list_ascii_length.
    rewrite py_slice_length by lia. rewrite list_ascii_of_string_length. reflexivity.
  - unfold Cas.get_covered_text.
    rewrite (bind_ok _ _ _ _ _ Hsofa). rewrite (bind_get _ _ _ _ _ Hs). reflexivity.
Qed.

(** The theorem at [text_heap], whose initial view holds the text
    [Hello world]: the spans [[0, 5)] and [[5, 20)]. *)
Lemma get_covered_text_adjacent_witness :
  exists t1 t2,
    Cas.get_covered_text staged_cas (annotation "Span" 0 5) text_heap = (Ok (VStr t1), text_heap) /\
    Cas.get_covered_text staged_cas (annotation "Span" 5 20) text_heap = (Ok (VStr t2), text_heap) /\
    Cas.get_covered_text staged_cas (annotation "Span" 0 20) text_heap
      = (Ok (VStr (t1 ++ t2)), text_heap) /\
    Z.of_nat (String.length t1)
      = Z.min 5 (Z.of_nat (String.length "Hello world"))
        - Z.min 0 (Z.of_nat (String.length "Hello world")) /\
    Cas.get_covered_text staged_cas (plain "Span") text_heap = (Raise AttributeError, text_heap).
Proof.
  apply (get_covered_text_adjacent text_heap staged_cas 0%nat
           (Sofa.mk 1 1 "_InitialView" (VStr "Hello world") VNone VNone VNone)
           "Hello world" "Span" 0 5 20);
    try (vm_compute; reflexivity); lia.
Defined.

Lemma set_payload_inv p (self : Cas.t) v h h' :
  set_payload p self v h = (Ok tt, h') ->
  exists view sofa,
    sel views_ h !! Cas._current_view self = Some view /\
    sel sofas_ h !! View.sofa view = Some sofa /\
    h' = upd sofas_
           (<[View.sofa view :=
                match p with
                | SofaString => Sofa.set_sofaString v sofa
                | SofaMime => Sofa.set_mimeType v sofa
                | SofaUri => Sofa.set_sofaURI v sofa
                end]> (sel sofas_ h)) h.
Proof.
  intros H.
  assert (exists f, set_payload p self v
                    = (let! s := Cas.get_sofa self in modify sofas_ s f) /\
                    forall sofa, f sofa = match p with
                                          | SofaString => Sofa.set_sofaString v sofa
                                          | SofaMime => Sofa.set_mimeType v sofa
                                          | SofaUri => Sofa.set_sofaURI v sofa
                                          end) as (f & Hf & Hfs).
  { destruct p; eexists; split; reflexivity. }
  rewrite Hf in H. apply bind_inv in H as (s & h1 & Hs & H).
  unfold Cas.get_sofa in Hs. apply bind_inv in Hs as (view & h2 & Hv & Hs).
  apply get_inv in Hv as [-> Hv]. apply ret_inv in Hs as [-> ->].
  apply modify_inv in H as (sofa & Hsofa & ->).
  exists view, sofa. rewrite <- Hfs. auto.
Qed.

Lemma get_payload_at q (c : Cas.t) h view sofa :
  sel views_ h !! Cas._current_view c = Some view ->
  sel sofas_ h !! View.sofa view = Some sofa ->
  get_payload q c h =
    (Ok match q with
        | SofaString => Sofa.sofaString sofa
        | SofaMime => Sofa.mimeType sofa
        | SofaUri => Sofa.sofaURI sofa
        end, h).
Proof.
  intros Hv Hs.
  destruct q; unfold get_payload, Cas.sofa_string, Cas.sofa_mime, Cas.sofa_uri, Cas.get_sofa;
    rewrite bind_assoc, (bind_get _ _ _ _ _ Hv), bind_ret, (bind_get _ _ _ _ _ Hs);
    reflexivity.
Qed.

(** X10.  The setters and getters of [sofa_string], [sofa_mime] and
    [sofa_uri]: what a setter stored is what the getter of the same field
    returns, through the handle and through every handle whose current view
    has the same Sofa; the other two fields of that Sofa read as before, and
    so does every field through a handle whose current view has another
    Sofa. *)
Theorem sofa_payload_round_trip (self other : Cas.t) (p q : payload) (v : value)
    (h h' : heap) :
  set_payload p self v h = (Ok tt, h') ->
  get_payload p self h' = (Ok v, h') /\
  (q <> p -> fst (get_payload q self h') = fst (get_payload q self h)) /\
  (forall s s',
     Cas.get_sofa self h = (Ok s, h) ->
     Cas.get_sofa other h = (Ok s', h) ->
     (s' = s -> get_payload p other h' = (Ok v, h')) /\
     (s' <> s -> fst (get_payload q other h') = fst (get_payload q other h))).
Proof.
  intros H. apply set_payload_inv in H as (view & sofa & Hv & Hs & ->).
  assert (forall s, sel sofas_ h !! s = Some sofa -> forall x,
            sel sofas_ (upd sofas_ (<[s := x]> (sel sofas_ h)) h) !! s = Some x) as Hnew.
  { intros s Hsome x. simpl. apply list_lookup_insert_eq. eapply lookup_lt_Some. exact Hsome. }
  split.
  { erewrite get_payload_at; [|exact Hv|apply Hnew; exact Hs]. destruct p; reflexivity. }
  split.
  { intros Hne. erewrite get_payload_at; [|exact Hv|apply Hnew; exact Hs].
    erewrite (get_payload_at q self h); [|exact Hv|exact Hs].
    destruct p, q; try reflexivity; contradiction. }
  intros s s' Hself Hother.
  unfold Cas.get_sofa in Hself, Hother.
  apply bind_inv in Hself as (view1 & h1 & Hv1 & Hself).
  apply get_inv in Hv1 as [-> Hv1]. apply ret_inv in Hself as [-> _].
  apply bind_inv in Hother as (view2 & h2 & Hv2 & Hother).
  apply get_inv in Hv2 as [-> Hv2]. apply ret_inv in Hother as [-> _].
  assert (view1 = view) as -> by congruence.
  split.
  - intros Heq. erewrite get_payload_at; [|exact Hv2|rewrite Heq; apply Hnew; exact Hs].
    destruct p; reflexivity.
  - intros Hne.
    destruct (sel sofas_ h !! View.sofa view2) as [sofa2|] eqn:Hs2.
    + erewrite get_payload_at; [|exact Hv2|simpl; rewrite list_lookup_insert_ne by congruence; exact Hs2].
      erewrite (get_payload_at q other h); [|exact Hv2|exact Hs2]. reflexivity.
    + assert (forall g, sel views_ g !! Cas._current_view other = Some view2 ->
                sel sofas_ g !! View.sofa view2 = None ->
                fst (get_payload q other g) = Raise BadAddress) as Hbad.
      { intros g Hgv Hgs.
        destruct q; unfold get_payload, Cas.sofa_string, Cas.sofa_mime, Cas.sofa_uri,
          Cas.get_sofa;
          rewrite bind_assoc, (bind_get _ _ _ _ _ Hgv), bind_ret;
          unfold bind, get; rewrite Hgs; reflexivity. }
      rewrite (Hbad h Hv2 Hs2). apply Hbad; [exact Hv2|].
      simpl. rewrite list_lookup_insert_ne by congruence. exact Hs2.
Qed.

(** The theorem at [staged_heap]: the text of the initial view is set, and
    the MIME type is read, through the handle of the document and through
    the handle on the view [X]. *)
Lemma sofa_payload_round_trip_witness :
  exists h',
    set_payload SofaString staged_cas (VStr "Hello world") staged_heap = (Ok tt, h') /\
    get_payload SofaString staged_cas h' = (Ok (VStr "Hello world"), h') /\
    (SofaMime <> SofaString ->
     fst (get_payload SofaMime staged_cas h') = fst (get_payload SofaMime staged_cas staged_heap)) /\
    (forall s s',
       Cas.get_sofa staged_cas staged_heap = (Ok s, staged_heap) ->
       Cas.get_sofa staged_x staged_heap = (Ok s', staged_heap) ->
       (s' = s -> get_payload SofaString staged_x h' = (Ok (VStr "Hello world"), h')) /\
       (s' <> s ->
        fst (get_payload SofaMime staged_x h') = fst (get_payload SofaMime staged_x staged_heap))).
Proof.
  eexists. split; [vm_compute; reflexivity|].
  apply (sofa_payload_round_trip staged_cas staged_x SofaString SofaMime (VStr "Hello world")
           staged_heap).
  vm_compute. reflexivity.
Defined.

(** ** The deserializer's passes over the attributes of a record *)

Lemma dict_pop_filter {V} k (d : dict V) :
  List.NoDup (dict_keys d) ->
  dict_pop k d = List.filter (fun kv => negb (String.eqb (fst kv) k)) d.
Proof.
  induction d as [|[k' v] d IH]; intros Hnd; simpl; [reflexivity|].
  simpl in Hnd. apply List.NoDup_cons_iff in Hnd as [Hk Hnd].
  rewrite (String.eqb_sym k' k).
  destruct (String.eqb_spec k k') as [->|Hne]; simpl.
  - symmetry. rewrite List.forallb_filter_id; [reflexivity|].
    apply forallb_forall. intros [k0 v0] Hin. simpl.
    destruct (String.eqb_spec k0 k') as [->|]; [|reflexivity].
    exfalso. apply Hk. unfold dict_keys. apply in_map_iff. exists (k', v0). auto.
  - rewrite IH by exact Hnd. reflexivity.
Qed.

Lemma dict_keys_NoDup_filter {V} (p : string * V -> bool) (d : dict V) :
  List.NoDup (dict_keys d) -> List.NoDup (dict_keys (List.filter p d)).
Proof.
  induction d as [|[k v] d IH]; intros Hnd; simpl; [constructor|].
  simpl in Hnd. apply List.NoDup_cons_iff in Hnd as [Hk Hnd].
  destruct (p (k, v)); [|auto]. simpl. constructor; [|auto].
  intros Hin. apply Hk. eapply dict_keys_filter. exact Hin.
Qed.

Lemma filter_filter {A} (p q : A -> bool) (l : list A) :
  List.filter p (List.filter q l) = List.filter (fun x => q x && p x) l.
Proof.
  induction l as [|x l IH]; simpl; [reflexivity|].
  destruct (q x); simpl; [destruct (p x)|]; rewrite IH; reflexivity.
Qed.

Lemma strip_loop_filter (keys : list string) : forall d : dict value,
  List.NoDup (dict_keys d) ->
  CasJsonDeserializer.strip_loop keys d =
    List.filter
      (fun kv => negb (str_in (fst kv) keys && startswith RESERVED_FIELD_PREFIX (fst kv))) d.
Proof.
  induction keys as [|key keys IH]; intros d Hnd; simpl.
  - symmetry. apply List.forallb_filter_id. apply forallb_forall. reflexivity.
  - destruct (startswith RESERVED_FIELD_PREFIX key) eqn:E.
    + rewrite IH; rewrite dict_pop_filter by exact Hnd; [|apply dict_keys_NoDup_filter, Hnd].
      rewrite filter_filter. apply List.filter_ext. intros [k v]. simpl.
      destruct (String.eqb_spec k key) as [->|Hne]; simpl; [rewrite E|]; reflexivity.
    + rewrite IH by exact Hnd. apply List.filter_ext. intros [k v]. simpl.
      destruct (String.eqb_spec k key) as [->|Hne]; simpl; [|reflexivity].
      rewrite E, andb_false_r. destruct (str_in key keys); reflexivity.
Qed.

(** X11.  The loop of [_strip_reserved_json_keys], on a dict, removes the
    items whose key starts with [%] and nothing else: the items that remain
    are the other items of the dict, in their order and with their values. *)
Theorem strip_reserved_json_keys_filter (attributes : dict value) :
  List.NoDup (dict_keys attributes) ->
  CasJsonDeserializer.strip_loop (dict_keys attributes) attributes
    = CasJsonDeserializer._strip_reserved_json_keys attributes /\
  forall k v,
    In (k, v) (CasJsonDeserializer.strip_loop (dict_keys attributes) attributes) <->
    In (k, v) attributes /\ startswith RESERVED_FIELD_PREFIX k = false.
Proof.
  intros Hnd.
  assert (CasJsonDeserializer.strip_loop (dict_keys attributes) attributes
          = CasJsonDeserializer._strip_reserved_json_keys attributes) as Heq.
  { rewrite strip_loop_filter by exact Hnd.
    unfold CasJsonDeserializer._strip_reserved_json_keys.
    apply List.filter_ext_in. intros [k v] Hin. simpl.
    replace (str_in k (dict_keys attributes)) with true; [reflexivity|].
    symmetry. unfold str_in. apply existsb_exists. exists k. split.
    - unfold dict_keys. apply in_map_iff. exists (k, v). auto.
    - apply String.eqb_refl. }
  split; [exact Heq|]. intros k v. rewrite Heq.
  unfold CasJsonDeserializer._strip_reserved_json_keys.
  rewrite List.filter_In. simpl. rewrite negb_true_iff. reflexivity.
Qed.

(** The theorem at the attributes of a record with two reserved keys. *)
Lemma strip_reserved_json_keys_filter_witness :
  CasJsonDeserializer.strip_loop (dict_keys two_ref_attributes) two_ref_attributes
    = CasJsonDeserializer._strip_reserved_json_keys two_ref_attributes /\
  forall k v,
    In (k, v) (CasJsonDeserializer.strip_loop (dict_keys two_ref_attributes) two_ref_attributes) <->
    In (k, v) two_ref_attributes /\ startswith RESERVED_FIELD_PREFIX k = false.
Proof.
  apply (strip_reserved_json_keys_filter two_ref_attributes).
  vm_compute. repeat constructor; simpl; intuition discriminate.
Defined.

Lemma table_lookup_hashable tb v :
  (hashable v = true -> exists o, table_lookup tb v = Ok o) /\
  (hashable v = false -> table_lookup tb v = Raise TypeError).
Proof.
  destruct v as [| | | | | | |[]]; simpl; split; intros H;
    try discriminate; try reflexivity; eexists; reflexivity.
Qed.

(** What the loop of [_resolve_references] leaves in the variables that the
    fix-ups close over, and how many fix-ups it appends. *)
Lemma resolve_loop_frame tb items : forall fr fr',
  CasJsonDeserializer.resolve_loop items tb fr = Ok fr' ->
  CasJsonDeserializer.appended fr'
    = (CasJsonDeserializer.appended fr + length (List.filter (deferred tb) items))%nat /\
  CasJsonDeserializer.value_ fr'
    = match last items with
      | Some kv => Some (snd kv)
      | None => CasJsonDeserializer.value_ fr
      end /\
  CasJsonDeserializer.feature_name fr'
    = match last (List.filter (fun kv => startswith REF_FEATURE_PREFIX (fst kv)) items) with
      | Some kv => Some (tail (fst kv))
      | None => CasJsonDeserializer.feature_name fr
      end.
Proof.
  induction items as [|[key v] items IH]; intros fr fr' H; simpl in H.
  - injection H as <-. simpl. rewrite Nat.add_0_r. auto.
  - rewrite last_cons. cbn [List.filter fst snd].
    destruct (startswith REF_FEATURE_PREFIX key) eqn:Eref.
    + rewrite last_cons.
      assert (deferred tb (key, v)
              = match table_lookup tb v with Ok None => true | _ => false end) as Hd.
      { unfold deferred. simpl. rewrite Eref. reflexivity. }
      rewrite Hd.
      destruct (table_lookup tb v) as [[target|]|] eqn:El; [| |discriminate];
        apply IH in H as (Ha & Hv & Hn); simpl in Ha, Hv, Hn; rewrite Ha, Hv, Hn.
      * split; [reflexivity|]. split.
        -- destruct (last items); reflexivity.
        -- destruct (last (List.filter _ items)); reflexivity.
      * split; [simpl; lia|]. split.
        -- destruct (last items); reflexivity.
        -- destruct (last (List.filter _ items)); reflexivity.
    + assert (deferred tb (key, v) = false) as Hd.
      { unfold deferred. simpl. rewrite Eref. reflexivity. }
      rewrite Hd.
      apply IH in H as (Ha & Hv & Hn). simpl in Ha, Hv, Hn.
      rewrite Ha, Hv, Hn. split; [reflexivity|]. split; [|reflexivity].
      destruct (last items); reflexivity.
Qed.

Lemma resolve_loop_raises tb items : forall fr,
  (forall k v, In (k, v) items -> startswith REF_FEATURE_PREFIX k = true -> hashable v = true) ->
  exists fr', CasJsonDeserializer.resolve_loop items tb fr = Ok fr'.
Proof.
  induction items as [|[key v] items IH]; intros fr H; simpl; [eexists; reflexivity|].
  assert (forall k v0, In (k, v0) items -> startswith REF_FEATURE_PREFIX k = true ->
            hashable v0 = true) as H' by (intros k v0 Hin; apply H; right; exact Hin).
  destruct (startswith REF_FEATURE_PREFIX key) eqn:Eref; [|apply IH, H'].
  destruct (proj1 (table_lookup_hashable tb v)) as [o Ho].
  { apply (H key v); [left; reflexivity | exact Eref]. }
  rewrite Ho. destruct o; apply IH, H'.
Qed.

Lemma resolve_loop_error tb items : forall fr,
  (exists k v, In (k, v) items /\ startswith REF_FEATURE_PREFIX k = true /\ hashable v = false) ->
  CasJsonDeserializer.resolve_loop items tb fr = Raise TypeError.
Proof.
  induction items as [|[key v] items IH]; intros fr (k & v0 & Hin & Href & Hh);
    [destruct Hin|]. simpl.
  destruct Hin as [[= -> ->]|Hin].
  - rewrite Href. rewrite (proj2 (table_lookup_hashable tb v0) Hh). reflexivity.
  - assert (forall fr0, CasJsonDeserializer.resolve_loop items tb fr0 = Raise TypeError) as Hrest.
    { intros fr0. apply IH. exists k, v0. auto. }
    destruct (startswith REF_FEATURE_PREFIX key); [|apply Hrest].
    destruct (hashable v) eqn:Ev.
    + destruct (proj1 (table_lookup_hashable tb v) Ev) as [o ->]. destruct o; apply Hrest.
    + rewrite (proj2 (table_lookup_hashable tb v) Ev). reflexivity.
Qed.

(** X12.  [_resolve_references] on the attributes of a record none of
    whose reference items ([@name]) holds a feature structure, as is the
    case of the records JSON gives.  It raises, and then [TypeError], when
    some reference item has a list, a dict or a Sofa as its value.
    Otherwise it registers one fix-up per reference item whose value is not
    an identifier of the table; the fix-ups of one call all write to the
    [attributes] dict of the call and, the closures sharing the variables of
    the loop, all use the name of the last reference item and the value of
    the last item of the dict. *)
Theorem resolve_references_fix_ups (self : CasJsonDeserializer.t) (dict_addr : addr)
    (attributes : dict value) :
  (forall k v, In (k, v) attributes -> startswith REF_FEATURE_PREFIX k = true ->
               is_structure v = false) ->
  ((exists k v, In (k, v) attributes /\ startswith REF_FEATURE_PREFIX k = true /\
                hashable v = false) ->
   CasJsonDeserializer._resolve_references self dict_addr attributes = Raise TypeError) /\
  ((forall k v, In (k, v) attributes -> startswith REF_FEATURE_PREFIX k = true ->
                hashable v = true) ->
   exists attributes' fix_ups,
     CasJsonDeserializer._resolve_references self dict_addr attributes
       = Ok (attributes', fix_ups) /\
     length fix_ups
       = length (List.filter (deferred (CasJsonDeserializer.feature_structures self))
                   attributes) /\
     forall f, In f fix_ups ->
       CasJsonDeserializer.fix_attributes f = dict_addr /\
       (exists kv, last attributes = Some kv /\ CasJsonDeserializer.fix_value f = snd kv) /\
       (exists kv,
          last (List.filter (fun kv => startswith REF_FEATURE_PREFIX (fst kv)) attributes)
            = Some kv /\
          CasJsonDeserializer.fix_feature_name f = tail (fst kv))).
Proof.
  intros _. unfold CasJsonDeserializer._resolve_references. split.
  - intros H. rewrite (resolve_loop_error _ _ _ H). reflexivity.
  - intros H.
    destruct (resolve_loop_raises (CasJsonDeserializer.feature_structures self) attributes
                (CasJsonDeserializer.mkFrame attributes None None 0%nat) H) as [fr Hfr].
    rewrite Hfr. apply resolve_loop_frame in Hfr as (Ha & Hv & Hn). simpl in Ha, Hv, Hn.
    rewrite Hn, Hv.
    destruct (last (List.filter _ attributes)) as [kn|] eqn:Elast.
    + destruct (last attributes) as [kl|] eqn:Elast'.
      * do 2 eexists. split; [reflexivity|]. split; [rewrite repeat_length; exact Ha|].
        intros f Hf. apply repeat_spec in Hf. subst f. simpl.
        split; [reflexivity|]. split; eexists; split; reflexivity.
      * apply last_None in Elast'. subst attributes. discriminate Elast.
    + do 2 eexists. split; [reflexivity|]. split; [|intros f []].
      simpl. apply last_None in Elast.
      assert (List.filter (deferred (CasJsonDeserializer.feature_structures self)) attributes = [])
        as ->; [|reflexivity].
      clear -Elast. induction attributes as [|[k v] l IH]; [reflexivity|].
      simpl in Elast. unfold deferred at 1. simpl.
      destruct (startswith REF_FEATURE_PREFIX k); [discriminate|]. simpl. apply IH, Elast.
Qed.

(** The theorem at a record whose first reference is in the table and whose
    second is not: one fix-up, with the name [prev] and the value of the
    record's last item, the label. *)
Lemma resolve_references_fix_ups_witness :
  exists attributes' fix_ups,
    CasJsonDeserializer._resolve_references seen_three 0%nat two_ref_attributes
      = Ok (attributes', fix_ups) /\
    length fix_ups
      = length (List.filter (deferred (CasJsonDeserializer.feature_structures seen_three))
                  two_ref_attributes) /\
    forall f, In f fix_ups ->
      CasJsonDeserializer.fix_attributes f = 0%nat /\
      (exists kv, last two_ref_attributes = Some kv /\
                  CasJsonDeserializer.fix_value f = snd kv) /\
      (exists kv,
         last (List.filter (fun kv => startswith REF_FEATURE_PREFIX (fst kv))
                 two_ref_attributes) = Some kv /\
         CasJsonDeserializer.fix_feature_name f = tail (fst kv)).
Proof.
  assert (forall k v, In (k, v) two_ref_attributes ->
            startswith REF_FEATURE_PREFIX k = true -> is_structure v = false) as Hjson.
  { intros k v Hin _. simpl in Hin.
    repeat (destruct Hin as [[= <- <-]|Hin]; [reflexivity|]). destruct Hin. }
  apply (proj2 (resolve_references_fix_ups seen_three 0%nat two_ref_attributes Hjson)).
  intros k v Hin Href. simpl in Hin.
  repeat (destruct Hin as [[= <- <-]|Hin]; [try reflexivity; discriminate Href|]).
  destruct Hin.
Defined.

Example resolve_references_two_refs :
  CasJsonDeserializer._resolve_references seen_three 0%nat two_ref_attributes
    = Ok ([("%ID", VInt 2); ("%TYPE", VStr "Node"); ("label", VStr "a");
           ("next", VObj (OFs 0%nat))],
          [CasJsonDeserializer.mkFixUp 0%nat "prev" (VStr "a")]).
Proof. vm_compute. reflexivity. Qed.

Lemma dict_get_pop_ne {V} k key (d : dict V) :
  k <> key -> dict_get k (dict_pop key d) = dict_get k d.
Proof.
  intros Hne. induction d as [|[k' v] d IH]; simpl; [reflexivity|].
  destruct (String.eqb_spec key k') as [->|Hk]; simpl.
  - destruct (String.eqb_spec k k'); [contradiction | reflexivity].
  - rewrite IH. reflexivity.
Qed.

Lemma dict_get_pop_eq {V} key (d : dict V) :
  List.NoDup (dict_keys d) -> dict_get key (dict_pop key d) = None.
Proof.
  intros Hnd. rewrite dict_pop_filter by exact Hnd.
  apply dict_get_None. intros Hin. unfold dict_keys in Hin.
  apply in_map_iff in Hin as ([k v] & Hk & Hin). simpl in Hk. subst k.
  apply List.filter_In in Hin as [_ Hin]. simpl in Hin.
  rewrite String.eqb_refl in Hin. discriminate.
Qed.

Lemma dict_keys_NoDup_pop {V} key (d : dict V) :
  List.NoDup (dict_keys d) -> List.NoDup (dict_keys (dict_pop key d)).
Proof.
  intros Hnd. rewrite dict_pop_filter by exact Hnd. apply dict_keys_NoDup_filter, Hnd.
Qed.

Lemma dict_keys_NoDup_set {V} k (v : V) (d : dict V) :
  List.NoDup (dict_keys d) -> List.NoDup (dict_keys (dict_set k v d)).
Proof.
  induction d as [|[k' v'] d IH]; intros Hnd; simpl.
  - repeat constructor. intros [].
  - simpl in Hnd. apply List.NoDup_cons_iff in Hnd as [Hk Hnd].
    destruct (String.eqb_spec k k') as [->|Hne]; simpl.
    + constructor; assumption.
    + constructor; [|auto]. intros Hin. apply dict_keys_set in Hin as [->|Hin]; auto.
Qed.

Lemma startswith_ref_cons k : startswith REF_FEATURE_PREFIX (String "@" k) = true.
Proof. destruct k; reflexivity. Qed.

Lemma resolve_loop_keeps tb k items : forall fr fr',
  CasJsonDeserializer.resolve_loop items tb fr = Ok fr' ->
  startswith REF_FEATURE_PREFIX k = false ->
  ~ In ("@" ++ k)%string (dict_keys items) ->
  dict_get k (CasJsonDeserializer.attributes fr') = dict_get k (CasJsonDeserializer.attributes fr).
Proof.
  induction items as [|[key v] items IH]; intros fr fr' H Hk Hnotin; simpl in H.
  - injection H as <-. reflexivity.
  - simpl in Hnotin.
    assert (~ In ("@" ++ k)%string (dict_keys items)) as Hnotin' by tauto.
    destruct (startswith REF_FEATURE_PREFIX key) eqn:Eref.
    + pose proof (startswith_ref key Eref) as Hkey.
      assert (k <> key) as Hne by (intros ->; congruence).
      assert (tail key <> k) as Hne'.
      { intros E. apply Hnotin. left. rewrite Hkey, E. reflexivity. }
      destruct (table_lookup tb v) as [[target|]|]; [| |discriminate];
        rewrite (IH _ _ H Hk Hnotin'); simpl.
      * rewrite dict_get_set_ne by exact Hne'. apply dict_get_pop_ne, Hne.
      * apply dict_get_pop_ne, Hne.
    + rewrite (IH _ _ H Hk Hnotin'). reflexivity.
Qed.

Lemma resolve_loop_resolves tb name v target items : forall fr fr',
  List.NoDup (dict_keys items) ->
  List.NoDup (dict_keys (CasJsonDeserializer.attributes fr)) ->
  CasJsonDeserializer.resolve_loop items tb fr = Ok fr' ->
  In (("@" ++ name)%string, v) items ->
  table_lookup tb v = Ok (Some target) ->
  startswith REF_FEATURE_PREFIX name = false ->
  dict_get name (CasJsonDeserializer.attributes fr') = Some (VObj target) /\
  (~ In ("@@" ++ name)%string (dict_keys items) ->
   dict_get ("@" ++ name)%string (CasJsonDeserializer.attributes fr') = None).
Proof.
  induction items as [|[key v0] items IH]; intros fr fr' Hnd Hnd' H Hin Hl Hname;
    [destruct Hin|].
  simpl in Hnd. apply List.NoDup_cons_iff in Hnd as [Hkey Hnd]. simpl in H.
  destruct Hin as [[= -> ->]|Hin].
  - rewrite startswith_ref_cons in H.
    change (tail (String "@" name)) with name in H.
    rewrite Hl in H. split.
    + rewrite (resolve_loop_keeps _ _ _ _ _ H Hname Hkey). simpl. apply dict_get_set_eq.
    + intros Hnot. apply dict_get_None.
      eapply (resolve_loop_absent tb ("@" ++ name)%string items); [| |exact H].
      * intros v1 Hv1. exfalso. apply Hnot. right. unfold dict_keys. apply in_map_iff.
        exists (("@" ++ ("@" ++ name))%string, v1). auto.
      * simpl. apply dict_get_None. rewrite dict_get_set_ne.
        -- apply dict_get_pop_eq, Hnd'.
        -- intros E. rewrite E, startswith_ref_cons in Hname. discriminate Hname.
  - assert (forall fr0, List.NoDup (dict_keys (CasJsonDeserializer.attributes fr0)) ->
              CasJsonDeserializer.resolve_loop items tb fr0 = Ok fr' ->
              dict_get name (CasJsonDeserializer.attributes fr') = Some (VObj target) /\
              (~ In ("@@" ++ name)%string (dict_keys ((key, v0) :: items)) ->
               dict_get ("@" ++ name)%string (CasJsonDeserializer.attributes fr') = None))
      as Hrest.
    { intros fr0 Hnd0 H0. destruct (IH fr0 fr' Hnd Hnd0 H0 Hin Hl Hname) as [H1 H2].
      split; [exact H1|]. intros Hnot. apply H2. intros Hin'. apply Hnot. right. exact Hin'. }
    destruct (startswith REF_FEATURE_PREFIX key).
    + destruct (table_lookup tb v0) as [[t0|]|]; [| |discriminate]; apply Hrest in H;
        try exact H; simpl.
      * apply dict_keys_NoDup_set, dict_keys_NoDup_pop, Hnd'.
      * apply dict_keys_NoDup_pop, Hnd'.
    + apply Hrest in H; [exact H | exact Hnd'].
Qed.

(** X13.  [_resolve_references] on a dict of attributes: a reference item
    [@name] whose value is an identifier of the table is replaced by an item
    [name] that holds the object registered under the identifier, and the
    items that are no references and have no reference of their name keep
    their values. *)
Theorem resolve_references_resolves (self : CasJsonDeserializer.t) (dict_addr : addr)
    (attributes attributes' : dict value) (fix_ups : list CasJsonDeserializer.fix_up)
    (name : string) (v : value) (target : obj) :
  List.NoDup (dict_keys attributes) ->
  CasJsonDeserializer._resolve_references self dict_addr attributes
    = Ok (attributes', fix_ups) ->
  In (("@" ++ name)%string, v) attributes ->
  table_lookup (CasJsonDeserializer.feature_structures self) v = Ok (Some target) ->
  startswith REF_FEATURE_PREFIX name = false ->
  dict_get name attributes' = Some (VObj target) /\
  (~ In ("@@" ++ name)%string (dict_keys attributes) ->
   dict_get ("@" ++ name)%string attributes' = None) /\
  (forall k, startswith REF_FEATURE_PREFIX k = false ->
     ~ In ("@" ++ k)%string (dict_keys attributes) ->
     dict_get k attributes' = dict_get k attributes).
Proof.
  intros Hnd H Hin Hl Hname. unfold CasJsonDeserializer._resolve_references in H.
  destruct (CasJsonDeserializer.resolve_loop _ _ _) as [fr|] eqn:Eloop; [|discriminate].
  assert (CasJsonDeserializer.attributes fr = attributes') as <-.
  { destruct (CasJsonDeserializer.feature_name fr), (CasJsonDeserializer.value_ fr);
      injection H; auto. }
  destruct (resolve_loop_resolves _ name v target attributes
              (CasJsonDeserializer.mkFrame attributes None None 0%nat) fr
              Hnd Hnd Eloop Hin Hl Hname) as [H1 H2].
  split; [exact H1|]. split; [exact H2|].
  intros k Hk Hnotin. apply (resolve_loop_keeps _ _ _ _ _ Eloop Hk Hnotin).
Qed.

(** The theorem at the reference [@next] of [two_ref_attributes], whose value
    3 is in the table. *)
Lemma resolve_references_resolves_witness :
  exists attributes' fix_ups,
    CasJsonDeserializer._resolve_references seen_three 0%nat two_ref_attributes
      = Ok (attributes', fix_ups) /\
    dict_get "next" attributes' = Some (VObj (OFs 0%nat)) /\
    (~ In ("@@" ++ "next")%string (dict_keys two_ref_attributes) ->
     dict_get ("@" ++ "next")%string attributes' = None) /\
    (forall k, startswith REF_FEATURE_PREFIX k = false ->
       ~ In ("@" ++ k)%string (dict_keys two_ref_attributes) ->
       dict_get k attributes' = dict_get k two_ref_attributes).
Proof.
  do 2 eexists. split; [vm_compute; reflexivity|].
  eapply (resolve_references_resolves seen_three 0%nat two_ref_attributes _ _ "next" (VInt 3)
            (OFs 0%nat)).
  - vm_compute. repeat constructor; simpl; intuition discriminate.
  - vm_compute. reflexivity.
  - simpl. tauto.
  - reflexivity.
  - reflexivity.
Defined.

(** ** The identifier maximum of the deserializer *)










(** ** The sections of the input *)

(** X15.  [deserialize] returns a document only for an input that is a
    mapping with a [%VIEWS] entry that is a mapping; the type section and
    the records section may be missing: the input that holds an empty
    [%VIEWS] and nothing else is read, with any type system, as a document
    whose current view is empty. *)
Theorem deserialize_requires_views (ts : TypeSystem.t) (h : heap) :
  (forall data r h',
     CasJsonDeserializer.deserialize data ts h = (Ok r, h') ->
     exists items views,
       data = VDict items /\ dict_get VIEWS_FIELD items = Some (VDict views)) /\
  exists cas self h',
    CasJsonDeserializer.deserialize (VDict [(VIEWS_FIELD, VDict [])]) ts h
      = (Ok (cas, self), h') /\
    Cas.select_all cas h' = ([], None).
Proof.
  split.
  - intros data r h' H. unfold CasJsonDeserializer.deserialize in H.
    apply bind_inv in H as (? & h1 & Htypes & H).
    apply lift_inv in Htypes as [Htypes _].
    destruct data as [| | | | |items| |]; try discriminate Htypes.
    apply bind_inv in H as (cas0 & h2 & _ & H).
    apply bind_inv in H as (records & h3 & _ & H).
    apply bind_inv in H as (self1 & h4 & _ & H).
    apply bind_inv in H as (self2 & h5 & _ & H).
    apply bind_inv in H as (xmi_gen & h6 & _ & H).
    apply bind_inv in H as (num_gen & h7 & _ & H).
    apply bind_inv in H as (json_views & h8 & Hviews & H).
    apply lift_inv in Hviews as [Hviews _]. unfold py_get in Hviews.
    destruct json_views as [| | | | |views| |]; try discriminate H.
    exists items, views. split; [reflexivity|].
    destruct (dict_get VIEWS_FIELD items); [|discriminate Hviews].
    injection Hviews as ->. reflexivity.
  - set (data := VDict [(VIEWS_FIELD, VDict [])]).
    assert (lift (py_get data TYPES_FIELD) = ret VNone) as Htypes by reflexivity.
    assert (lift (py_get data FEATURE_STRUCTURES_FIELD) = ret VNone) as Hrecords
      by reflexivity.
    assert (lift (py_get data VIEWS_FIELD) = ret (VDict [])) as Hviews by reflexivity.
    do 3 eexists. split.
    + unfold CasJsonDeserializer.deserialize.
      rewrite Htypes, Hrecords, Hviews.
      rewrite bind_ret. rewrite (bind_ok _ _ _ _ _ (init_ok ts h)).
      rewrite !bind_ret.
      change (CasJsonDeserializer.run_post_processors CasJsonDeserializer.__init__
                (CasJsonDeserializer._post_processors CasJsonDeserializer.__init__))
        with (Ok CasJsonDeserializer.__init__).
      change (lift (Ok CasJsonDeserializer.__init__)) with (ret CasJsonDeserializer.__init__).
      rewrite bind_ret, !bind_new, !bind_ret.
      cbn [CasJsonDeserializer.parse_views]. rewrite bind_ret. reflexivity.
    + unfold Cas.select_all. simpl.
      rewrite lookup_snoc_at by reflexivity. reflexivity.
Qed.

(** ** The serializer *)

Lemma insert_sorted_perm x (l : list Z) : Permutation (insert_sorted x l) (x :: l).
Proof.
  induction l as [|y l IH]; simpl; [reflexivity|].
  destruct (x <? y); [reflexivity|]. rewrite IH. apply perm_swap.
Qed.

Lemma insert_sorted_sorted x (l : list Z) :
  StronglySorted Z.le l -> StronglySorted Z.le (insert_sorted x l).
Proof.
  induction l as [|y l IH]; intros Hs; simpl.
  - repeat constructor.
  - inversion Hs as [|? ? Hl Hy]; subst.
    destruct (Z.ltb_spec x y).
    + constructor; [exact Hs|]. constructor; [lia|].
      eapply List.Forall_impl; [|exact Hy]. simpl. intros z Hz. lia.
    + constructor; [apply IH; exact Hl|].
      rewrite (insert_sorted_perm x l). constructor; [lia | exact Hy].
Qed.

Lemma sorted_ints_perm (l : list Z) : Permutation (sorted_ints l) l.
Proof.
  induction l as [|x l IH]; simpl; [reflexivity|].
  rewrite insert_sorted_perm, IH. reflexivity.
Qed.

Lemma sorted_ints_sorted (l : list Z) : StronglySorted Z.le (sorted_ints l).
Proof.
  induction l as [|x l IH]; simpl; [constructor | apply insert_sorted_sorted, IH].
Qed.

(** X16.  The summary [_serialize_view] writes for a view: the identifier
    of the view's Sofa under [%SOFA] and, under [%INDEX], the identifiers of
    the structures of the view's index, each as often as the index holds
    the structure, in ascending order. *)
Theorem serialize_view_sorted (h : heap) (view : View.t) (json_view : value) :
  CasJsonSerializer._serialize_view h view = Ok json_view ->
  exists sofa ids members,
    sel sofas_ h !! View.sofa view = Some sofa /\
    CasJsonSerializer.identifiers h (get_all_annotations view) = Ok ids /\
    json_view = VDict [(VIEW_SOFA_FIELD, VInt (Sofa.xmiID sofa));
                       (VIEW_INDEX_FIELD, VList (map VInt members))] /\
    Permutation members ids /\
    StronglySorted Z.le members.
Proof.
  unfold CasJsonSerializer._serialize_view. intros H.
  destruct (sel sofas_ h !! View.sofa view) as [sofa|]; [|discriminate].
  destruct (CasJsonSerializer.identifiers h (get_all_annotations view)) as [ids|];
    [|discriminate].
  injection H as <-. exists sofa, ids, (sorted_ints ids).
  split; [reflexivity|]. split; [reflexivity|]. split; [reflexivity|].
  split; [apply sorted_ints_perm | apply sorted_ints_sorted].
Qed.

(** The theorem at the initial view of [linked_heap], which holds the
    structures with the identifiers 2 and 3. *)
Lemma serialize_view_sorted_witness :
  exists view json_view,
    sel views_ linked_heap !! 0%nat = Some view /\
    CasJsonSerializer._serialize_view linked_heap view = Ok json_view /\
    exists sofa ids members,
      sel sofas_ linked_heap !! View.sofa view = Some sofa /\
      CasJsonSerializer.identifiers linked_heap (get_all_annotations view) = Ok ids /\
      json_view = VDict [(VIEW_SOFA_FIELD, VInt (Sofa.xmiID sofa));
                         (VIEW_INDEX_FIELD, VList (map VInt members))] /\
      Permutation members ids /\
      StronglySorted Z.le members.
Proof.
  do 2 eexists. split; [vm_compute; reflexivity|]. split; [vm_compute; reflexivity|].
  eapply serialize_view_sorted. vm_compute. reflexivity.
Defined.

Lemma dict_set_record k v id ty rest :
  is_record (VDict (dict_set k v ((ID_FIELD, id) :: (TYPE_FIELD, ty) :: rest))).
Proof.
  unfold is_record. cbn [dict_set].
  destruct (String.eqb_spec k ID_FIELD) as [->|_]; [do 3 eexists; reflexivity|].
  destruct (String.eqb_spec k TYPE_FIELD) as [->|_]; do 3 eexists; reflexivity.
Qed.

Lemma serialize_features_record h ts t fs fs_type features : forall json_fs json_fs',
  is_record (VDict json_fs) ->
  CasJsonSerializer.serialize_features h ts t fs fs_type features json_fs = Ok json_fs' ->
  is_record (VDict json_fs').
Proof.
  induction features as [|feature features IH]; intros json_fs json_fs' Hrec H; simpl in H.
  - injection H as <-. exact Hrec.
  - assert (forall k v, is_record (VDict (dict_set k v json_fs))) as Hset.
    { intros k v. destruct Hrec as (id & ty & rest & [= ->]). apply dict_set_record. }
    repeat match type of H with
           | (if ?c then _ else _) = _ => destruct c
           | match ?x with _ => _ end = _ => destruct x; try discriminate H
           end.
    all: try discriminate H.
    all: eapply IH; [|exact H]; first [exact Hrec | apply Hset].
Qed.

Lemma serialize_feature_structure_record h cas fs json_fs :
  CasJsonSerializer._serialize_feature_structure h cas fs = Ok json_fs ->
  is_record (VDict json_fs).
Proof.
  unfold CasJsonSerializer._serialize_feature_structure. intros H.
  destruct (getattr h fs "xmiID") as [id|]; [|destruct (getattr h fs "type"); discriminate].
  destruct (getattr h fs "type") as [[]|]; try discriminate.
  destruct (TypeSystem.get_type _ _); [|discriminate].
  eapply serialize_features_record; [|exact H]. do 3 eexists. reflexivity.
Qed.

Lemma Forall_dict_set {V} (Q : V -> Prop) k v (d : dict V) :
  Forall (fun kv => Q (snd kv)) d -> Q v -> Forall (fun kv => Q (snd kv)) (dict_set k v d).
Proof.
  intros Hd Hv. induction d as [|[k' v'] d IH]; simpl.
  - repeat constructor. exact Hv.
  - apply Forall_cons in Hd as [Hk Hd].
    destruct (String.eqb k k'); constructor; auto.
Qed.

Lemma serialize_views_shape h cas vs : forall views records views' records',
  Forall (fun kv => is_view_summary (snd kv)) views ->
  Forall is_record records ->
  CasJsonSerializer.serialize_views h cas vs views records = Ok (views', records') ->
  Forall (fun kv => is_view_summary (snd kv)) views' /\ Forall is_record records'.
Proof.
  induction vs as [|v vs IH]; intros views records views' records' Hviews Hrecords H;
    cbn [CasJsonSerializer.serialize_views] in H.
  - injection H as <- <-. auto.
  - destruct (sel views_ h !! v) as [view|]; [|discriminate].
    destruct (sel sofas_ h !! View.sofa view) as [sofa|] eqn:Hsofa; [|discriminate].
    destruct (CasJsonSerializer._serialize_view h view) as [json_view|] eqn:Hview;
      [|discriminate].
    assert (is_view_summary json_view) as Hsummary.
    { unfold CasJsonSerializer._serialize_view in Hview. rewrite Hsofa in Hview.
      destruct (CasJsonSerializer.identifiers _ _); [|discriminate].
      injection Hview as <-. do 2 eexists. reflexivity. }
    assert (exists records1, Forall is_record records1 /\
              match CasJsonSerializer._serialize_feature_structure h cas (OSofa (View.sofa view)) with
              | Ok json_sofa =>
                  CasJsonSerializer.serialize_views h cas vs
                    (dict_set (Sofa.sofaID sofa) json_view views) (records1 ++ [VDict json_sofa])
              | Raise e => Raise e
              end = Ok (views', records')) as (records1 & Hrecords1 & H1).
    { destruct (Sofa.sofaArray sofa) as [| | | | | | |array];
        try (exists records; split; [exact Hrecords | exact H]).
      destruct (CasJsonSerializer._serialize_feature_structure h cas array) as [json_array|]
        eqn:Harray; [|discriminate].
      exists (records ++ [VDict json_array]). split; [|exact H].
      apply Forall_app. split; [exact Hrecords|]. repeat constructor.
      eapply serialize_feature_structure_record. exact Harray. }
    destruct (CasJsonSerializer._serialize_feature_structure h cas (OSofa (View.sofa view)))
      as [json_sofa|] eqn:Hjson; [|discriminate].
    eapply IH; [| |exact H1].
    + apply Forall_dict_set; assumption.
    + apply Forall_app. split; [exact Hrecords1|]. repeat constructor.
      eapply serialize_feature_structure_record. exact Hjson.
Qed.

Lemma map_result_Forall {A B} (f : A -> result B) (P : B -> Prop) (l : list A) (l' : list B) :
  (forall x y, f x = Ok y -> P y) -> map_result f l = Ok l' -> Forall P l'.
Proof.
  intros Hf. revert l'. induction l as [|x l IH]; intros l' H; simpl in H.
  - injection H as <-. constructor.
  - destruct (f x) as [y|] eqn:E; [|discriminate].
    destruct (map_result f l) as [ys|]; [|discriminate].
    injection H as <-. constructor; [eapply Hf; exact E | apply IH; reflexivity].
Qed.

(** X17.  What [serialize] hands to [json.dump] is a mapping with the three
    sections [%TYPES], [%VIEWS] and [%FEATURE_STRUCTURES], in this order.
    The type section is always empty: the type system is not written.  The
    views section maps names to view summaries, and the records section is a
    sequence of mappings that each start with [%ID] and [%TYPE]; so the
    output has the sections [deserialize] needs. *)
Theorem serialize_sections (cas : Cas.t) (h : heap) (data : value) :
  CasJsonSerializer.serialize cas h = Ok data ->
  exists views records,
    data = VDict [(TYPES_FIELD, VDict []); (VIEWS_FIELD, VDict views);
                  (FEATURE_STRUCTURES_FIELD, VList records)] /\
    Forall (fun kv => is_view_summary (snd kv)) views /\
    Forall is_record records.
Proof.
  unfold CasJsonSerializer.serialize. intros H.
  destruct (sel view_dicts_ h !! Cas._views cas) as [vs|]; [|discriminate].
  destruct (CasJsonSerializer.serialize_views h cas (dict_values vs) [] [])
    as [[views sofa_records]|] eqn:Hviews; [|discriminate].
  destruct (_find_all_fs cas h) as [all_fs|]; [|discriminate].
  destruct (CasJsonSerializer.identifiers h all_fs) as [ids|]; [|discriminate].
  destruct (map_result _ _) as [records|] eqn:Hrecords; [|discriminate].
  injection H as <-.
  apply serialize_views_shape in Hviews as [Hv Hr]; [|constructor|constructor].
  exists views, (sofa_records ++ map VDict records).
  split; [reflexivity|]. split; [exact Hv|].
  apply Forall_app. split; [exact Hr|].
  apply Forall_map.
  eapply map_result_Forall; [|exact Hrecords].
  intros x y Hy. simpl. eapply serialize_feature_structure_record. exact Hy.
Qed.

(** The theorem at [linked_doc]. *)
Lemma serialize_sections_witness :
  exists data views records,
    CasJsonSerializer.serialize linked_cas linked_heap = Ok data /\
    data = VDict [(TYPES_FIELD, VDict []); (VIEWS_FIELD, VDict views);
                  (FEATURE_STRUCTURES_FIELD, VList records)] /\
    Forall (fun kv => is_view_summary (snd kv)) views /\
    Forall is_record records.
Proof.
  assert (exists data, CasJsonSerializer.serialize linked_cas linked_heap = Ok data)
    as [data Hdata] by (eexists; vm_compute; reflexivity).
  destruct (serialize_sections linked_cas linked_heap data Hdata)
    as (views & records & H).
  exists data, views, records. split; [exact Hdata | exact H].
Defined.

(** ** The default view of the deserializer *)

(** X18.  [_get_or_create_view] with the name of the default view creates
    no view: it returns a handle on the view registered as [_InitialView],
    [views] lists what it listed, and the view's Sofa is the one it was,
    with the identifier given for it if one is given.  A sofa number given
    for the view is not used: the Sofa keeps its own. *)
Theorem default_view_reused (cas : Cas.t) (fs_id sofa_num : value) (id : Z) (h : heap)
    (vs : dict addr) (v : addr) (view : View.t) (sofa : Sofa.t) :
  sel view_dicts_ h !! Cas._views cas = Some vs ->
  dict_get NAME_DEFAULT_SOFA vs = Some v ->
  sel views_ h !! v = Some view ->
  sel sofas_ h !! View.sofa view = Some sofa ->
  (fs_id = VNone /\ id = Sofa.xmiID sofa) \/ (fs_id <> VNone /\ as_int fs_id = Some id) ->
  exists c h',
    CasJsonDeserializer._get_or_create_view cas (VStr NAME_DEFAULT_SOFA) fs_id sofa_num h
      = (Ok c, h') /\
    same_document cas c /\
    Cas._current_view c = v /\
    Cas.views cas h' = (Ok (dict_values vs), h') /\
    sel views_ h' !! v = Some view /\
    sel sofas_ h' !! View.sofa view
      = Some (Sofa.mk (Sofa.sofaNum sofa) id (Sofa.sofaID sofa) (Sofa.sofaString sofa)
                (Sofa.mimeType sofa) (Sofa.sofaURI sofa) (Sofa.sofaArray sofa)).
Proof.
  intros Hvs Hv Hview Hsofa Hid.
  pose proof (get_view_ok cas NAME_DEFAULT_SOFA h vs v Hvs Hv) as Hget.
  assert (sel views_ (init_heap h) !! v = Some view) as Hview'.
  { simpl. apply lookup_app_l_Some. exact Hview. }
  assert (sel sofas_ (init_heap h) !! View.sofa view = Some sofa) as Hsofa'.
  { simpl. apply lookup_app_l_Some. exact Hsofa. }
  assert (sel view_dicts_ (init_heap h) !! Cas._views cas = Some vs) as Hvs'.
  { simpl. apply lookup_app_l_Some. exact Hvs. }
  unfold CasJsonDeserializer._get_or_create_view. rewrite String.eqb_refl.
  rewrite (bind_ok _ _ _ _ _ Hget).
  destruct Hid as [[-> ->]|[Hne Hid]].
  - exists (Cas.with_current_view v cas), (init_heap h).
    split; [reflexivity|]. split; [repeat split|]. split; [reflexivity|].
    split; [unfold Cas.views; rewrite (bind_get _ _ _ _ _ Hvs'); reflexivity|].
    split; [exact Hview'|]. rewrite Hsofa'. destruct sofa. reflexivity.
  - assert ((match fs_id with
             | VNone => ret tt
             | _ => match as_int fs_id with
                    | Some id0 =>
                        let! s := Cas.get_sofa (Cas.with_current_view v cas) in
                        modify sofas_ s (Sofa.set_xmiID id0)
                    | None => raise TypeError
                    end
             end) (init_heap h)
            = (Ok tt, upd sofas_ (<[View.sofa view := Sofa.set_xmiID id sofa]>
                                    (sel sofas_ (init_heap h))) (init_heap h))) as Hset.
    { rewrite Hid.
      assert ((let! s := Cas.get_sofa (Cas.with_current_view v cas) in
               modify sofas_ s (Sofa.set_xmiID id)) (init_heap h)
              = (Ok tt, upd sofas_ (<[View.sofa view := Sofa.set_xmiID id sofa]>
                                      (sel sofas_ (init_heap h))) (init_heap h))) as Hmod.
      { unfold Cas.get_sofa. rewrite bind_assoc.
        rewrite (bind_get views_ _ view) by exact Hview'. rewrite bind_ret.
        apply modify_ok. exact Hsofa'. }
      destruct fs_id; try exact Hmod. contradiction. }
    eexists _, _. split.
    { erewrite bind_ok; [|exact Hset]. reflexivity. }
    split; [repeat split|]. split; [reflexivity|].
    split; [unfold Cas.views; erewrite bind_get; [reflexivity | exact Hvs']|].
    split; [exact Hview'|].
    simpl. apply list_lookup_insert_eq. rewrite length_app.
    apply lookup_lt_Some in Hsofa. simpl in Hsofa. lia.
Qed.

(** The theorem at [staged_heap]: the identifier 7 and the sofa number 9
    are given for the default view. *)
Lemma default_view_reused_witness :
  exists c h',
    CasJsonDeserializer._get_or_create_view staged_cas (VStr NAME_DEFAULT_SOFA)
      (VInt 7) (VInt 9) staged_heap = (Ok c, h') /\
    same_document staged_cas c /\
    Cas._current_view c = 0%nat /\
    Cas.views staged_cas h' = (Ok (dict_values [("_InitialView", 0%nat); ("X", 1%nat)]), h') /\
    sel views_ h' !! 0%nat = Some (View.mk 0%nat []) /\
    sel sofas_ h' !! View.sofa (View.mk 0%nat [])
      = Some (Sofa.mk 1 7 "_InitialView" VNone VNone VNone VNone).
Proof.
  apply (default_view_reused staged_cas (VInt 7) (VInt 9) 7 staged_heap
           [("_InitialView", 0%nat); ("X", 1%nat)] 0%nat (View.mk 0%nat [])
           (Sofa.mk 1 1 "_InitialView" VNone VNone VNone VNone));
    try (vm_compute; reflexivity).
  right. split; [discriminate | reflexivity].
Defined.

(** ** Witnesses of two properties of the wire format proved above *)

(** [unresolved_reference_none] at the record 2 of [forward_wire], read with
    an empty table: its reference [@next] names the identifier 3. *)
Lemma unresolved_reference_none_witness :
  exists a self' h',
    CasJsonDeserializer._parse_feature_structure CasJsonDeserializer.__init__ json_ts (VInt 2)
      [("%ID", VInt 2); ("%TYPE", VStr "Node"); ("@next", VInt 3)] empty_heap
      = (Ok (a, self'), h') /\
    exists fs, sel structures_ h' !! a = Some fs /\
      (dict_get "next" (FeatureStructure.features fs) = None \/
       dict_get "next" (FeatureStructure.features fs) = Some VNone).
Proof.
  do 3 eexists. split; [vm_compute; reflexivity|].
  eapply (unresolved_reference_none CasJsonDeserializer.__init__ json_ts (VInt 2)
            [("%ID", VInt 2); ("%TYPE", VStr "Node"); ("@next", VInt 3)] empty_heap _ _ _ "next").
  - intros v Hin. simpl in Hin.
    repeat (destruct Hin as [Hin|Hin]; [try discriminate Hin|]); [|destruct Hin].
    injection Hin as <-. reflexivity.
  - simpl. intuition discriminate.
  - simpl. intuition discriminate.
  - vm_compute. reflexivity.
Defined.


(** [deserialize_requires_views] at [sofa_wire]. *)
Lemma deserialize_requires_views_witness :
  exists items views,
    sofa_wire = VDict items /\ dict_get VIEWS_FIELD items = Some (VDict views).
Proof.
  eapply (proj1 (deserialize_requires_views json_ts empty_heap) sofa_wire).
  vm_compute. reflexivity.
Defined.

(** ** The invariant of a document *)

(** Two lookups of the same object: their results are equal. *)
Ltac same_object H1 H2 :=
  let E := fresh "E" in
  pose proof (eq_trans (eq_sym H1) H2) as E; injection E; clear E; intros ->.

Lemma Forall2_impl_in {A B} (P Q : A -> B -> Prop) (l1 : list A) (l2 : list B) :
  Forall2 P l1 l2 ->
  (forall x y, In x l1 -> In y l2 -> P x y -> Q x y) ->
  Forall2 Q l1 l2.
Proof.
  induction 1 as [|x y l1 l2 Hxy _ IH]; intros H; constructor.
  - apply H; [left; reflexivity | left; reflexivity | exact Hxy].
  - apply IH. intros x' y' Hx Hy. apply H; right; assumption.
Qed.

Lemma paired_view h gn (vs ss : dict addr) n v :
  Forall2 (paired h gn) vs ss -> In (n, v) vs ->
  exists s, In (n, s) ss /\ paired h gn (n, v) (n, s).
Proof.
  induction 1 as [|kv ks vs ss Hp _ IH]; intros Hin; [destruct Hin|].
  destruct Hin as [->|Hin].
  - destruct ks as [n' s]. pose proof Hp as [Hn _]. simpl in Hn. subst n'.
    exists s. split; [left; reflexivity | exact Hp].
  - destruct (IH Hin) as (s & Hs & Hp'). exists s. split; [right; exact Hs | exact Hp'].
Qed.

Lemma paired_sofa h gn (vs ss : dict addr) n s :
  Forall2 (paired h gn) vs ss -> In (n, s) ss ->
  exists v, In (n, v) vs /\ paired h gn (n, v) (n, s).
Proof.
  induction 1 as [|kv ks vs ss Hp _ IH]; intros Hin; [destruct Hin|].
  destruct Hin as [->|Hin].
  - destruct kv as [n' v]. pose proof Hp as [Hn _]. simpl in Hn. subst n'.
    exists v. split; [left; reflexivity | exact Hp].
  - destruct (IH Hin) as (v & Hv & Hp'). exists v. split; [right; exact Hv | exact Hp'].
Qed.

Lemma paired_keys h gn (vs ss : dict addr) :
  Forall2 (paired h gn) vs ss -> dict_keys vs = dict_keys ss.
Proof.
  induction 1 as [|kv ks vs ss [Hn _] _ IH]; [reflexivity|].
  simpl. rewrite Hn, IH. reflexivity.
Qed.

(** One step of a program that leaves the two dictionaries as they are:
    the allocators may have advanced, the views may hold the structures
    [fresh] in addition, which carry identifiers issued in the step, and the
    Sofas and the other structures keep their identifiers. *)
Lemma document_ok_step (fresh : addr -> Prop) (h h' : heap) (c : Cas.t)
    (gx gn gx' gn' : IdGenerator.t) (vs ss : dict addr) :
  document_ok h c ->
  sel generators_ h !! Cas._xmi_id_generator c = Some gx ->
  sel generators_ h !! Cas._sofa_num_generator c = Some gn ->
  sel view_dicts_ h !! Cas._views c = Some vs ->
  sel sofa_dicts_ h !! Cas._sofas c = Some ss ->
  sel generators_ h' !! Cas._xmi_id_generator c = Some gx' ->
  sel generators_ h' !! Cas._sofa_num_generator c = Some gn' ->
  IdGenerator._next_id gx <= IdGenerator._next_id gx' ->
  IdGenerator._next_id gn <= IdGenerator._next_id gn' ->
  sel view_dicts_ h' !! Cas._views c = Some vs ->
  sel sofa_dicts_ h' !! Cas._sofas c = Some ss ->
  (forall b, fresh b \/ ~ fresh b) ->
  (forall n v view, In (n, v) vs -> sel views_ h !! v = Some view ->
     exists view', sel views_ h' !! v = Some view' /\
       View.sofa view' = View.sofa view /\
       forall b, In b (get_all_annotations view') ->
         In b (get_all_annotations view) \/ fresh b) ->
  (forall n s sofa, In (n, s) ss -> sel sofas_ h !! s = Some sofa ->
     exists sofa', sel sofas_ h' !! s = Some sofa' /\
       Sofa.sofaID sofa' = Sofa.sofaID sofa /\
       Sofa.xmiID sofa' = Sofa.xmiID sofa /\
       Sofa.sofaNum sofa' = Sofa.sofaNum sofa) ->
  (forall b fs, ~ fresh b -> sel structures_ h !! b = Some fs ->
     exists fs', sel structures_ h' !! b = Some fs' /\
       FeatureStructure.xmiID fs' = FeatureStructure.xmiID fs) ->
  (forall b, fresh b ->
     exists i, identifier h' (OFs b) = Some i /\
       IdGenerator._next_id gx <= i < IdGenerator._next_id gx') ->
  (forall b1 b2 i, fresh b1 -> fresh b2 ->
     identifier h' (OFs b1) = Some i -> identifier h' (OFs b2) = Some i -> b1 = b2) ->
  document_ok h' c.
Proof.
  intros (gx0 & gn0 & vs0 & ss0 & Hgx0 & Hgn0 & Hne & Hvs0 & Hss0 & Hnd & Hcur & Hpair & Hbelow
          & Huniq & Hnums)
    Hgx Hgn Hvs Hss Hgx' Hgn' Hlex Hlen Hvs' Hss' Hdec Hviews Hsofas Hold Hfresh Hfresh2.
  rewrite Hgx in Hgx0. injection Hgx0 as <-.
  rewrite Hgn in Hgn0. injection Hgn0 as <-.
  rewrite Hvs in Hvs0. injection Hvs0 as <-.
  rewrite Hss in Hss0. injection Hss0 as <-.
  (* every member of the new store is fresh or a member of the old one with
     its identifier *)
  assert (forall o, member h' c o ->
            (exists b, o = OFs b /\ fresh b) \/
            (member h c o /\ identifier h' o = identifier h o)) as Hmem.
  { intros [b|s] Hm.
    - destruct Hm as (vs1 & n & v & view' & Hvs1 & Hin & Hview' & Hb).
      assert (vs1 = vs) as -> by congruence.
      destruct (Hdec b) as [Hf|Hnf]; [left; exists b; auto|]. right.
      destruct (paired_view _ _ _ _ _ _ Hpair Hin) as (s & _ & _ & view & sofa & Hview & _).
      cbn [fst snd] in Hview.
      destruct (Hviews n v view Hin Hview) as (view1 & Hview1 & _ & Hsub).
      assert (view1 = view') as -> by congruence.
      destruct (Hsub b Hb) as [Hbin|Hf]; [|contradiction].
      assert (member h c (OFs b)) as Hmb.
      { exists vs, n, v, view. auto. }
      split; [exact Hmb|].
      destruct (Hbelow _ Hmb) as (i & Hi & _). unfold identifier in Hi |- *.
      destruct (sel structures_ h !! b) as [fs|] eqn:Hfs; [|discriminate].
      destruct (Hold b fs Hnf Hfs) as (fs' & Hfs' & Hid).
      rewrite Hfs'. exact Hid.
    - destruct Hm as (ss1 & n & Hss1 & Hin).
      assert (ss1 = ss) as -> by congruence. right.
      split; [exists ss, n; auto|].
      destruct (paired_sofa _ _ _ _ _ _ Hpair Hin) as (v & _ & _ & view & sofa & _ & _ & Hsofa & _).
      cbn [fst snd] in Hsofa.
      destruct (Hsofas n s sofa Hin Hsofa) as (sofa' & Hsofa' & _ & Hid & _).
      unfold identifier. rewrite Hsofa', Hsofa, Hid. reflexivity. }
  exists gx', gn', vs, ss.
  repeat (split; [assumption|]).
  split.
  { eapply Forall2_impl_in; [exact Hpair|].
    intros [n v] [n' s] Hinv Hins (Hn & view & sofa & Hview & Hs & Hsofa & Hname & Hnum).
    cbn [fst snd] in *. subst n'.
    destruct (Hviews n v view Hinv Hview) as (view' & Hview' & Hsame & _).
    destruct (Hsofas n s sofa Hins Hsofa) as (sofa' & Hsofa' & Hid & _ & Hnum').
    split; [reflexivity|]. exists view', sofa'. cbn [fst snd].
    repeat split; try assumption; try congruence. lia. }
  split.
  { intros o Hm. destruct (Hmem o Hm) as [(b & -> & Hf)|[Hm0 Hid]].
    - destruct (Hfresh b Hf) as (i & Hi & Hrange). exists i. split; [exact Hi | lia].
    - destruct (Hbelow o Hm0) as (i & Hi & Hlt). exists i. rewrite Hid.
      split; [exact Hi | lia]. }
  split.
  { intros o1 o2 i Hm1 Hm2 Hi1 Hi2.
    destruct (Hmem o1 Hm1) as [(b1 & -> & Hf1)|[Hm01 Hid1]];
      destruct (Hmem o2 Hm2) as [(b2 & -> & Hf2)|[Hm02 Hid2]].
    - f_equal. eapply Hfresh2; eassumption.
    - exfalso. destruct (Hfresh b1 Hf1) as (j & Hj & Hrange).
      destruct (Hbelow o2 Hm02) as (k & Hk & Hlt). rewrite Hid2 in Hi2.
      assert (j = i) by congruence. assert (k = i) by congruence. lia.
    - exfalso. destruct (Hfresh b2 Hf2) as (j & Hj & Hrange).
      destruct (Hbelow o1 Hm01) as (k & Hk & Hlt). rewrite Hid1 in Hi1.
      assert (j = i) by congruence. assert (k = i) by congruence. lia.
    - rewrite Hid1 in Hi1. rewrite Hid2 in Hi2. eapply Huniq; eassumption. }
  intros n1 s1 n2 s2 so1 so2 Hin1 Hin2 Hso1 Hso2 Hnum.
  destruct (paired_sofa _ _ _ _ _ _ Hpair Hin1) as (v1 & _ & _ & view1 & sofa1 & _ & _ & Hsofa1 & _).
  destruct (paired_sofa _ _ _ _ _ _ Hpair Hin2) as (v2 & _ & _ & view2 & sofa2 & _ & _ & Hsofa2 & _).
  cbn [fst snd] in Hsofa1, Hsofa2.
  destruct (Hsofas n1 s1 sofa1 Hin1 Hsofa1) as (sofa1' & Hsofa1' & _ & _ & Hnum1).
  destruct (Hsofas n2 s2 sofa2 Hin2 Hsofa2) as (sofa2' & Hsofa2' & _ & _ & Hnum2).
  assert (sofa1' = so1) as -> by congruence. assert (sofa2' = so2) as -> by congruence.
  eapply (Hnums n1 s1 n2 s2 sofa1 sofa2); try eassumption. congruence.
Qed.

Lemma document_ok_extends (h h' : heap) (c : Cas.t) :
  document_ok h c -> extends h h' -> document_ok h' c.
Proof.
  intros Hok (Hg & Hs & Hv & Hf & Hvd & Hsd).
  pose proof Hok as (gx & gn & vs & ss & Hgx & Hgn & _ & Hvs & Hss & _).
  apply (document_ok_step (fun _ => False) h h' c gx gn gx gn vs ss); try assumption;
    try (eapply prefix_lookup_Some; eassumption).
  - lia.
  - lia.
  - intros b. right. tauto.
  - intros n v view _ Hview. exists view. split; [eapply prefix_lookup_Some; eassumption|].
    split; [reflexivity | auto].
  - intros n s sofa _ Hsofa. exists sofa. split; [eapply prefix_lookup_Some; eassumption|].
    auto.
  - intros b fs _ Hfs. exists fs. split; [eapply prefix_lookup_Some; eassumption | reflexivity].
  - intros b [].
  - intros b1 b2 i [].
Qed.

Lemma document_ok_current (h : heap) (c : Cas.t) (vs : dict addr) name v :
  document_ok h c ->
  sel view_dicts_ h !! Cas._views c = Some vs ->
  dict_get name vs = Some v ->
  document_ok h (Cas.with_current_view v c).
Proof.
  intros (gx & gn & vs0 & ss & Hgx & Hgn & Hne & Hvs0 & Hss & Hnd & Hcur & Hrest) Hvs Hv.
  rewrite Hvs in Hvs0. injection Hvs0 as <-.
  exists gx, gn, vs, ss. repeat (split; [assumption|]).
  split; [exists name; exact Hv | exact Hrest].
Qed.

Lemma document_ok_init (ts : TypeSystem.t) (h : heap) :
  document_ok (init_heap h) (init_handle ts h).
Proof.
  exists (IdGenerator.mk 2), (IdGenerator.mk 2),
    [("_InitialView", length (views h))], [("_InitialView", length (sofas h))].
  assert (forall o, member (init_heap h) (init_handle ts h) o -> o = OSofa (length (sofas h)))
    as Hmem.
  { intros [a|s].
    - intros (vs & n & v & view & Hvs & Hin & Hview & Ha). exfalso.
      simpl in Hvs. rewrite lookup_snoc_at in Hvs by reflexivity. injection Hvs as <-.
      destruct Hin as [[= <- <-]|[]].
      simpl in Hview. rewrite lookup_snoc_at in Hview by reflexivity. injection Hview as <-.
      destruct Ha.
    - intros (ss & n & Hss & Hin).
      simpl in Hss. rewrite lookup_snoc_at in Hss by reflexivity. injection Hss as <-.
      destruct Hin as [[= <- <-]|[]]. reflexivity. }
  split.
  { simpl.
    replace (generators h ++ [IdGenerator.mk 2; IdGenerator.mk 2])
      with ((generators h ++ [IdGenerator.mk 2]) ++ [IdGenerator.mk 2])
      by (rewrite <- app_assoc; reflexivity).
    rewrite lookup_app_l by (rewrite length_app; simpl; lia).
    apply lookup_snoc_at. reflexivity. }
  split.
  { simpl.
    replace (generators h ++ [IdGenerator.mk 2; IdGenerator.mk 2])
      with ((generators h ++ [IdGenerator.mk 2]) ++ [IdGenerator.mk 2])
      by (rewrite <- app_assoc; reflexivity).
    apply lookup_snoc_at. rewrite length_app. simpl. lia. }
  split; [simpl; lia|].
  split; [simpl; apply lookup_snoc_at; reflexivity|].
  split; [simpl; apply lookup_snoc_at; reflexivity|].
  split; [repeat constructor; intros []|].
  split; [exists "_InitialView"; reflexivity|].
  split.
  { repeat constructor. simpl. eexists _, _.
    split; [apply lookup_snoc_at; reflexivity|]. split; [reflexivity|].
    split; [apply lookup_snoc_at; reflexivity|]. split; [reflexivity | simpl; lia]. }
  split.
  { intros o Hm. rewrite (Hmem o Hm). exists 1. unfold identifier. simpl.
    rewrite lookup_snoc_at by reflexivity. split; [reflexivity | lia]. }
  split.
  { intros o1 o2 i Hm1 Hm2 _ _. rewrite (Hmem o1 Hm1), (Hmem o2 Hm2). reflexivity. }
  intros n1 s1 n2 s2 so1 so2 [[= <- <-]|[]] [[= <- <-]|[]] _ _ _. reflexivity.
Qed.

Lemma dict_get_app_l {V} k (d d' : dict V) v :
  dict_get k d = Some v -> dict_get k (d ++ d') = Some v.
Proof.
  induction d as [|[k' v'] d IH]; simpl; [discriminate|].
  destruct (String.eqb k k'); auto.
Qed.

Lemma dict_keys_app {V} (d d' : dict V) : dict_keys (d ++ d') = dict_keys d ++ dict_keys d'.
Proof. unfold dict_keys. apply map_app. Qed.

Lemma document_ok_add_view (h : heap) (c : Cas.t) (vs : dict addr) (name : string) :
  document_ok h c ->
  sel view_dicts_ h !! Cas._views c = Some vs ->
  dict_get name vs = None ->
  exists h1,
    Cas._add_view c name h = (Ok tt, h1) /\
    document_ok h1 c /\
    sel view_dicts_ h1 !! Cas._views c = Some (vs ++ [(name, length (sel views_ h))]).
Proof.
  intros (gx & gn & vs0 & ss & Hgx & Hgn & Hne & Hvs0 & Hss & Hnd & Hcur & Hpair & Hbelow
          & Huniq & Hnums) Hvs Hname.
  rewrite Hvs in Hvs0. injection Hvs0 as <-.
  assert (dict_get name ss = None) as Hname'.
  { apply dict_get_None. rewrite <- (paired_keys _ _ _ _ Hpair). apply dict_get_None, Hname. }
  assert (<[Cas._xmi_id_generator c := IdGenerator.mk (IdGenerator._next_id gx + 1)]>
            (sel generators_ h) !! Cas._sofa_num_generator c = Some gn) as Hgn1.
  { rewrite list_lookup_insert_ne by exact Hne. exact Hgn. }
  pose proof (add_view_ok c name h gx gn vs ss Hgx Hgn1 Hvs Hss) as Hadd.
  set (snew := length (sofas h)) in *. set (vnew := length (views h)) in *.
  set (sofa_new := Sofa.mk (IdGenerator._next_id gn) (IdGenerator._next_id gx) name
                     VNone VNone VNone VNone) in *.
  set (h1 := mkHeap _ _ _ _ _ _) in Hadd.
  assert (sel view_dicts_ h1 !! Cas._views c = Some (dict_set name vnew vs)) as Hvs1.
  { simpl. apply list_lookup_insert_eq. eapply lookup_lt_Some. exact Hvs. }
  rewrite (dict_set_absent name vnew vs Hname) in Hvs1.
  assert (sel sofa_dicts_ h1 !! Cas._sofas c = Some (dict_set name snew ss)) as Hss1.
  { simpl. apply list_lookup_insert_eq. eapply lookup_lt_Some. exact Hss. }
  rewrite (dict_set_absent name snew ss Hname') in Hss1.
  assert (forall v view, sel views_ h !! v = Some view -> sel views_ h1 !! v = Some view)
    as Hviews.
  { intros v view Hv. simpl. apply lookup_app_l_Some. exact Hv. }
  assert (forall s sofa, sel sofas_ h !! s = Some sofa -> sel sofas_ h1 !! s = Some sofa)
    as Hsofas.
  { intros s sofa Hs. simpl. apply lookup_app_l_Some. exact Hs. }
  assert (sel views_ h1 !! vnew = Some (View.mk snew [])) as Hvnew.
  { simpl. apply lookup_snoc_at. reflexivity. }
  assert (sel sofas_ h1 !! snew = Some sofa_new) as Hsnew.
  { simpl. apply lookup_snoc_at. reflexivity. }
  assert (forall o, member h1 c o ->
            o = OSofa snew \/ (member h c o /\ identifier h1 o = identifier h o)) as Hmem.
  { intros [a|s].
    - intros (vs1 & n & v & view & Hd & Hin & Hview & Ha). right.
      same_object Hd Hvs1.
      apply in_app_iff in Hin as [Hin|[[= <- <-]|[]]].
      + destruct (paired_view _ _ _ _ _ _ Hpair Hin) as (s & _ & _ & view0 & sofa & Hview0 & _).
        cbn [fst snd] in Hview0.
        pose proof (Hviews _ _ Hview0) as Hview1. same_object Hview Hview1.
        split; [exists vs, n, v, view0; auto | reflexivity].
      + same_object Hview Hvnew. destruct Ha.
    - intros (ss1 & n & Hd & Hin).
      same_object Hd Hss1.
      apply in_app_iff in Hin as [Hin|[[= <- <-]|[]]]; [right | left; reflexivity].
      split; [exists ss, n; auto|].
      destruct (paired_sofa _ _ _ _ _ _ Hpair Hin) as (v & _ & _ & view & sofa & _ & _ & Hsofa & _).
      cbn [fst snd] in Hsofa. unfold identifier. unfold addr in *.
      rewrite (Hsofas _ _ Hsofa), Hsofa. reflexivity. }
  assert (identifier h1 (OSofa snew) = Some (IdGenerator._next_id gx)) as Hidnew.
  { unfold identifier. unfold addr in *. rewrite Hsnew. reflexivity. }
  exists h1. split; [exact Hadd|]. split; [|exact Hvs1].
  exists (IdGenerator.mk (IdGenerator._next_id gx + 1)),
    (IdGenerator.mk (IdGenerator._next_id gn + 1)), (vs ++ [(name, vnew)]), (ss ++ [(name, snew)]).
  split.
  { simpl. rewrite list_lookup_insert_ne by (intros E; apply Hne; symmetry; exact E).
    apply list_lookup_insert_eq. eapply lookup_lt_Some. exact Hgx. }
  split.
  { simpl. apply list_lookup_insert_eq. rewrite length_insert.
    eapply lookup_lt_Some. exact Hgn. }
  split; [exact Hne|]. split; [exact Hvs1|]. split; [exact Hss1|].
  split.
  { rewrite dict_keys_app. apply List.NoDup_app.
    - exact Hnd.
    - simpl. repeat constructor. intros [].
    - intros x Hx [<-|[]]. apply dict_get_None in Hname. contradiction. }
  split.
  { destruct Hcur as [n Hn]. exists n. apply dict_get_app_l. exact Hn. }
  split.
  { apply Forall2_app.
    - eapply Forall2_impl_in; [exact Hpair|].
      intros kv ks _ _ (Hn & view & sofa & Hview & Hs & Hsofa & Hid & Hnum).
      split; [exact Hn|]. exists view, sofa.
      split; [apply Hviews; exact Hview|]. split; [exact Hs|].
      split; [apply Hsofas; exact Hsofa|]. split; [exact Hid | simpl; lia].
    - repeat constructor. cbn [fst snd]. exists (View.mk snew []), sofa_new.
      split; [exact Hvnew|]. split; [reflexivity|]. split; [exact Hsnew|].
      split; [reflexivity | simpl; lia]. }
  split.
  { intros o Hm. destruct (Hmem o Hm) as [->|[Hm0 Hid]].
    - exists (IdGenerator._next_id gx). split; [exact Hidnew | simpl; lia].
    - destruct (Hbelow o Hm0) as (i & Hi & Hlt). exists i. rewrite Hid.
      split; [exact Hi | simpl; lia]. }
  split.
  { intros o1 o2 i Hm1 Hm2 Hi1 Hi2.
    destruct (Hmem o1 Hm1) as [->|[Hm01 Hid1]]; destruct (Hmem o2 Hm2) as [->|[Hm02 Hid2]].
    - reflexivity.
    - exfalso. rewrite Hid2 in Hi2. destruct (Hbelow o2 Hm02) as (k & Hk & Hlt).
      rewrite Hidnew in Hi1. assert (k = i) by congruence.
      assert (IdGenerator._next_id gx = i) by congruence. lia.
    - exfalso. rewrite Hid1 in Hi1. destruct (Hbelow o1 Hm01) as (k & Hk & Hlt).
      rewrite Hidnew in Hi2. assert (k = i) by congruence.
      assert (IdGenerator._next_id gx = i) by congruence. lia.
    - rewrite Hid1 in Hi1. rewrite Hid2 in Hi2. eapply Huniq; eassumption. }
  assert (forall n s so, In (n, s) (ss ++ [(name, snew)]) -> sel sofas_ h1 !! s = Some so ->
            (s = snew /\ Sofa.sofaNum so = IdGenerator._next_id gn) \/
            (In (n, s) ss /\ sel sofas_ h !! s = Some so /\
             Sofa.sofaNum so < IdGenerator._next_id gn)) as Hcase.
  { intros n s so Hin Hso. apply in_app_iff in Hin as [Hin|[[= <- <-]|[]]].
    - right. destruct (paired_sofa _ _ _ _ _ _ Hpair Hin)
        as (v & _ & _ & view & sofa & _ & _ & Hsofa & _ & Hnum).
      cbn [fst snd] in Hsofa.
      pose proof (Hsofas _ _ Hsofa) as Hsofa1. same_object Hso Hsofa1.
      auto.
    - left. same_object Hso Hsnew. auto. }
  intros n1 s1 n2 s2 so1 so2 Hin1 Hin2 Hso1 Hso2 Hnum.
  destruct (Hcase _ _ _ Hin1 Hso1) as [[-> Hn1]|(Hin1' & Hso1' & Hlt1)];
    destruct (Hcase _ _ _ Hin2 Hso2) as [[-> Hn2]|(Hin2' & Hso2' & Hlt2)];
    try reflexivity; try lia.
  eapply (Hnums n1 s1 n2 s2 so1 so2); eassumption.
Qed.

Lemma dict_get_In {V} k (d : dict V) v : dict_get k d = Some v -> In (k, v) d.
Proof.
  induction d as [|[k' v'] d IH]; simpl; [discriminate|].
  destruct (String.eqb_spec k k') as [->|_].
  - intros [= ->]. left. reflexivity.
  - intros H. right. apply IH, H.
Qed.

Lemma dict_get_NoDup {V} k (d : dict V) v :
  List.NoDup (dict_keys d) -> In (k, v) d -> dict_get k d = Some v.
Proof.
  induction d as [|[k' v'] d IH]; simpl; intros Hnd Hin; [destruct Hin|].
  apply List.NoDup_cons_iff in Hnd as [Hk Hnd].
  destruct Hin as [[= -> ->]|Hin].
  - rewrite String.eqb_refl. reflexivity.
  - destruct (String.eqb_spec k k') as [->|_]; [|apply IH; assumption].
    exfalso. apply Hk. unfold dict_keys. apply in_map_iff. exists (k', v). auto.
Qed.

(** The current view of a document and its Sofa. *)
Lemma document_ok_view (h : heap) (c : Cas.t) :
  document_ok h c ->
  exists (ss : dict addr) name view sofa,
    sel sofa_dicts_ h !! Cas._sofas c = Some ss /\
    In (name, View.sofa view) ss /\
    sel views_ h !! Cas._current_view c = Some view /\
    sel sofas_ h !! View.sofa view = Some sofa.
Proof.
  intros (gx & gn & vs & ss & _ & _ & _ & _ & Hss & _ & [name Hcur] & Hpair & _).
  apply dict_get_In in Hcur.
  destruct (paired_view _ _ _ _ _ _ Hpair Hcur) as (s & Hs & _ & view & sofa & Hview & Hvs & Hsofa & _).
  cbn [fst snd] in *. subst s. exists ss, name, view, sofa. auto.
Qed.

(** An identifier that was drawn and not used does no harm. *)
Lemma document_ok_draw (h : heap) (c : Cas.t) (gx : IdGenerator.t) :
  document_ok h c ->
  sel generators_ h !! Cas._xmi_id_generator c = Some gx ->
  document_ok
    (upd generators_
       (<[Cas._xmi_id_generator c := IdGenerator.mk (IdGenerator._next_id gx + 1)]>
          (sel generators_ h)) h) c.
Proof.
  intros Hok Hgx.
  pose proof Hok as (gx0 & gn & vs & ss & Hgx0 & Hgn & Hne & Hvs & Hss & _).
  same_object Hgx0 Hgx.
  apply (document_ok_step (fun _ => False) h _ c gx gn
           (IdGenerator.mk (IdGenerator._next_id gx + 1)) gn vs ss); try assumption.
  - simpl. apply list_lookup_insert_eq. eapply lookup_lt_Some. exact Hgx.
  - simpl. rewrite list_lookup_insert_ne by exact Hne. exact Hgn.
  - simpl. lia.
  - lia.
  - intros b. right. tauto.
  - intros n v view _ Hview. exists view. auto.
  - intros n s sofa _ Hsofa. exists sofa. auto.
  - intros b fs _ Hfs. exists fs. auto.
  - intros b [].
  - intros b1 b2 i [].
Qed.

Lemma document_ok_get_view (h : heap) (c : Cas.t) (name : string) :
  document_ok h c ->
  match Cas.get_view c name h with
  | (Ok c', h') => document_ok h' c'
  | (Raise _, h') => document_ok h' c
  end.
Proof.
  intros Hok. pose proof Hok as (gx & gn & vs & ss & _ & _ & _ & Hvs & _).
  destruct (dict_get name vs) as [v|] eqn:Hv.
  - rewrite (get_view_ok c name h vs v Hvs Hv).
    apply (document_ok_current (init_heap h) c vs name v).
    + eapply document_ok_extends; [exact Hok | apply init_heap_extends].
    + eapply prefix_lookup_Some; [exact Hvs|]. apply init_heap_extends.
    + exact Hv.
  - rewrite (get_view_missing c name h vs Hvs Hv). exact Hok.
Qed.

Lemma document_ok_create_view (h : heap) (c : Cas.t) (name : string) :
  document_ok h c ->
  match Cas.create_view c name h with
  | (Ok c', h') => document_ok h' c'
  | (Raise _, h') => document_ok h' c
  end.
Proof.
  intros Hok. pose proof Hok as (gx & gn & vs & ss & _ & _ & _ & Hvs & _).
  unfold Cas.create_view. rewrite (bind_get _ _ _ _ _ Hvs).
  destruct (dict_get name vs) as [v|] eqn:Hv.
  - rewrite (proj2 (dict_contains_get name vs)) by (exists v; exact Hv). exact Hok.
  - rewrite (proj2 (dict_contains_false name vs) Hv).
    destruct (document_ok_add_view h c vs name Hok Hvs Hv) as (h1 & Hadd & Hok1 & _).
    rewrite (bind_ok _ _ _ _ _ Hadd).
    apply document_ok_get_view. exact Hok1.
Qed.

Lemma add_annotation_missing (c : Cas.t) (a : addr) (h : heap) (gx : IdGenerator.t) :
  sel generators_ h !! Cas._xmi_id_generator c = Some gx ->
  sel structures_ h !! a = None ->
  Cas.add_annotation c a h =
    (Raise BadAddress,
     upd generators_
       (<[Cas._xmi_id_generator c := IdGenerator.mk (IdGenerator._next_id gx + 1)]>
          (sel generators_ h)) h).
Proof.
  intros Hgx Hfs. unfold Cas.add_annotation, Cas._get_next_xmi_id.
  rewrite (bind_ok _ _ _ _ _ (generate_id_ok _ _ _ Hgx)).
  unfold modify, get, bind. simpl. simpl in Hfs. rewrite Hfs. reflexivity.
Qed.

Lemma document_ok_add_annotation (h : heap) (c : Cas.t) (a : addr) :
  document_ok h c -> document_ok (snd (Cas.add_annotation c a h)) c.
Proof.
  intros Hok.
  pose proof Hok as (gx & gn & vs & ss & Hgx & Hgn & Hne & Hvs & Hss & _).
  destruct (document_ok_view h c Hok) as (ss0 & cn & view & sofa & _ & _ & Hview & _).
  destruct (sel structures_ h !! a) as [fs|] eqn:Hfs; cycle 1.
  { rewrite (add_annotation_missing c a h gx Hgx Hfs). apply document_ok_draw; assumption. }
  rewrite (add_annotation_ok c a h gx fs view Hgx Hfs Hview). cbn [snd].
  apply (document_ok_step (eq a) h _ c gx gn
           (IdGenerator.mk (IdGenerator._next_id gx + 1)) gn vs ss); try assumption.
  - simpl. apply list_lookup_insert_eq. eapply lookup_lt_Some. exact Hgx.
  - simpl. rewrite list_lookup_insert_ne by exact Hne. exact Hgn.
  - simpl. lia.
  - lia.
  - intros b. destruct (Nat.eq_dec a b); auto.
  - intros n v view0 _ Hview0.
    destruct (Nat.eq_dec v (Cas._current_view c)) as [->|Hv].
    + same_object Hview0 Hview. eexists. split.
      * simpl. apply list_lookup_insert_eq. eapply lookup_lt_Some. exact Hview.
      * split; [reflexivity|]. intros b Hb.
        eapply Permutation_in in Hb; [|apply get_all_annotations_added].
        destruct Hb as [<-|Hb]; [right; reflexivity | left; exact Hb].
    + exists view0. split; [|auto]. simpl.
      rewrite list_lookup_insert_ne by (intros E; apply Hv; symmetry; exact E).
      exact Hview0.
  - intros n s sofa0 _ Hsofa0. exists sofa0. auto.
  - intros b fs0 Hb Hfs0. exists fs0. split; [|reflexivity]. simpl.
    rewrite list_lookup_insert_ne by exact Hb. exact Hfs0.
  - intros b <-. destruct (added_id c a gx fs view h Hfs) as (fs' & Hfs' & Hid).
    exists (IdGenerator._next_id gx). split; [|simpl; lia].
    unfold identifier. unfold addr in *. rewrite Hfs'. exact Hid.
  - intros b1 b2 i <- <- _ _. reflexivity.
Qed.

Lemma set_payload_ok p (c : Cas.t) v h view sofa :
  sel views_ h !! Cas._current_view c = Some view ->
  sel sofas_ h !! View.sofa view = Some sofa ->
  set_payload p c v h =
    (Ok tt,
     upd sofas_
       (<[View.sofa view :=
            match p with
            | SofaString => Sofa.set_sofaString v sofa
            | SofaMime => Sofa.set_mimeType v sofa
            | SofaUri => Sofa.set_sofaURI v sofa
            end]> (sel sofas_ h)) h).
Proof.
  intros Hview Hsofa.
  destruct p; unfold set_payload, Cas.set_sofa_string, Cas.set_sofa_mime, Cas.set_sofa_uri,
    Cas.get_sofa;
    rewrite bind_assoc, (bind_get _ _ _ _ _ Hview), bind_ret;
    apply modify_ok; exact Hsofa.
Qed.

Lemma document_ok_set_payload (h : heap) (c : Cas.t) (p : payload) (v : value) :
  document_ok h c -> document_ok (snd (set_payload p c v h)) c.
Proof.
  intros Hok.
  pose proof Hok as (gx & gn & vs & ss & Hgx & Hgn & Hne & Hvs & Hss & _).
  destruct (document_ok_view h c Hok) as (ss0 & cn & view & sofa & _ & _ & Hview & Hsofa).
  rewrite (set_payload_ok p c v h view sofa Hview Hsofa). cbn [snd].
  apply (document_ok_step (fun _ => False) h _ c gx gn gx gn vs ss); try assumption.
  - lia.
  - lia.
  - intros b. right. tauto.
  - intros n w view0 _ Hview0. exists view0. auto.
  - intros n s sofa0 _ Hsofa0.
    destruct (Nat.eq_dec s (View.sofa view)) as [->|Hs].
    + same_object Hsofa0 Hsofa. eexists. split.
      * simpl. apply list_lookup_insert_eq. eapply lookup_lt_Some. exact Hsofa.
      * destruct p; auto.
    + exists sofa0. split; [|auto]. simpl.
      rewrite list_lookup_insert_ne by (intros E; apply Hs; symmetry; exact E).
      exact Hsofa0.
  - intros b fs _ Hfs. exists fs. auto.
  - intros b [].
  - intros b1 b2 i [].
Qed.

Lemma new_structure_extends (fs : FeatureStructure.t) (h : heap) :
  extends h (snd (new structures_ fs h)).
Proof.
  unfold extends. simpl. repeat split; try reflexivity. apply prefix_app_r. reflexivity.
Qed.

(** Every operation keeps the invariant, for the handle the program holds
    afterwards. *)
Lemma document_ok_perform (h : heap) (c : Cas.t) (o : operation) :
  document_ok h c ->
  match perform c o h with
  | (Ok c', h') => document_ok h' c'
  | (Raise _, h') => document_ok h' c
  end.
Proof.
  intros Hok. destruct o as [fs|name|name|a|p v]; cbn [perform].
  - eapply document_ok_extends; [exact Hok|]. apply new_structure_extends.
  - apply document_ok_create_view. exact Hok.
  - apply document_ok_get_view. exact Hok.
  - pose proof (document_ok_add_annotation h c a Hok) as H. unfold bind.
    destruct (Cas.add_annotation c a h) as [[[]|e] h']; exact H.
  - pose proof (document_ok_set_payload h c p v Hok) as H. unfold bind.
    destruct (set_payload p c v h) as [[[]|e] h']; exact H.
Qed.

Lemma document_ok_script (ops : list operation) : forall (h : heap) (c : Cas.t),
  document_ok h c -> document_ok (snd (script c ops h)) (fst (script c ops h)).
Proof.
  induction ops as [|o ops IH]; intros h c Hok; [exact Hok|].
  cbn [script]. pose proof (document_ok_perform h c o Hok) as H.
  destruct (perform c o h) as [[c'|e] h']; apply IH; exact H.
Qed.

(** The documents a program reaches from [Cas(typesystem)]. *)
Lemma document_ok_reached (ts : TypeSystem.t) (ops : list operation)
    (h0 h1 h : heap) (c0 c : Cas.t) :
  Cas.__init__ ts h0 = (Ok c0, h1) ->
  script c0 ops h1 = (c, h) ->
  document_ok h c.
Proof.
  intros Hinit Hrun. rewrite init_ok in Hinit. injection Hinit as <- <-.
  pose proof (document_ok_script ops _ _ (document_ok_init ts h0)) as H.
  rewrite Hrun in H. exact H.
Qed.

Lemma Forall2_values {V W} (P : string * V -> string * W -> Prop) (Q : V -> W -> Prop)
    (d : dict V) (e : dict W) :
  Forall2 P d e ->
  (forall x y, In x d -> In y e -> P x y -> Q (snd x) (snd y)) ->
  Forall2 Q (dict_values d) (dict_values e).
Proof.
  induction 1 as [|x y d e Hxy _ IH]; intros H; simpl; constructor.
  - apply H; [left; reflexivity | left; reflexivity | exact Hxy].
  - apply IH. intros x' y' Hx Hy. apply H; right; assumption.
Qed.

(** X21.  In a document that a program reaches from [Cas(typesystem)] by
    building structures and calling [create_view], [get_view],
    [add_annotation] and the setters of the Sofa payload, in any order and
    with any arguments, exceptions caught: every Sofa the document registers
    and every structure in the index of one of its views carries an
    identifier, no two of them carry the same, and all of them are below the
    identifier that [_get_next_xmi_id] issues next. *)
Theorem identifiers_unique (ts : TypeSystem.t) (ops : list operation)
    (h0 h1 h : heap) (c0 c : Cas.t) :
  Cas.__init__ ts h0 = (Ok c0, h1) ->
  script c0 ops h1 = (c, h) ->
  exists next h',
    Cas._get_next_xmi_id c h = (Ok next, h') /\
    (forall o, member h c o -> exists i, identifier h o = Some i /\ i < next) /\
    (forall o1 o2, member h c o1 -> member h c o2 ->
       identifier h o1 = identifier h o2 -> o1 = o2).
Proof.
  intros Hinit Hrun.
  destruct (document_ok_reached ts ops h0 h1 h c0 c Hinit Hrun)
    as (gx & gn & vs & ss & Hgx & _ & _ & _ & _ & _ & _ & _ & Hbelow & Huniq & _).
  exists (IdGenerator._next_id gx). eexists.
  split; [apply generate_id_ok; exact Hgx|]. split; [exact Hbelow|].
  intros o1 o2 Hm1 Hm2 Heq.
  destruct (Hbelow o1 Hm1) as (i & Hi & _).
  apply (Huniq o1 o2 i Hm1 Hm2 Hi). rewrite <- Heq. exact Hi.
Qed.

Lemma identifiers_unique_witness :
  exists next h',
    Cas._get_next_xmi_id (fst (script (init_handle span_ts empty_heap) busy_script
                                 (init_heap empty_heap)))
      (snd (script (init_handle span_ts empty_heap) busy_script (init_heap empty_heap)))
      = (Ok next, h') /\
    next = 8.
Proof.
  destruct (identifiers_unique span_ts busy_script empty_heap (init_heap empty_heap)
              (snd (script (init_handle span_ts empty_heap) busy_script (init_heap empty_heap)))
              (init_handle span_ts empty_heap)
              (fst (script (init_handle span_ts empty_heap) busy_script (init_heap empty_heap))))
    as (next & h' & Hnext & _).
  - vm_compute. reflexivity.
  - vm_compute. reflexivity.
  - exists next, h'. split; [exact Hnext|].
    vm_compute in Hnext. injection Hnext as <- _. reflexivity.
Defined.

(** X22.  In such a document [views] and [sofas] list the views and the
    Sofas in step: each view has the Sofa at its place, [get_view] of that
    Sofa's [sofaID] returns the handle on this view, the current view of the
    handle is one of the views, and no two Sofas have the same [sofaNum]. *)
Theorem views_sofas_aligned (ts : TypeSystem.t) (ops : list operation)
    (h0 h1 h : heap) (c0 c : Cas.t) :
  Cas.__init__ ts h0 = (Ok c0, h1) ->
  script c0 ops h1 = (c, h) ->
  exists vs ss : list addr,
    Cas.views c h = (Ok vs, h) /\
    Cas.sofas c h = (Ok ss, h) /\
    In (Cas._current_view c) vs /\
    Forall2
      (fun v s : addr =>
         exists view sofa,
           sel views_ h !! v = Some view /\ View.sofa view = s /\
           sel sofas_ h !! s = Some sofa /\
           Cas.get_view c (Sofa.sofaID sofa) h
             = (Ok (Cas.with_current_view v c), init_heap h)) vs ss /\
    (forall (s1 s2 : addr) so1 so2,
       In s1 ss -> In s2 ss ->
       sel sofas_ h !! s1 = Some so1 -> sel sofas_ h !! s2 = Some so2 ->
       Sofa.sofaNum so1 = Sofa.sofaNum so2 -> s1 = s2).
Proof.
  intros Hinit Hrun.
  destruct (document_ok_reached ts ops h0 h1 h c0 c Hinit Hrun)
    as (gx & gn & dv & ds & _ & _ & _ & Hdv & Hds & Hnd & [cn Hcur] & Hpair & _ & _ & Hnums).
  exists (dict_values dv), (dict_values ds).
  split; [unfold Cas.views; rewrite (bind_get _ _ _ _ _ Hdv); reflexivity|].
  split; [unfold Cas.sofas; rewrite (bind_get _ _ _ _ _ Hds); reflexivity|].
  split; [eapply dict_get_values; exact Hcur|].
  split.
  - eapply Forall2_values; [exact Hpair|].
    intros [n v] [n' s] Hin _ (Hn & view & sofa & Hview & Hs & Hsofa & Hid & _).
    cbn [fst snd] in *. exists view, sofa. repeat (split; [assumption|]).
    apply (get_view_ok c (Sofa.sofaID sofa) h dv v Hdv).
    rewrite Hid. apply dict_get_NoDup; assumption.
  - intros s1 s2 so1 so2 Hin1 Hin2 Hso1 Hso2 Hnum.
    unfold dict_values in Hin1, Hin2.
    apply in_map_iff in Hin1 as ([n1 s1'] & <- & Hin1).
    apply in_map_iff in Hin2 as ([n2 s2'] & <- & Hin2).
    cbn [snd] in *. eapply (Hnums n1 s1' n2 s2' so1 so2); eassumption.
Qed.

Lemma views_sofas_aligned_witness :
  exists vs ss : list addr,
    Cas.views (fst (script (init_handle span_ts empty_heap) busy_script (init_heap empty_heap)))
      (snd (script (init_handle span_ts empty_heap) busy_script (init_heap empty_heap)))
      = (Ok vs, snd (script (init_handle span_ts empty_heap) busy_script
                       (init_heap empty_heap))) /\
    length vs = 3%nat /\ length ss = 3%nat.
Proof.
  destruct (views_sofas_aligned span_ts busy_script empty_heap (init_heap empty_heap)
              (snd (script (init_handle span_ts empty_heap) busy_script (init_heap empty_heap)))
              (init_handle span_ts empty_heap)
              (fst (script (init_handle span_ts empty_heap) busy_script (init_heap empty_heap))))
    as (vs & ss & Hvs & Hss & _ & Hall & _).
  - vm_compute. reflexivity.
  - vm_compute. reflexivity.
  - exists vs, ss. split; [exact Hvs|].
    assert (length vs = 3%nat) as Hlen.
    { vm_compute in Hvs. injection Hvs as <-. reflexivity. }
    split; [exact Hlen|]. rewrite <- (Forall2_length _ _ _ Hall). exact Hlen.
Defined.
